(** * StockBuddy orchestration core: a shallow embedding and its properties

    The development embeds the task executor
    ([stockbuddy/core/task/executor.py]), the deterministic branch of the
    planner ([stockbuddy/core/plan/planner.py]), the session driver
    ([stockbuddy/core/coordinate/orchestrator.py]) and the task cancel
    service ([stockbuddy/server/services/task_service.py]).

    Part I gives the model, Part II the theorems.

    Conventions.
    - A Python [str] is a [string]; non-ASCII text is its UTF-8 encoding, so
      that the substring test [kw in s] is the byte-level one.
    - A Python [set] is a [gset]; a [dict] keyed by strings is a [gmap].
      Iterating a [set] visits its elements in an order Python leaves
      unspecified; the model visits [elements s], and every statement about
      a batch is up to the order of its members.
    - An async generator is a function from the world to the new world,
      the list of responses it yielded and either its return value or the
      exception it raised ([Gen]). *)

From Stdlib Require Import Ascii String QArith.
From stdpp Require Import gmap strings list pretty.

#[local] Open Scope string_scope.
#[local] Open Scope list_scope.

(* ================================================================== *)
(** * Part I. The model *)
(* ================================================================== *)

(** ** Python string helpers *)

Module PyStr.

(** [str.lower()], on the ASCII letters. *)
Definition lower_ascii (c : ascii) : ascii :=
  let n := nat_of_ascii c in
  if (65 <=? n)%nat && (n <=? 90)%nat then ascii_of_nat (n + 32) else c.

Fixpoint lower (s : string) : string :=
  match s with
  | EmptyString => EmptyString
  | String c s' => String (lower_ascii c) (lower s')
  end.

(** [kw in s]. *)
Fixpoint contains (kw s : string) : bool :=
  String.prefix kw s
  || match s with
     | EmptyString => false
     | String _ s' => contains kw s'
     end.

(** The ASCII characters [str.strip()] removes: TAB, LF, VT, FF, CR,
    FS, GS, RS, US and the space. *)
Definition isspace (c : ascii) : bool :=
  let n := nat_of_ascii c in
  ((9 <=? n)%nat && (n <=? 13)%nat)
  || ((28 <=? n)%nat && (n <=? 32)%nat).

Fixpoint lstrip_chars (l : list ascii) : list ascii :=
  match l with
  | c :: l' => if isspace c then lstrip_chars l' else l
  | [] => []
  end.

Definition strip (s : string) : string :=
  string_of_list_ascii
    (rev (lstrip_chars (rev (lstrip_chars (list_ascii_of_string s))))).

(** ["".join(parts)]. *)
Definition join (parts : list string) : string :=
  foldr String.append EmptyString parts.

(** Truthiness of a string. *)
Definition truthy (s : string) : bool :=
  match s with EmptyString => false | _ => true end.

(** Truthiness of an [Optional[str]]. *)
Definition truthy_opt (o : option string) : bool :=
  match o with Some s => truthy s | None => false end.

End PyStr.

(** ** Tasks and plans *)

Inductive TaskPattern := ONCE | RECURRING.
Inductive TaskStatus := PENDING | RUNNING | COMPLETED | FAILED | CANCELLED.

#[global] Instance TaskPattern_eq_dec : EqDecision TaskPattern.
Proof. solve_decision. Defined.
#[global] Instance TaskStatus_eq_dec : EqDecision TaskStatus.
Proof. solve_decision. Defined.

(** Modelled from the spec: [ScheduleConfig] of stockbuddy.core.task.models
    (section 3: an interval in minutes or a daily time). *)
Record ScheduleConfig := {
  interval_minutes : option Z;
  daily_time : option string;
}.

(** Modelled from the spec: the [Task] record of stockbuddy.core.task.models
    (section 3), with the fields the planner fills in [_create_task]. *)
Record Task := {
  task_id : string;
  conversation_id : string;
  thread_id : string;
  user_id : string;
  agent_name : string;
  status : TaskStatus;
  title : string;
  query : string;
  pattern : TaskPattern;
  schedule_config : option ScheduleConfig;
  handoff_from_super_agent : bool;
  super_agent_conversation_id : option string;
  depends_on : list string;
}.

(** Modelled from the spec: [Task.is_scheduled] of
    stockbuddy.core.task.models; a task is scheduled when it is RECURRING. *)
Definition is_scheduled (t : Task) : bool :=
  bool_decide (pattern t = RECURRING).

Module Plan.
(** Modelled from the spec: [ExecutionPlan] of stockbuddy.core.plan.models
    (section 3). *)
Record ExecutionPlan := {
  plan_id : string;
  conversation_id : string;
  user_id : string;
  orig_query : string;
  tasks : list Task;
  guidance_message : option string;
}.
End Plan.
Abbreviation ExecutionPlan := Plan.ExecutionPlan.

(** ** Responses *)

(** Modelled from the spec: the event kinds of section 4.1
    ([StreamResponseEvent] and its siblings in stockbuddy.core.types). *)
Inductive StreamResponseEvent :=
| CONVERSATION_STARTED | THREAD_STARTED
| TASK_STARTED | TASK_COMPLETED | TASK_FAILED
| MESSAGE_CHUNK | REASONING
| TOOL_CALL_STARTED | TOOL_CALL_COMPLETED
| PLAN_REQUIRE_USER_INPUT | PLAN_FAILED
| COMPONENT_GENERATOR
| SYSTEM_FAILED | DONE.

#[global] Instance StreamResponseEvent_eq_dec : EqDecision StreamResponseEvent.
Proof. solve_decision. Defined.

Inductive SubagentConversationPhase := START | END.

(** Modelled from the spec: [ComponentType] of stockbuddy.core.types, the
    component kinds of section 4.1. *)
Inductive ComponentType :=
| SCHEDULED_TASK_CONTROLLER | SUBAGENT_CONVERSATION
| EXECUTION_PLAN | SCHEDULE_TASK_RESULT.

#[global] Instance ComponentType_eq_dec : EqDecision ComponentType.
Proof. solve_decision. Defined.

(** What a component carries.  The source serialises these records to a
    JSON string ([json.dumps], [model_dump_json]); the model keeps the
    record that is serialised. *)
Inductive ComponentContent :=
| ScheduledTaskComponentContent (result create_time : string)
| SubagentConversationContent
    (conversation agent : string) (phase : SubagentConversationPhase)
| ScheduledTaskControllerContent (task : Task)
| ExecutionPlanContent (tasks : list Task).

(** The payload classes: a text payload ([content: Optional[str]]) and the
    component payload. *)
Inductive Payload :=
| BaseResponseDataPayload (content : option string)
| ComponentGeneratorResponseDataPayload
    (content : ComponentContent) (component_id : string)
    (component_type : ComponentType).

Module Response.
(** [BaseResponse]: the event kind and the fields of [resp.data]. *)
Record BaseResponse := {
  event : StreamResponseEvent;
  conversation_id : string;
  thread_id : option string;
  task_id : option string;
  agent_name : option string;
  payload : option Payload;
}.

(** [payload.content if payload else None] of a text payload; the
    accumulator reads it on message responses, which carry a text
    payload. *)
Definition text_content (r : BaseResponse) : option string :=
  match payload r with
  | Some (BaseResponseDataPayload c) => c
  | _ => None
  end.
End Response.
Abbreviation BaseResponse := Response.BaseResponse.

(** Modelled from the spec: [EventPredicates] of
    stockbuddy.core.agent.responses, on the event kinds of section 4.1. *)
Module EventPredicates.
Definition is_message (e : StreamResponseEvent) : bool :=
  bool_decide (e = MESSAGE_CHUNK).
Definition is_reasoning (e : StreamResponseEvent) : bool :=
  bool_decide (e = REASONING).
Definition is_tool_call (e : StreamResponseEvent) : bool :=
  bool_decide (e = TOOL_CALL_STARTED) || bool_decide (e = TOOL_CALL_COMPLETED).
End EventPredicates.

(** Modelled from the spec: [ResponseFactory] of stockbuddy.core.event.factory.
    Every response carries the identifiers the caller passes (section 4.1);
    the item id the factory draws for each response is left out. *)
Module ResponseFactory.

Definition make (ev : StreamResponseEvent) (cid : string)
    (tid task agent : option string) (p : option Payload) : BaseResponse :=
  {| Response.event := ev; Response.conversation_id := cid;
     Response.thread_id := tid; Response.task_id := task;
     Response.agent_name := agent; Response.payload := p |}.

Definition text_response (ev : StreamResponseEvent) (cid : string)
    (tid task agent : option string) (content : option string) : BaseResponse :=
  make ev cid tid task agent (Some (BaseResponseDataPayload content)).

Definition conversation_started (cid : string) : BaseResponse :=
  make CONVERSATION_STARTED cid None None None None.

Definition thread_started (cid tid user_query : string) : BaseResponse :=
  text_response THREAD_STARTED cid (Some tid) None None (Some user_query).

Definition task_started (cid tid task agent task_title : string) : BaseResponse :=
  text_response TASK_STARTED cid (Some tid) (Some task) (Some agent)
    (Some task_title).

Definition task_completed (cid tid task agent : string) : BaseResponse :=
  make TASK_COMPLETED cid (Some tid) (Some task) (Some agent) None.

Definition task_failed (cid tid task content agent : string) : BaseResponse :=
  text_response TASK_FAILED cid (Some tid) (Some task) (Some agent)
    (Some content).

Definition message_response_general (ev : StreamResponseEvent)
    (cid tid task content agent : string) : BaseResponse :=
  text_response ev cid (Some tid) (Some task) (Some agent) (Some content).

Definition component_generator (cid tid task : string)
    (content : ComponentContent) (ctype : ComponentType)
    (component_id agent : string) : BaseResponse :=
  make COMPONENT_GENERATOR cid (Some tid) (Some task) (Some agent)
    (Some (ComponentGeneratorResponseDataPayload content component_id ctype)).

Definition schedule_task_controller_component (cid tid : string) (t : Task)
    : BaseResponse :=
  component_generator cid tid (task_id t)
    (ScheduledTaskControllerContent t) SCHEDULED_TASK_CONTROLLER
    (task_id t) (agent_name t).

Definition schedule_task_result_component (t : Task)
    (content : ComponentContent) : BaseResponse :=
  component_generator (conversation_id t) (thread_id t) (task_id t)
    content SCHEDULE_TASK_RESULT (task_id t) (agent_name t).

Definition done (cid : string) (tid : option string) : BaseResponse :=
  make DONE cid tid None None None.

Definition system_failed (cid content : string) : BaseResponse :=
  text_response SYSTEM_FAILED cid None None None (Some content).

Definition plan_require_user_input (cid tid prompt : string) : BaseResponse :=
  text_response PLAN_REQUIRE_USER_INPUT cid (Some tid) None None (Some prompt).

Definition plan_failed (cid tid content : string) : BaseResponse :=
  text_response PLAN_FAILED cid (Some tid) None None (Some content).

End ResponseFactory.

(** ** ScheduledTaskResultAccumulator (executor.py, lines 40-93) *)

Module ScheduledTaskResultAccumulator.
Import EventPredicates.

(** The object: the task it was built for and its [_buffer]. *)
Record t := {
  _task : Task;
  _buffer : list string;
}.

Definition __init__ (task : Task) : t :=
  {| _task := task; _buffer := [] |}.

Definition enabled (self : t) : bool := is_scheduled (_task self).

(** One turn of the [for resp in responses] loop: the accumulator after
    it and the response appended to [passthrough], if any. *)
Definition consume_one (self : t) (resp : BaseResponse)
    : t * option BaseResponse :=
  let ev := Response.event resp in
  if is_message ev then
    match Response.text_content resp with
    | Some content =>
        if PyStr.truthy content
        then ({| _task := _task self;
                 _buffer := _buffer self ++ [content] |}, None)
        else (self, None)
    | None => (self, None)
    end
  else if is_reasoning ev then (self, None)
  else if is_tool_call ev then (self, None)
  else (self, Some resp).

Fixpoint consume_loop (self : t) (responses passthrough : list BaseResponse)
    : t * list BaseResponse :=
  match responses with
  | [] => (self, passthrough)
  | resp :: rest =>
      let '(self', out) := consume_one self resp in
      consume_loop self' rest
        (match out with Some r => passthrough ++ [r] | None => passthrough end)
  end.

Definition consume (self : t) (responses : list BaseResponse)
    : t * list BaseResponse :=
  if negb (enabled self) then (self, responses)
  else consume_loop self responses [].

(** [finalize]; [now] is the formatted [datetime.now(timezone.utc)]. *)
Definition finalize (self : t) (now : string) : option BaseResponse :=
  if negb (enabled self) then None
  else
    let content := PyStr.strip (PyStr.join (_buffer self)) in
    let content :=
      if negb (PyStr.truthy content)
      then "Task completed without output." else content in
    Some (ResponseFactory.schedule_task_result_component (_task self)
            (ScheduledTaskComponentContent content now)).

(** The claim's reading of [consume] and [finalize]: the responses that
    pass through, the content a response adds to the buffer, and the
    result text. *)
Definition forwarded (resp : BaseResponse) : bool :=
  negb (is_message (Response.event resp))
  && negb (is_reasoning (Response.event resp))
  && negb (is_tool_call (Response.event resp)).

Definition buffered_content (resp : BaseResponse) : option string :=
  if is_message (Response.event resp) then
    match Response.text_content resp with
    | Some content => if PyStr.truthy content then Some content else None
    | None => None
    end
  else None.

Definition stripped_or_placeholder (buffer : list string) : string :=
  let content := PyStr.strip (PyStr.join buffer) in
  if PyStr.truthy content then content
  else "Task completed without output.".

End ScheduledTaskResultAccumulator.

(** ** The world *)

(** Modelled from the spec: the [UserInput] of stockbuddy.core.types
    (section 3), with [meta] flattened. *)
Module UserInput.
Record t := {
  query : string;
  target_agent_name : string;
  user_id : string;
  conversation_id : string;
}.
End UserInput.
Abbreviation UserInput := UserInput.t.

Inductive ConversationStatus := ACTIVE | REQUIRE_USER_INPUT | TERMINATED.

#[global] Instance ConversationStatus_eq_dec : EqDecision ConversationStatus.
Proof. solve_decision. Defined.

(** Modelled from the spec: the [Conversation] record (section 3). *)
Module Conversation.
Record t := {
  user_id : string;
  agent_name : string;
  title : option string;
  status : ConversationStatus;
}.
End Conversation.
Abbreviation Conversation := Conversation.t.

(** [ExecutionContext] (orchestrator.py, lines 27-61).  [created_at] is the
    event-loop clock, in seconds; the metadata dictionary is kept by its
    keys; [planning_task] names the background planner run by its plan id. *)
Module ExecutionContext.
Record t := {
  stage : string;
  conversation_id : string;
  thread_id : string;
  user_id : string;
  created_at : Q;
  original_user_input : option UserInput;
  planning_task : option string;
  pending_response : option string;
}.
End ExecutionContext.
Abbreviation ExecutionContext := ExecutionContext.t.

(** ** Persisted items *)

(** JSON values, as [json.loads] returns them.  A [str] value is either a
    text that is not a JSON document ([JString]), on which [json.loads]
    raises, or the text [json.dumps] gives for a value ([JDocument]), which
    [json.loads] reads back; [json.dumps] of a [dict] keeps the order of
    the keys, hence the association list. *)
#[local] Unset Elimination Schemes.
Inductive json :=
| JNull
| JBool (b : bool)
| JNumber (n : Z)
| JString (s : string)
| JDocument (doc : json)
| JArray (items : list json)
| JObject (fields : list (string * json)).
#[local] Set Elimination Schemes.

(** A text column of the item store: a text that is not a JSON document,
    or the serialisation of a value. *)
Inductive Text :=
| NotJson (s : string)
| Json (doc : json).

(** The columns of a persisted [ConversationItem] other than its item id
    (section 3); the store keys the row by the item id. *)
Module Item.
Record t := {
  role : string;
  event : StreamResponseEvent;
  conversation_id : string;
  thread_id : option string;
  task_id : option string;
  payload : option Text;
  agent_name : option string;
  metadata : option Text;
}.
End Item.

(** The item store: the rows by item id and the item ids in the order of
    their first insertion. *)
Record ItemStore := {
  item_order : list string;
  item_rows : gmap string Item.t;
}.

(** Everything the coroutines read and write: the task registry of
    TaskService, the [remote_task_ids] list of every task object, the
    messages sent to remote agents, the per-task flag of
    [emit_subagent_end_once], the conversations of ConversationService,
    the orchestrator's [_execution_contexts], the pending user-input
    requests of PlanService, the item store, the event-loop clock and the
    id source. *)
Record World := {
  task_registry : gmap string TaskStatus;
  remote_task_ids : gmap string (list string);
  sent_messages : list (string * string);
  end_component_emitted : gset string;
  conversations : gmap string Conversation;
  _execution_contexts : gmap string ExecutionContext;
  pending_requests : gmap string string;
  item_store : ItemStore;
  loop_time : Q;
  uuid_counter : nat;
}.

Definition set_task_registry (f : gmap string TaskStatus → gmap string TaskStatus)
    (w : World) : World :=
  {| task_registry := f (task_registry w);
     remote_task_ids := remote_task_ids w;
     sent_messages := sent_messages w;
     end_component_emitted := end_component_emitted w;
     conversations := conversations w;
     _execution_contexts := _execution_contexts w;
     pending_requests := pending_requests w;
     item_store := item_store w;
     loop_time := loop_time w;
     uuid_counter := uuid_counter w |}.

Definition set_remote_task_ids
    (f : gmap string (list string) → gmap string (list string))
    (w : World) : World :=
  {| task_registry := task_registry w;
     remote_task_ids := f (remote_task_ids w);
     sent_messages := sent_messages w;
     end_component_emitted := end_component_emitted w;
     conversations := conversations w;
     _execution_contexts := _execution_contexts w;
     pending_requests := pending_requests w;
     item_store := item_store w;
     loop_time := loop_time w;
     uuid_counter := uuid_counter w |}.

Definition set_sent_messages
    (f : list (string * string) → list (string * string)) (w : World) : World :=
  {| task_registry := task_registry w;
     remote_task_ids := remote_task_ids w;
     sent_messages := f (sent_messages w);
     end_component_emitted := end_component_emitted w;
     conversations := conversations w;
     _execution_contexts := _execution_contexts w;
     pending_requests := pending_requests w;
     item_store := item_store w;
     loop_time := loop_time w;
     uuid_counter := uuid_counter w |}.

Definition set_end_component_emitted (f : gset string → gset string)
    (w : World) : World :=
  {| task_registry := task_registry w;
     remote_task_ids := remote_task_ids w;
     sent_messages := sent_messages w;
     end_component_emitted := f (end_component_emitted w);
     conversations := conversations w;
     _execution_contexts := _execution_contexts w;
     pending_requests := pending_requests w;
     item_store := item_store w;
     loop_time := loop_time w;
     uuid_counter := uuid_counter w |}.

Definition set_conversations
    (f : gmap string Conversation → gmap string Conversation) (w : World) : World :=
  {| task_registry := task_registry w;
     remote_task_ids := remote_task_ids w;
     sent_messages := sent_messages w;
     end_component_emitted := end_component_emitted w;
     conversations := f (conversations w);
     _execution_contexts := _execution_contexts w;
     pending_requests := pending_requests w;
     item_store := item_store w;
     loop_time := loop_time w;
     uuid_counter := uuid_counter w |}.

Definition set_execution_contexts
    (f : gmap string ExecutionContext → gmap string ExecutionContext)
    (w : World) : World :=
  {| task_registry := task_registry w;
     remote_task_ids := remote_task_ids w;
     sent_messages := sent_messages w;
     end_component_emitted := end_component_emitted w;
     conversations := conversations w;
     _execution_contexts := f (_execution_contexts w);
     pending_requests := pending_requests w;
     item_store := item_store w;
     loop_time := loop_time w;
     uuid_counter := uuid_counter w |}.

Definition set_pending_requests
    (f : gmap string string → gmap string string) (w : World) : World :=
  {| task_registry := task_registry w;
     remote_task_ids := remote_task_ids w;
     sent_messages := sent_messages w;
     end_component_emitted := end_component_emitted w;
     conversations := conversations w;
     _execution_contexts := _execution_contexts w;
     pending_requests := f (pending_requests w);
     item_store := item_store w;
     loop_time := loop_time w;
     uuid_counter := uuid_counter w |}.

Definition set_item_store (f : ItemStore → ItemStore) (w : World) : World :=
  {| task_registry := task_registry w;
     remote_task_ids := remote_task_ids w;
     sent_messages := sent_messages w;
     end_component_emitted := end_component_emitted w;
     conversations := conversations w;
     _execution_contexts := _execution_contexts w;
     pending_requests := pending_requests w;
     item_store := f (item_store w);
     loop_time := loop_time w;
     uuid_counter := uuid_counter w |}.

Definition set_uuid_counter (f : nat → nat) (w : World) : World :=
  {| task_registry := task_registry w;
     remote_task_ids := remote_task_ids w;
     sent_messages := sent_messages w;
     end_component_emitted := end_component_emitted w;
     conversations := conversations w;
     _execution_contexts := _execution_contexts w;
     pending_requests := pending_requests w;
     item_store := item_store w;
     loop_time := loop_time w;
     uuid_counter := f (uuid_counter w) |}.

(** ** Generators *)

(** How a coroutine ends: it returns a value or an [Exception] escapes
    from it, carrying [str(exc)]. *)
Inductive Result (A : Type) :=
| Returned (a : A)
| Raised (exc : string).
Arguments Returned {A} a.
Arguments Raised {A} exc.

Record Run (A : Type) := {
  world : World;
  yielded : list BaseResponse;
  result : Result A;
}.
Arguments world {A} r.
Arguments yielded {A} r.
Arguments result {A} r.

Definition Gen (A : Type) : Type := World → Run A.

#[global] Instance Gen_ret : MRet Gen := λ A a w,
  {| world := w; yielded := []; result := Returned a |}.

#[global] Instance Gen_bind : MBind Gen := λ A B k m w,
  let r := m w in
  match result r with
  | Returned a =>
      let r' := k a (world r) in
      {| world := world r'; yielded := yielded r ++ yielded r';
         result := result r' |}
  | Raised exc =>
      {| world := world r; yielded := yielded r; result := Raised exc |}
  end.

(** [yield resp]. *)
Definition yield (resp : BaseResponse) : Gen unit := λ w,
  {| world := w; yielded := [resp]; result := Returned tt |}.

(** [raise RuntimeError(msg)]. *)
Definition raise {A} (exc : string) : Gen A := λ w,
  {| world := w; yielded := []; result := Raised exc |}.

Definition get_world : Gen World := λ w,
  {| world := w; yielded := []; result := Returned w |}.

Definition modify (f : World → World) : Gen unit := λ w,
  {| world := f w; yielded := []; result := Returned tt |}.

(** [try: body / except Exception as exc: handler(exc)]. *)
Definition try_except {A} (body : Gen A) (handler : string → Gen A) : Gen A :=
  λ w,
  let r := body w in
  match result r with
  | Returned a => r
  | Raised exc =>
      let r' := handler exc (world r) in
      {| world := world r'; yielded := yielded r ++ yielded r';
         result := result r' |}
  end.

(** [try: body / finally: final]: [final] runs on both exits; an exception
    of [body] is raised again after it. *)
Definition try_finally {A} (body : Gen A) (final : Gen unit) : Gen A :=
  λ w,
  let r := body w in
  let r' := final (world r) in
  {| world := world r'; yielded := yielded r ++ yielded r';
     result :=
       match result r' with
       | Returned _ => result r
       | Raised exc => Raised exc
       end |}.

(** [for x in xs: body(x)]. *)
Fixpoint for_each {A} (xs : list A) (body : A → Gen unit) : Gen unit :=
  match xs with
  | [] => mret tt
  | x :: rest => body x ;; for_each rest body
  end.

(** Modelled from the spec: [generate_uuid(prefix)] of stockbuddy.utils.uuid
    and its siblings ([generate_task_id], [generate_item_id], ...).  The
    source draws a random UUID; the model numbers the ids it hands out,
    which keeps them distinct. *)
Definition generate_uuid (prefix : string) : Gen string := λ w,
  {| world := set_uuid_counter S w; yielded := [];
     result := Returned (prefix +:+ "-" +:+ pretty (uuid_counter w)) |}.

Definition generate_task_id : Gen string := generate_uuid "task".
Definition generate_item_id : Gen string := generate_uuid "item".
Definition generate_thread_id : Gen string := generate_uuid "thread".
Definition generate_conversation_id : Gen string := generate_uuid "conv".

(** Modelled from the spec: [TaskService] of stockbuddy.core.task.service
    (sections 4.6.2 and 5): the registry of task states and the
    transitions PENDING -> RUNNING -> COMPLETED, FAILED or CANCELLED; a
    finished task keeps its state. *)
Module TaskService.

Definition is_finished (s : TaskStatus) : bool :=
  match s with COMPLETED | FAILED | CANCELLED => true | _ => false end.

Definition transition (target : TaskStatus) (id : string)
    (reg : gmap string TaskStatus) : gmap string TaskStatus :=
  match reg !! id with
  | Some s => if is_finished s then reg else <[id := target]> reg
  | None => reg
  end.

Definition update_task (t : Task) : Gen unit :=
  modify (set_task_registry (λ reg,
    match reg !! task_id t with
    | Some _ => reg
    | None => <[task_id t := status t]> reg
    end)).

Definition start_task (id : string) : Gen unit :=
  modify (set_task_registry (transition RUNNING id)).

Definition complete_task (id : string) : Gen unit :=
  modify (set_task_registry (transition COMPLETED id)).

Definition fail_task (id reason : string) : Gen unit :=
  modify (set_task_registry (transition FAILED id)).

(** [cancel_task]: true when a task that was not finished was cancelled. *)
Definition cancel_task (id : string) : Gen bool := λ w,
  match task_registry w !! id with
  | Some s =>
      if is_finished s
      then {| world := w; yielded := []; result := Returned false |}
      else {| world := set_task_registry (<[id := CANCELLED]>) w;
              yielded := []; result := Returned true |}
  | None => {| world := w; yielded := []; result := Returned false |}
  end.

End TaskService.

(** Modelled from the spec: [ConversationService] of
    stockbuddy.core.conversation (section 3): conversations by id, with
    their status and title. *)
Module ConversationService.

(** [ensure_conversation]: the conversation and whether it was created. *)
Definition ensure_conversation (user_id conversation_id agent_name : string)
    (title : option string) : Gen (Conversation * bool) := λ w,
  match conversations w !! conversation_id with
  | Some c => {| world := w; yielded := []; result := Returned (c, false) |}
  | None =>
      let c := {| Conversation.user_id := user_id;
                  Conversation.agent_name := agent_name;
                  Conversation.title := title;
                  Conversation.status := ACTIVE |} in
      {| world := set_conversations (<[conversation_id := c]>) w;
         yielded := []; result := Returned (c, true) |}
  end.

Definition set_status (s : ConversationStatus) (c : Conversation) : Conversation :=
  {| Conversation.user_id := Conversation.user_id c;
     Conversation.agent_name := Conversation.agent_name c;
     Conversation.title := Conversation.title c;
     Conversation.status := s |}.

Definition set_title (title : string) (c : Conversation) : Conversation :=
  {| Conversation.user_id := Conversation.user_id c;
     Conversation.agent_name := Conversation.agent_name c;
     Conversation.title := Some title;
     Conversation.status := Conversation.status c |}.

Definition activate (conversation_id : string) : Gen unit :=
  modify (set_conversations (alter (set_status ACTIVE) conversation_id)).

Definition require_user_input (conversation_id : string) : Gen unit :=
  modify (set_conversations
            (alter (set_status REQUIRE_USER_INPUT) conversation_id)).

End ConversationService.

(** ** Remote agents and the event router *)

(** The states of a remote task (a2a [TaskState], section 6). *)
Inductive TaskState := submitted | working | failed | completed.

#[global] Instance TaskState_eq_dec : EqDecision TaskState.
Proof. solve_decision. Defined.

(** What a remote status update carries for the client (section 6). *)
Inductive StatusPart :=
| MessagePart (text : string)
| ReasoningPart (text : string)
| ToolCallStartedPart (text : string)
| ToolCallCompletedPart (text : string).

Record TaskStatusUpdateEvent := {
  update_state : TaskState;
  update_parts : list StatusPart;
  update_reason : option string;
}.

(** The second component of an item of the remote stream: [None], a
    [TaskStatusUpdateEvent] or a [TaskArtifactUpdateEvent]. *)
Inductive RemoteUpdate :=
| NoEvent
| StatusUpdate (ev : TaskStatusUpdateEvent)
| ArtifactUpdate.

(** The first component: the remote task, with its id and state. *)
Record RemoteTask := {
  remote_id : string;
  remote_state : TaskState;
}.

Inductive SideEffectKind := FAIL_TASK.

#[global] Instance SideEffectKind_eq_dec : EqDecision SideEffectKind.
Proof. solve_decision. Defined.

Record SideEffect := {
  kind : SideEffectKind;
  reason : option string;
}.

Record RouteResult := {
  responses : list BaseResponse;
  side_effects : list SideEffect;
  done : bool;
}.

(** Modelled from the spec: the router of stockbuddy.core.event.router
    behind [EventResponseService.route_task_status] (section 4.2): message,
    reasoning and tool-call parts are translated one to one and in order
    into responses of the task; a terminal status adds no response and
    ends the run; a failure asks for FAIL_TASK. *)
Module EventRouter.

Definition translate (task : Task) (thread : string) (p : StatusPart)
    : BaseResponse :=
  let mk ev text :=
    ResponseFactory.message_response_general ev (conversation_id task) thread
      (task_id task) text (agent_name task) in
  match p with
  | MessagePart text => mk MESSAGE_CHUNK text
  | ReasoningPart text => mk REASONING text
  | ToolCallStartedPart text => mk TOOL_CALL_STARTED text
  | ToolCallCompletedPart text => mk TOOL_CALL_COMPLETED text
  end.

Definition route_task_status (task : Task) (thread : string)
    (ev : TaskStatusUpdateEvent) : RouteResult :=
  {| responses := translate task thread <$> update_parts ev;
     side_effects :=
       if bool_decide (update_state ev = failed)
       then [ {| kind := FAIL_TASK; reason := update_reason ev |} ] else [];
     done := bool_decide (update_state ev = failed)
             || bool_decide (update_state ev = completed) |}.

End EventRouter.

(** One invocation of a remote agent, as the executor sees it: whether
    [get_client] finds a client, the items of the stream
    [send_message] returns, and the transport error that ends the stream,
    if any. *)
Record Invocation := {
  client_found : bool;
  remote_response : list (RemoteTask * RemoteUpdate);
  transport_error : option string;
}.

(** The invocations of one task: the first, and for a scheduled task the
    ones after each sleep, up to the round at which
    [calculate_next_execution_delay] gives no delay or the task is found
    finished. *)
Record Invocations := {
  first_run : Invocation;
  later_runs : list Invocation;
}.

(** What surrounds the executor: the remote agents, by task id, and the
    formatted UTC time. *)
Record Remote := {
  invocations : string → Invocations;
  utc_now : string;
}.

(** ** TaskExecutor (executor.py, lines 96-531) *)

Module TaskExecutor.

Section WithRemote.
Variable remote : Remote.

(** [_build_execution_batches], lines 201-227. *)

(** [{task.task_id: task for task in tasks}]: the last task of an id wins. *)
Definition tasks_by_id (tasks : list Task) : gmap string Task :=
  foldl (λ m t, <[task_id t := t]> m) ∅ tasks.

(** [all(dep_id in completed for dep_id in task.depends_on)]. *)
Definition deps_completed (completed : gset string) (t : Task) : bool :=
  forallb (λ dep_id, bool_decide (dep_id ∈ completed)) (depends_on t).

(** The list comprehension for [ready]; an id of [remaining] is always a
    key of [by_id]. *)
Definition ready_tasks (by_id : gmap string Task)
    (remaining completed : gset string) : list Task :=
  omap (λ id, t ← by_id !! id;
              if deps_completed completed t then Some t else None)
       (elements remaining).

Definition all_remaining (by_id : gmap string Task) (remaining : gset string)
    : list Task :=
  omap (λ id, by_id !! id) (elements remaining).

Definition ids_of (ts : list Task) : gset string :=
  list_to_set (task_id <$> ts).

(** The [while remaining:] loop; [fuel] bounds the number of rounds, and
    [None] is the loop still running when it is spent. *)
Fixpoint build_loop (fuel : nat) (by_id : gmap string Task)
    (remaining completed : gset string) : option (list (list Task)) :=
  if decide (remaining = ∅) then Some []
  else
    match fuel with
    | O => None
    | S fuel' =>
        let ready := ready_tasks by_id remaining completed in
        let ready :=
          match ready with
          | [] => all_remaining by_id remaining
          | _ => ready
          end in
        batches ← build_loop fuel' by_id
                     (remaining ∖ ids_of ready) (completed ∪ ids_of ready);
        Some (ready :: batches)
    end.

Definition _build_execution_batches (tasks : list Task)
    : option (list (list Task)) :=
  let remaining : gset string := list_to_set (task_id <$> tasks) in
  build_loop (size remaining) (tasks_by_id tasks) remaining ∅.

(** [_execute_single_task_run], lines 456-521. *)

Definition append_remote_task_id (task : Task) (rid : string) : Gen unit :=
  modify (set_remote_task_ids (λ m,
    <[task_id task := default [] (m !! task_id task) ++ [rid]]> m)).

Definition apply_side_effects (task : Task) (effects : list SideEffect)
    : Gen unit :=
  for_each effects (λ side_effect,
    if bool_decide (kind side_effect = FAIL_TASK)
    then TaskService.fail_task (task_id task) (default "" (reason side_effect))
    else mret tt).

(** The [async for remote_task, event in remote_response] loop.  It
    returns the accumulator when the stream is exhausted and [None] when
    the function returned from inside the loop. *)
Fixpoint remote_loop (task : Task) (thread : string)
    (accumulator : ScheduledTaskResultAccumulator.t)
    (items : list (RemoteTask * RemoteUpdate))
    : Gen (option ScheduledTaskResultAccumulator.t) :=
  match items with
  | [] => mret (Some accumulator)
  | (remote_task, event) :: rest =>
      match event with
      | NoEvent =>
          if bool_decide (remote_state remote_task = submitted) then
            append_remote_task_id task (remote_id remote_task) ;;
            yield (ResponseFactory.task_started (conversation_id task) thread
                     (task_id task) (agent_name task)
                     (if PyStr.truthy (title task) then title task
                      else query task)) ;;
            remote_loop task thread accumulator rest
          else remote_loop task thread accumulator rest
      | StatusUpdate ev =>
          let route_result := EventRouter.route_task_status task thread ev in
          let '(accumulator', out) :=
            ScheduledTaskResultAccumulator.consume accumulator
              (responses route_result) in
          for_each out yield ;;
          apply_side_effects task (side_effects route_result) ;;
          if done route_result then mret None
          else remote_loop task thread accumulator' rest
      | ArtifactUpdate => remote_loop task thread accumulator rest
      end
  end.

Definition _execute_single_task_run (task : Task) (thread : string)
    (inv : Invocation) : Gen unit :=
  if negb (client_found inv)
  then raise ("Could not connect to agent " +:+ agent_name task)
  else
    modify (set_sent_messages (λ l, l ++ [(agent_name task, query task)])) ;;
    final ← remote_loop task thread
               (ScheduledTaskResultAccumulator.__init__ task)
               (remote_response inv);
    match final with
    | None => mret tt
    | Some accumulator =>
        match transport_error inv with
        | Some exc => raise exc
        | None =>
            match ScheduledTaskResultAccumulator.finalize accumulator
                    (utc_now remote) with
            | Some final_component => yield final_component
            | None => mret tt
            end
        end
    end.

(** [_execute_task], lines 366-454. *)

Definition run_loop (task : Task) (thread : string) : Gen unit :=
  let runs := invocations remote (task_id task) in
  _execute_single_task_run task thread (first_run runs) ;;
  if negb (is_scheduled task) then mret tt
  else for_each (later_runs runs) (_execute_single_task_run task thread).

Definition _execute_task (task : Task) (thread : string)
    (on_before_done : option (Gen (option BaseResponse))) : Gen unit :=
  TaskService.start_task (task_id task) ;;
  (if is_scheduled task then
     yield (ResponseFactory.schedule_task_controller_component
              (conversation_id task) thread task) ;;
     match on_before_done with
     | Some callback =>
         maybe_resp ← callback;
         match maybe_resp with
         | Some resp => yield resp
         | None => mret tt
         end
     | None => mret tt
     end ;;
     yield (ResponseFactory.done (conversation_id task) (Some thread))
   else mret tt) ;;
  try_finally
    (try_except
       (run_loop task thread ;;
        TaskService.complete_task (task_id task) ;;
        yield (ResponseFactory.task_completed (conversation_id task) thread
                 (task_id task) (agent_name task)))
       (λ exc, TaskService.fail_task (task_id task) exc ;; raise exc))
    (mret tt (* flush_task_response *)).

(** [_emit_subagent_conversation_component], lines 339-364. *)
Definition _emit_subagent_conversation_component
    (super_agent_conversation_id thread : string) (subagent_task : Task)
    (component_id : string) (phase : SubagentConversationPhase)
    : Gen BaseResponse :=
  mret (ResponseFactory.component_generator super_agent_conversation_id thread
          (task_id subagent_task)
          (SubagentConversationContent (conversation_id subagent_task)
             (agent_name subagent_task) phase)
          SUBAGENT_CONVERSATION component_id (agent_name subagent_task)).

(** [_execute_single_task_in_plan], lines 256-337.  The closure's flag
    [end_component_emitted] lives in the world, under the task id. *)

Definition emit_subagent_end_once (task : Task) (plan : ExecutionPlan)
    (thread subagent_component_id : string) : Gen (option BaseResponse) :=
  if negb (handoff_from_super_agent task) then mret None
  else
    w ← get_world;
    if bool_decide (task_id task ∈ end_component_emitted w) then mret None
    else
      modify (set_end_component_emitted (λ s, {[task_id task]} ∪ s)) ;;
      resp ← _emit_subagent_conversation_component
                (Plan.conversation_id plan) thread task
                subagent_component_id END;
      mret (Some resp).

Definition _execute_single_task_in_plan (task : Task) (plan : ExecutionPlan)
    (thread : string) : Gen unit :=
  subagent_component_id ← generate_item_id;
  modify (set_end_component_emitted (λ s, s ∖ {[task_id task]})) ;;
  (if handoff_from_super_agent task then
     ConversationService.ensure_conversation (Plan.user_id plan)
       (conversation_id task) (agent_name task) (Some (title task)) ;;
     start ← _emit_subagent_conversation_component
                (Plan.conversation_id plan) thread task
                subagent_component_id START;
     yield start ;;
     yield (ResponseFactory.thread_started (conversation_id task) thread
              (query task))
   else mret tt) ;;
  try_finally
    (try_except
       (TaskService.update_task task ;;
        _execute_task task thread
          (if handoff_from_super_agent task
           then Some (emit_subagent_end_once task plan thread
                        subagent_component_id)
           else None))
       (λ exc,
          let error_msg :=
            "(Error) Error executing " +:+ task_id task +:+ ": " +:+ exc in
          yield (ResponseFactory.task_failed (Plan.conversation_id plan) thread
                   (task_id task) error_msg (agent_name task))))
    (if handoff_from_super_agent task then
       end_resp ← emit_subagent_end_once task plan thread
                     subagent_component_id;
       match end_resp with
       | Some resp => yield resp
       | None => mret tt
       end
     else mret tt).

(** [_merge_task_responses], lines 229-254: every generator is run to its
    end, an exception that escapes one is logged and dropped, and the
    responses come out generator by generator, in the order of [tasks].
    The source runs the generators concurrently ([asyncio.gather]) and
    keeps the responses of each in a list of its own; the model runs them
    one after the other, which yields the same responses in the same
    order. *)
Definition _merge_task_responses (task_generators : list (Gen unit))
    : Gen unit :=
  for_each task_generators (λ gen, try_except gen (λ _, mret tt)).

(** [_execute_plan_with_dependencies], lines 148-199. *)

Definition mark_completed (plan : ExecutionPlan) (thread : string)
    (task : Task) : Gen unit :=
  yield (ResponseFactory.task_completed (Plan.conversation_id plan) thread
           (task_id task) (agent_name task)).

Fixpoint batches_loop (plan : ExecutionPlan) (thread : string)
    (batches : list (list Task)) (completed in_progress : gset string)
    : Gen unit :=
  match batches with
  | [] => mret tt
  | batch :: rest =>
      let tasks_to_execute := filter (λ t, deps_completed completed t) batch in
      match tasks_to_execute with
      | [] => batches_loop plan thread rest completed in_progress
      | _ =>
          let task_generators :=
            (λ task, _execute_single_task_in_plan task plan thread)
              <$> tasks_to_execute in
          let in_progress := in_progress ∪ ids_of tasks_to_execute in
          _merge_task_responses task_generators ;;
          for_each tasks_to_execute (mark_completed plan thread) ;;
          batches_loop plan thread rest
            (completed ∪ ids_of tasks_to_execute)
            (in_progress ∖ ids_of tasks_to_execute)
      end
  end.

Definition _execute_plan_with_dependencies (plan : ExecutionPlan)
    (thread : string) : Gen unit :=
  batches_loop plan thread
    (default [] (_build_execution_batches (Plan.tasks plan))) ∅ ∅.

(** [execute_plan], lines 113-146. *)
Definition execute_plan (plan : ExecutionPlan) (thread : string) : Gen unit :=
  if PyStr.truthy_opt (Plan.guidance_message plan) then
    task ← generate_task_id;
    yield (ResponseFactory.message_response_general MESSAGE_CHUNK
             (Plan.conversation_id plan) thread task
             (default "" (Plan.guidance_message plan)) "Planner")
  else
    let has_dependencies :=
      existsb (λ task, negb (bool_decide (depends_on task = [])))
        (Plan.tasks plan) in
    if negb has_dependencies then
      for_each (Plan.tasks plan)
        (λ task, _execute_single_task_in_plan task plan thread)
    else _execute_plan_with_dependencies plan thread.

(** The claim's reading of the batch builder, by topological peeling.
    A task is ready when it is the task of its id, its id is still
    remaining, and its dependencies are all among the placed ids. *)
Definition is_ready (by_id : gmap string Task)
    (remaining placed : gset string) (t : Task) : Prop :=
  by_id !! task_id t = Some t
  ∧ task_id t ∈ remaining
  ∧ ∀ dep_id, dep_id ∈ depends_on t → dep_id ∈ placed.

(** [peeling by_id remaining placed batches]: starting with the ids
    [remaining] and the ids [placed] in earlier batches, [batches] are
    the batches of the peeling: each batch is the set of the ready tasks,
    and when tasks remain and none is ready the remaining tasks form one
    final batch. *)
Inductive peeling (by_id : gmap string Task)
    : gset string → gset string → list (list Task) → Prop :=
| peeling_done placed :
    peeling by_id ∅ placed []
| peeling_ready remaining placed batch batches :
    remaining ≠ ∅ →
    (∃ t, is_ready by_id remaining placed t) →
    (∀ t, t ∈ batch ↔ is_ready by_id remaining placed t) →
    NoDup batch →
    peeling by_id (remaining ∖ ids_of batch) (placed ∪ ids_of batch) batches →
    peeling by_id remaining placed (batch :: batches)
| peeling_cycle remaining placed batch :
    remaining ≠ ∅ →
    (∀ t, ¬ is_ready by_id remaining placed t) →
    (∀ t, t ∈ batch ↔ by_id !! task_id t = Some t ∧ task_id t ∈ remaining) →
    NoDup batch →
    peeling by_id remaining placed [batch].

End WithRemote.

End TaskExecutor.

(** ** ExecutionPlanner, the branch without the LLM (planner.py) *)

Module ExecutionPlanner.

(** [_TaskBrief], as [_create_tasks_from_recommendations] fills it. *)
Module _TaskBrief.
Record t := {
  task_id : string;
  agent_name : string;
  title : string;
  query : string;
  pattern : TaskPattern;
  schedule_config : option ScheduleConfig;
  depends_on : list string;
}.
End _TaskBrief.

(** [_create_task], lines 502-551. *)
Definition _create_task (task_brief : _TaskBrief.t) (user_id : string)
    (conversation_id : string) (thread_id : string)
    (handoff_from_super_agent : bool) : Gen Task :=
  '(super_agent_conversation_id, conversation_id) ←
    (if handoff_from_super_agent then
       new_id ← generate_conversation_id;
       mret (Some conversation_id, new_id)
     else mret (None, conversation_id));
  mret {| task_id := _TaskBrief.task_id task_brief;
          conversation_id := conversation_id;
          thread_id := thread_id;
          user_id := user_id;
          agent_name := _TaskBrief.agent_name task_brief;
          status := PENDING;
          title := _TaskBrief.title task_brief;
          query := _TaskBrief.query task_brief;
          pattern := _TaskBrief.pattern task_brief;
          schedule_config := _TaskBrief.schedule_config task_brief;
          handoff_from_super_agent := handoff_from_super_agent;
          super_agent_conversation_id := super_agent_conversation_id;
          depends_on := _TaskBrief.depends_on task_brief |}.

(** [task_descriptions.get(agent_name, query)], lines 341-345; the
    literals are those of the source file. *)
Definition task_descriptions (query agent_name : string) : string :=
  if bool_decide (agent_name = "ResearchAgent") then
    "ç ”ç©¶å’Œåˆ†æžç›¸å…³æ•°æ®ï¼š" +:+ query
  else if bool_decide (agent_name = "NewsAgent") then
    "æœç´¢æœ€æ–°æ–°é—»å’ŒåŠ¨æ€ï¼š" +:+ query
  else if bool_decide (agent_name = "StrategyAgent") then
    "åŸºäºŽç ”ç©¶å’Œæ–°é—»æä¾›æŠ•èµ„å»ºè®®ï¼š" +:+ query
  else query.

(** The body shared by the three [for agent_name in ...] loops of
    [_create_tasks_from_recommendations]. *)
Definition task_for (user_input : UserInput) (conversation_id thread_id : string)
    (dependencies : list string) (agent_name : string) : Gen Task :=
  let query := UserInput.query user_input in
  id ← generate_uuid "task";
  _create_task
    {| _TaskBrief.task_id := id;
       _TaskBrief.agent_name := agent_name;
       _TaskBrief.title := task_descriptions query agent_name;
       _TaskBrief.query := query;
       _TaskBrief.pattern := ONCE;
       _TaskBrief.schedule_config := None;
       _TaskBrief.depends_on := dependencies |}
    (UserInput.user_id user_input) conversation_id thread_id true.

(** [tasks.append(task)] for every agent of the list, in order. *)
Fixpoint append_tasks (make : string → Gen Task) (agents : list string)
    (tasks : list Task) : Gen (list Task) :=
  match agents with
  | [] => mret tasks
  | agent_name :: rest =>
      task ← make agent_name;
      append_tasks make rest (tasks ++ [task])
  end.

(** [_create_tasks_from_recommendations], lines 316-418. *)
Definition _create_tasks_from_recommendations (user_input : UserInput)
    (recommended_agents : list string) (conversation_id thread_id : string)
    : Gen (list Task) :=
  let independent_agents :=
    filter (λ a, a ∈ ["ResearchAgent"; "NewsAgent"]) recommended_agents in
  let dependent_agents :=
    filter (λ a, a = "StrategyAgent") recommended_agents in
  tasks ← append_tasks (task_for user_input conversation_id thread_id [])
             independent_agents [];
  if negb (bool_decide (dependent_agents = []))
     && negb (bool_decide (tasks = [])) then
    let dependency_task_ids := task_id <$> tasks in
    append_tasks
      (task_for user_input conversation_id thread_id dependency_task_ids)
      dependent_agents tasks
  else if negb (bool_decide (dependent_agents = []))
          && bool_decide (tasks = []) then
    append_tasks (task_for user_input conversation_id thread_id [])
      dependent_agents tasks
  else mret tasks.

(** [_analyze_input_and_create_tasks], lines 162-314.  With two
    recommended agents or more the tasks are built directly (lines
    189-200); the rest of the function runs the planning LLM, and [llm]
    stands for it. *)
Definition _analyze_input_and_create_tasks
    (llm : Gen (list Task * option string))
    (user_input : UserInput) (conversation_id thread_id : string)
    (recommended_agents : option (list string))
    : Gen (list Task * option string) :=
  match recommended_agents with
  | Some agents =>
      if (1 <? length agents)%nat then
        tasks ← _create_tasks_from_recommendations user_input agents
                   conversation_id thread_id;
        mret (tasks, None)
      else llm
  | None => llm
  end.

(** [create_plan], lines 114-160. *)
Definition create_plan (llm : Gen (list Task * option string))
    (user_input : UserInput) (thread_id : string)
    (recommended_agents : option (list string)) : Gen ExecutionPlan :=
  let conversation_id := UserInput.conversation_id user_input in
  plan_id ← generate_uuid "plan";
  '(tasks, guidance_message) ←
    _analyze_input_and_create_tasks llm user_input conversation_id thread_id
      recommended_agents;
  mret {| Plan.plan_id := plan_id;
          Plan.conversation_id := conversation_id;
          Plan.user_id := UserInput.user_id user_input;
          Plan.orig_query := UserInput.query user_input;
          Plan.tasks := tasks;
          Plan.guidance_message := guidance_message |}.

End ExecutionPlanner.

(** ** The triage and planning services seen by the orchestrator *)

Inductive SuperAgentDecision := ANSWER | HANDOFF_TO_PLANNER.

#[global] Instance SuperAgentDecision_eq_dec : EqDecision SuperAgentDecision.
Proof. solve_decision. Defined.

(** [SuperAgentOutcome] (super_agent/core.py, lines 30-43). *)
Record SuperAgentOutcome := {
  decision : SuperAgentDecision;
  answer_content : option string;
  enriched_query : option string;
  recommended_agents : option (list string);
  outcome_reason : option string;
}.

(** What the planning LLM does when the planner reaches it: it asks the
    user for input, it ends in tasks and a guidance message (lines 202-314
    of planner.py), or the run raises. *)
Inductive LlmRun :=
| LlmAsks (prompt : string)
| LlmReturns (tasks : list Task) (guidance_message : option string)
| LlmRaises (exc : string).

(** The background planning task: still waiting for the user, or done
    with the plan or the exception [await planning_task] gives. *)
Inductive PlanningTask :=
| Waiting (plan_id : string)
| Finished (outcome : Result ExecutionPlan).

(** What surrounds one session: the remote agents, the outcome of the
    triage call (or the exception it raises), the planning LLM on the
    first run and after the user's reply, and the exception
    [ensure_conversation] raises, if any. *)
Record Session := {
  remote : Remote;
  triage : Result SuperAgentOutcome;
  llm : LlmRun;
  llm_resumed : LlmRun;
  ensure_conversation_error : option string;
}.

(** Modelled from the spec: [PlanService] of stockbuddy.core.plan.service
    (sections 4.5 and 4.7): it runs [create_plan] in the background and
    keeps the pending user-input request of each conversation. *)
Module PlanService.

Definition has_pending_request (conversation_id : string) : Gen bool :=
  w ← get_world; mret (bool_decide (is_Some (pending_requests w !! conversation_id))).

Definition get_request_prompt (conversation_id : string) : Gen (option string) :=
  w ← get_world; mret (pending_requests w !! conversation_id).

Definition register_user_input (conversation_id prompt : string) : Gen unit :=
  modify (set_pending_requests (<[conversation_id := prompt]>)).

Definition clear_pending_request (conversation_id : string) : Gen unit :=
  modify (set_pending_requests (delete conversation_id)).

(** [provide_user_response]: true when a request was pending. *)
Definition provide_user_response (conversation_id response : string) : Gen bool :=
  pending ← has_pending_request conversation_id;
  clear_pending_request conversation_id ;;
  mret pending.

(** Whether [create_plan] reaches the planning LLM (planner.py, line 191). *)
Definition reaches_llm (recommended : option (list string)) : bool :=
  match recommended with
  | Some agents => negb (1 <? length agents)%nat
  | None => true
  end.

Definition finish (run : Gen ExecutionPlan) : Gen PlanningTask :=
  try_except (plan ← run; mret (Finished (Returned plan)))
             (λ exc, mret (Finished (Raised exc))).

Definition start_planning_task (run : LlmRun) (user_input : UserInput)
    (thread_id : string) (recommended : option (list string))
    : Gen PlanningTask :=
  match run with
  | LlmAsks prompt =>
      if reaches_llm recommended then
        plan_id ← generate_uuid "plan";
        register_user_input (UserInput.conversation_id user_input) prompt ;;
        mret (Waiting plan_id)
      else
        finish (ExecutionPlanner.create_plan (raise "LLM not reached")
                  user_input thread_id recommended)
  | LlmReturns tasks guidance_message =>
      finish (ExecutionPlanner.create_plan (mret (tasks, guidance_message))
                user_input thread_id recommended)
  | LlmRaises exc =>
      finish (ExecutionPlanner.create_plan (raise exc)
                user_input thread_id recommended)
  end.

(** The waiting planner after the user's reply. *)
Definition resume_planning_task (run : LlmRun) (plan_id : string)
    (user_input : UserInput) : Gen PlanningTask :=
  match run with
  | LlmAsks prompt =>
      register_user_input (UserInput.conversation_id user_input) prompt ;;
      mret (Waiting plan_id)
  | LlmReturns tasks guidance_message =>
      mret (Finished (Returned
        {| Plan.plan_id := plan_id;
           Plan.conversation_id := UserInput.conversation_id user_input;
           Plan.user_id := UserInput.user_id user_input;
           Plan.orig_query := UserInput.query user_input;
           Plan.tasks := tasks;
           Plan.guidance_message := guidance_message |}))
  | LlmRaises exc => mret (Finished (Raised exc))
  end.

End PlanService.

(** ** ExecutionContext and AgentOrchestrator (orchestrator.py) *)

Definition DEFAULT_CONTEXT_TIMEOUT_SECONDS : Z := 3600.

(** [ExecutionContext.is_expired], lines 44-49; [current_time] is
    [asyncio.get_event_loop().time()]. *)
Definition is_expired (self : ExecutionContext) (current_time : Q)
    (max_age_seconds : Z) : bool :=
  negb (Qle_bool (current_time - ExecutionContext.created_at self)
                 (inject_Z max_age_seconds)).

(** [ExecutionContext.validate_user], lines 51-53. *)
Definition validate_user (self : ExecutionContext) (user_id : string) : bool :=
  bool_decide (ExecutionContext.user_id self = user_id).

Module AgentOrchestrator.

(** [SuperAgent.name] (super_agent/core.py, line 52), which
    [self.super_agent_service.name] returns. *)
Definition super_agent_service_name : string := "SuperAgent".

(** [_should_fast_track_to_planner], lines 445-485. *)

Definition complex_keywords : list string :=
  [ "analyze"; "analysis"; "compare"; "vs"; "versus"; "recommend";
    "should i"; "worth"; "better"; "invest"; "investment";
    "ipo"; "valuation"; "trend"; "outlook"; "performance" ].

Definition chinese_keywords : list string :=
  [ "分析"; "对比"; "比较"; "推荐"; "建议"; "值得"; "投资";
    "估值"; "趋势"; "前景"; "表现"; "如何"; "怎么样" ].

(** [sum(1 for kw in keywords if kw in text)]. *)
Definition count_matches (keywords : list string) (text : string) : nat :=
  length (filter (λ kw, PyStr.contains kw text = true) keywords).

(** [any(kw in text for kw in keywords)]. *)
Definition any_in (keywords : list string) (text : string) : bool :=
  existsb (λ kw, PyStr.contains kw text) keywords.

Definition _should_fast_track_to_planner (user_input : UserInput) : bool :=
  if bool_decide (UserInput.target_agent_name user_input
                  = super_agent_service_name)
  then false
  else
    let query_lower := PyStr.lower (UserInput.query user_input) in
    let english_matches := count_matches complex_keywords query_lower in
    let chinese_matches :=
      count_matches chinese_keywords (UserInput.query user_input) in
    (2 <=? english_matches)%nat
    || (2 <=? chinese_matches)%nat
    || any_in ["vs"; "versus"; " vs. "] query_lower
    || any_in ["对比"; "vs"] (UserInput.query user_input).

(** The guard of the triage phase, line 299. *)
Definition runs_super_agent (user_input : UserInput) : bool :=
  negb (_should_fast_track_to_planner user_input)
  && bool_decide (UserInput.target_agent_name user_input
                  = super_agent_service_name).

(** [_validate_execution_context], lines 573-590. *)
Definition _validate_execution_context (context : ExecutionContext)
    (user_id : string) (current_time : Q) : bool :=
  if negb (PyStr.truthy (ExecutionContext.stage context)) then false
  else if negb (validate_user context user_id) then false
  else if is_expired context current_time DEFAULT_CONTEXT_TIMEOUT_SECONDS
  then false
  else true.

Section WithSession.
Variable session : Session.

(** [_maybe_set_conversation_title], lines 642-667. *)
Definition _maybe_set_conversation_title (conversation_id : string)
    (title : option string) : Gen unit :=
  match title with
  | Some title =>
      if negb (PyStr.truthy title) || negb (PyStr.truthy (PyStr.strip title))
      then mret tt
      else
        modify (set_conversations (λ m,
          match m !! conversation_id with
          | Some conversation =>
              if PyStr.truthy_opt (Conversation.title conversation) then m
              else <[conversation_id :=
                       ConversationService.set_title (PyStr.strip title)
                         conversation]> m
          | None => m
          end))
  | None => mret tt
  end.

(** [_cancel_execution], lines 669-684. *)
Definition _cancel_execution (conversation_id : string) : Gen unit :=
  modify (set_execution_contexts (delete conversation_id)) ;;
  PlanService.clear_pending_request conversation_id ;;
  ConversationService.activate conversation_id.

(** The end of [_monitor_planning_task] and of [_continue_planning]: the
    title, the plan component (only in the former, and for more than one
    task) and the execution of the plan. *)
Definition title_and_execute (plan : ExecutionPlan) (conversation_id
    thread_id : string) (show_plan : bool) : Gen unit :=
  match Plan.tasks plan with
  | first :: _ =>
      _maybe_set_conversation_title conversation_id (Some (title first)) ;;
      if show_plan && (1 <? length (Plan.tasks plan))%nat then
        task ← generate_task_id;
        yield (ResponseFactory.component_generator conversation_id thread_id
                 task (ExecutionPlanContent (Plan.tasks plan)) EXECUTION_PLAN
                 ("plan-" +:+ thread_id) "Planner")
      else mret tt
  | [] => mret tt
  end ;;
  TaskExecutor.execute_plan (remote session) plan thread_id.

(** [_monitor_planning_task], lines 502-571.  A waiting planner has
    registered its request, so the loop leaves through the pause. *)
Definition _monitor_planning_task (planning_task : PlanningTask)
    (thread_id : string) (user_input : UserInput) : Gen unit :=
  let conversation_id := UserInput.conversation_id user_input in
  let user_id := UserInput.user_id user_input in
  match planning_task with
  | Waiting plan_id =>
      w ← get_world;
      let context :=
        {| ExecutionContext.stage := "planning";
           ExecutionContext.conversation_id := conversation_id;
           ExecutionContext.thread_id := thread_id;
           ExecutionContext.user_id := user_id;
           ExecutionContext.created_at := loop_time w;
           ExecutionContext.original_user_input := Some user_input;
           ExecutionContext.planning_task := Some plan_id;
           ExecutionContext.pending_response := None |} in
      modify (set_execution_contexts (<[conversation_id := context]>)) ;;
      ConversationService.require_user_input conversation_id ;;
      prompt ← PlanService.get_request_prompt conversation_id;
      yield (ResponseFactory.plan_require_user_input conversation_id thread_id
               (default "" prompt))
  | Finished (Raised exc) => raise exc
  | Finished (Returned plan) =>
      title_and_execute plan conversation_id thread_id true
  end.

(** [_handle_new_request], lines 276-352.  An [enriched_query] of [None]
    is passed on as the empty string. *)
Definition _handle_new_request (user_input : UserInput) : Gen unit :=
  let conversation_id := UserInput.conversation_id user_input in
  thread_id ← generate_thread_id;
  yield (ResponseFactory.thread_started conversation_id thread_id
           (UserInput.query user_input)) ;;
  let plan_with (user_input : UserInput) (recommended : option (list string)) :=
    planning_task ← PlanService.start_planning_task (llm session) user_input
                       thread_id recommended;
    _monitor_planning_task planning_task thread_id user_input in
  if runs_super_agent user_input then
    match triage session with
    | Raised exc => raise exc
    | Returned super_outcome =>
        (if PyStr.truthy_opt (answer_content super_outcome) then
           task ← generate_task_id;
           yield (ResponseFactory.message_response_general MESSAGE_CHUNK
                    conversation_id thread_id task
                    (default "" (answer_content super_outcome))
                    super_agent_service_name)
         else mret tt) ;;
        match decision super_outcome with
        | ANSWER => mret tt
        | HANDOFF_TO_PLANNER =>
            plan_with
              {| UserInput.query := default "" (enriched_query super_outcome);
                 UserInput.target_agent_name := "";
                 UserInput.user_id := UserInput.user_id user_input;
                 UserInput.conversation_id := conversation_id |}
              (recommended_agents super_outcome)
        end
    end
  else plan_with user_input None.

(** [_continue_planning], lines 592-640. *)
Definition _continue_planning (conversation_id thread_id : string)
    (context : ExecutionContext) : Gen unit :=
  match ExecutionContext.planning_task context,
        ExecutionContext.original_user_input context with
  | Some plan_id, Some original_user_input =>
      planning_task ← PlanService.resume_planning_task (llm_resumed session)
                         plan_id original_user_input;
      match planning_task with
      | Waiting _ =>
          prompt ← PlanService.get_request_prompt conversation_id;
          ConversationService.require_user_input conversation_id ;;
          yield (ResponseFactory.plan_require_user_input conversation_id
                   thread_id (default "" prompt))
      | Finished (Raised exc) => raise exc
      | Finished (Returned plan) =>
          modify (set_execution_contexts (delete conversation_id)) ;;
          title_and_execute plan conversation_id thread_id false
      end
  | _, _ =>
      yield (ResponseFactory.plan_failed conversation_id thread_id
               "Invalid planning context - missing required data") ;;
      _cancel_execution conversation_id
  end.

(** [_handle_conversation_continuation], lines 211-274. *)
Definition _handle_conversation_continuation (user_input : UserInput)
    : Gen unit :=
  let conversation_id := UserInput.conversation_id user_input in
  let user_id := UserInput.user_id user_input in
  w ← get_world;
  match _execution_contexts w !! conversation_id with
  | None =>
      yield (ResponseFactory.system_failed conversation_id
               "No execution context found for this conversation. The conversation may have expired.")
  | Some context =>
      if negb (_validate_execution_context context user_id (loop_time w)) then
        yield (ResponseFactory.system_failed conversation_id
                 "Invalid execution context or user mismatch.") ;;
        _cancel_execution conversation_id
      else
        thread_id ← generate_thread_id;
        yield (ResponseFactory.thread_started conversation_id thread_id
                 (UserInput.query user_input)) ;;
        provided ← PlanService.provide_user_response conversation_id
                      (UserInput.query user_input);
        (if provided : bool then ConversationService.activate conversation_id
         else mret tt) ;;
        let context :=
          {| ExecutionContext.stage := ExecutionContext.stage context;
             ExecutionContext.conversation_id :=
               ExecutionContext.conversation_id context;
             ExecutionContext.thread_id := thread_id;
             ExecutionContext.user_id := ExecutionContext.user_id context;
             ExecutionContext.created_at := ExecutionContext.created_at context;
             ExecutionContext.original_user_input :=
               ExecutionContext.original_user_input context;
             ExecutionContext.planning_task :=
               ExecutionContext.planning_task context;
             ExecutionContext.pending_response :=
               Some (UserInput.query user_input) |} in
        modify (set_execution_contexts (<[conversation_id := context]>)) ;;
        if bool_decide (ExecutionContext.stage context = "planning") then
          _continue_planning conversation_id thread_id context
        else
          yield (ResponseFactory.system_failed conversation_id
                   "Resuming execution stage is not yet supported.")
  end.

(** The [try] block of [_generate_responses], lines 179-198. *)
Definition session_pipeline (user_input : UserInput) : Gen unit :=
  let conversation_id := UserInput.conversation_id user_input in
  match ensure_conversation_error session with
  | Some exc => raise exc
  | None =>
      '(conversation, created) ←
        ConversationService.ensure_conversation
          (UserInput.user_id user_input) conversation_id
          (UserInput.target_agent_name user_input) None;
      (if created : bool then
         yield (ResponseFactory.conversation_started conversation_id)
       else mret tt) ;;
      if bool_decide (Conversation.status conversation = REQUIRE_USER_INPUT)
      then _handle_conversation_continuation user_input
      else _handle_new_request user_input
  end.

(** [_generate_responses], lines 168-209. *)
Definition _generate_responses (user_input : UserInput) : Gen unit :=
  let conversation_id := UserInput.conversation_id user_input in
  try_finally
    (try_except
       (session_pipeline user_input)
       (λ e, yield (ResponseFactory.system_failed conversation_id
                      ("(Error) Error processing request: " +:+ e))))
    (yield (ResponseFactory.done conversation_id None)).

End WithSession.

End AgentOrchestrator.

(** ** ExecutionPlanner: the fallback to three agents (planner.py, lines
    298-311 and 420-500) *)

Module PlannerFallback.

(** [_should_suggest_multi_agent_fallback], lines 420-441; the literals
    are those of the source file. *)
Definition investment_keywords : list string :=
  [ "ipo"; "product"; "invest"; "buy"; "valuation"; "trend"; "should i";
    "worth"; "recommendation"; "compare"; "vs"; "versus"; "analysis" ].

Definition chinese_keywords : list string :=
  [ "æŠ•èµ„"; "å€¼å¾—"; "ä¹°"; "ä¼°å€¼"; "äº§å“"; "è¶‹åŠ¿"; "åˆ†æž"; "å¯¹æ¯”" ].

Definition _should_suggest_multi_agent_fallback (user_input : UserInput)
    (tasks : list Task) : bool :=
  if PyStr.truthy (UserInput.target_agent_name user_input) then false
  else if negb (length tasks =? 1)%nat then false
  else
    let query_lower := PyStr.lower (UserInput.query user_input) in
    AgentOrchestrator.any_in investment_keywords query_lower
    || AgentOrchestrator.any_in chinese_keywords (UserInput.query user_input).

(** [_create_multi_agent_fallback_plan], lines 443-500.  The three tasks
    differ in their id, agent, title, query and dependencies; the call
    passes no [super_agent_conversation_id], which keeps its default. *)
Definition fallback_task (original_task : Task) (thread : string)
    (id agent task_title task_query : string) (dependencies : list string)
    : Task :=
  {| task_id := id;
     conversation_id := conversation_id original_task;
     thread_id := thread;
     user_id := user_id original_task;
     agent_name := agent;
     status := PENDING;
     title := task_title;
     query := task_query;
     pattern := pattern original_task;
     schedule_config := None;
     handoff_from_super_agent := handoff_from_super_agent original_task;
     super_agent_conversation_id := None;
     depends_on := dependencies |}.

Definition _create_multi_agent_fallback_plan (user_input : UserInput)
    (original_task : Task) (thread : string) : list Task :=
  let base_query := PyStr.strip (UserInput.query user_input) in
  let task1 :=
    fallback_task original_task thread "fallback_task_1" "ResearchAgent"
      "Fundamental Research"
      ("Research fundamental data, financial metrics, and market context: "
       +:+ base_query) [] in
  let task2 :=
    fallback_task original_task thread "fallback_task_2" "NewsAgent"
      "Latest News & Products"
      ("Collect latest news, product updates, and market sentiment: "
       +:+ base_query) [] in
  let task3 :=
    fallback_task original_task thread "fallback_task_3" "StrategyAgent"
      "Investment Recommendation"
      ("Based on research and news, provide investment recommendation with clear rationale: "
       +:+ base_query) ["fallback_task_1"; "fallback_task_2"] in
  [task1; task2; task3].

(** The post-processing of the planner's tasks, lines 298-311. *)
Definition with_fallback (user_input : UserInput) (thread : string)
    (tasks : list Task) : list Task :=
  if _should_suggest_multi_agent_fallback user_input tasks then
    match tasks with
    | original_task :: _ =>
        _create_multi_agent_fallback_plan user_input original_task thread
    | [] => tasks
    end
  else tasks.

End PlannerFallback.

(** ** AgentOrchestrator: the sweep of the expired contexts
    (orchestrator.py, lines 686-704) *)

Module ContextSweep.

(** The comprehension over [self._execution_contexts.items()].  The
    source reads the dictionary in insertion order and the model in the
    order of [map_to_list]; the conversations are then cancelled one by
    one, and each call touches the entries of its own conversation only. *)
Definition expired_conversations (max_age_seconds : Z) (w : World)
    : list string :=
  (filter (λ entry, is_expired entry.2 (loop_time w) max_age_seconds = true)
     (map_to_list (_execution_contexts w))).*1.

Definition _cleanup_expired_contexts (max_age_seconds : Z) : Gen unit :=
  w ← get_world;
  for_each (expired_conversations max_age_seconds w)
    AgentOrchestrator._cancel_execution.

End ContextSweep.

(** ** TaskApiService (server/services/task_service.py) *)

(** The operations of a Python [dict] read by [json.loads]. *)
Module PyDict.

Fixpoint get (key : string) (fields : list (string * json)) : option json :=
  match fields with
  | [] => None
  | (k, v) :: rest => if bool_decide (k = key) then Some v else get key rest
  end.

(** [d[key] = value]: the value of a present key is replaced where the key
    stands, a new key goes to the end. *)
Fixpoint set (key : string) (value : json) (fields : list (string * json))
    : list (string * json) :=
  match fields with
  | [] => [(key, value)]
  | (k, v) :: rest =>
      if bool_decide (k = key) then (k, value) :: rest
      else (k, v) :: set key value rest
  end.

End PyDict.

(** Modelled from the spec: the item operations of the core
    ConversationService (stockbuddy.core.conversation), sections 3 and 6:
    the items of one event kind and component type, in insertion order,
    and the upsert by item id that [add_item] performs for an existing id.
    The component type of an item is the [component_type] field of its
    payload. *)
Module ItemService.

Definition component_type_of (row : Item.t) : option json :=
  match Item.payload row with
  | Some (Json (JObject fields)) => PyDict.get "component_type" fields
  | _ => None
  end.

Definition is_component (component_type : string) (row : Item.t) : bool :=
  bool_decide (Item.event row = COMPONENT_GENERATOR)
  && match component_type_of row with
     | Some (JString s) => bool_decide (s = component_type)
     | _ => false
     end.

Definition get_conversation_items (component_type : string)
    (store : ItemStore) : list (string * Item.t) :=
  filter (λ entry, is_component component_type entry.2 = true)
    (omap (λ id, (λ row, (id, row)) <$> item_rows store !! id)
          (item_order store)).

Definition add_item (item_id : string) (row : Item.t) (store : ItemStore)
    : ItemStore :=
  {| item_order :=
       match item_rows store !! item_id with
       | Some _ => item_order store
       | None => item_order store ++ [item_id]
       end;
     item_rows := <[item_id := row]> (item_rows store) |}.

End ItemService.

Module TaskApiService.

(** [TaskCancelData] (server/api/schemas/task.py), as line 102 builds it. *)
Record TaskCancelData := {
  task_id : string;
  success : bool;
  updated_component_ids : list string;
}.

(** In this module [None] stands for an exception caught by the
    [except Exception] clauses of lines 58 and 94. *)

(** [json.loads(text or "{}")]. *)
Definition loads_or_empty (text : option Text) : option json :=
  match text with
  | None => Some (JObject [])
  | Some (NotJson s) => if PyStr.truthy s then None else Some (JObject [])
  | Some (Json doc) => Some doc
  end.

(** [obj.get(key)]: an [AttributeError] unless [obj] is a dict. *)
Definition dict_get (obj : json) (key : string) : option json :=
  match obj with
  | JObject fields => Some (default JNull (PyDict.get key fields))
  | _ => None
  end.

(** [obj[key] = value]: a [TypeError] unless [obj] is a dict. *)
Definition dict_set (obj : json) (key : string) (value : json) : option json :=
  match obj with
  | JObject fields => Some (JObject (PyDict.set key value fields))
  | _ => None
  end.

Definition is_str (value : json) : bool :=
  match value with JString _ | JDocument _ => true | _ => false end.

(** Truthiness of a value that is a [str]. *)
Definition truthy_str (value : json) : bool :=
  match value with
  | JString s => PyStr.truthy s
  | JDocument _ => true
  | _ => false
  end.

(** [json.loads(value)] of a [str] value. *)
Definition loads_str (value : json) : option json :=
  match value with
  | JDocument doc => Some doc
  | _ => None
  end.

(** [value != task_id] negated; a task id is not a JSON document. *)
Definition equals_str (value : json) (s : string) : bool :=
  match value with
  | JString s' => bool_decide (s' = s)
  | _ => false
  end.

(** Lines 45-59: whether the loop goes on to the update of [item]. *)
Definition references (task_id : string) (item : Item.t) : bool :=
  if bool_decide (Item.task_id item = Some task_id) then true
  else
    default false
      (payload_obj ← loads_or_empty (Item.payload item);
       content_raw ← dict_get payload_obj "content";
       if truthy_str content_raw && is_str content_raw then
         content_obj ← loads_str content_raw;
         embedded_id ← dict_get content_obj "task_id";
         Some (equals_str embedded_id task_id)
       else Some false).

(** Lines 75-80: the metadata handed to [add_item]. *)
Definition metadata_dict (item : Item.t) : option json :=
  match Item.metadata item with
  | Some (Json doc) => Some doc
  | _ => None
  end.

(** Lines 62-92: the row [add_item] is called with, or [None] when the
    payload is broken. *)
Definition cancelled_row (item : Item.t) : option Item.t :=
  payload_obj ← loads_or_empty (Item.payload item);
  content_raw ← dict_get payload_obj "content";
  content_obj ← (if is_str content_raw then loads_str content_raw
                 else Some (JObject []));
  content_obj ← dict_set content_obj "task_status" (JString "cancelled");
  payload_obj ← dict_set payload_obj "content" (JDocument content_obj);
  Some {| Item.role := Item.role item;
          Item.event := Item.event item;
          Item.conversation_id := Item.conversation_id item;
          Item.thread_id := Item.thread_id item;
          Item.task_id := Item.task_id item;
          Item.payload := Some (Json payload_obj);
          Item.agent_name := Item.agent_name item;
          Item.metadata := Json <$> metadata_dict item |}.

(** The [for item in items] loop, lines 44-96. *)
Fixpoint update_loop (task_id : string) (items : list (string * Item.t))
    (updated_ids : list string) : Gen (list string) :=
  match items with
  | [] => mret updated_ids
  | (item_id, item) :: rest =>
      if references task_id item then
        match cancelled_row item with
        | Some row =>
            modify (set_item_store (ItemService.add_item item_id row)) ;;
            update_loop task_id rest (updated_ids ++ [item_id])
        | None => update_loop task_id rest updated_ids
        end
      else update_loop task_id rest updated_ids
  end.

(** [cancel_and_update_component], lines 22-106. *)
Definition cancel_and_update_component (task_id : string)
    : Gen TaskCancelData :=
  cancelled ← TaskService.cancel_task task_id;
  w ← get_world;
  let items :=
    ItemService.get_conversation_items "scheduled_task_controller"
      (item_store w) in
  updated_ids ← update_loop task_id items [];
  let success := (cancelled : bool) || (0 <? length updated_ids)%nat in
  mret {| task_id := task_id; success := success;
          updated_component_ids := updated_ids |}.

(** The route [POST /tasks/{task_id}/cancel] (server/api/routers/task.py,
    lines 22-46); an [HTTPException] is the exception. *)
Definition cancel_task (task_id : string) : Gen TaskCancelData :=
  data ← cancel_and_update_component task_id;
  if negb (success data)
  then raise "400 Task is not cancellable or not found."
  else mret data.

(** The [task_status] a persisted item shows. *)
Definition task_status_of (item : Item.t) : option json :=
  payload_obj ← loads_or_empty (Item.payload item);
  content_raw ← dict_get payload_obj "content";
  content_obj ← loads_str content_raw;
  match content_obj with
  | JObject fields => PyDict.get "task_status" fields
  | _ => None
  end.

(** What the loop makes of one row, and of the registry and the store as
    a whole; the theorems relate [cancel_and_update_component] to them. *)
Definition cancel_row (task_id : string) (item : Item.t) : Item.t :=
  if references task_id item then default item (cancelled_row item)
  else item.

Definition update_step (task_id : string) (store : ItemStore)
    (entry : string * Item.t) : ItemStore :=
  if references task_id entry.2 then
    match cancelled_row entry.2 with
    | Some row => ItemService.add_item entry.1 row store
    | None => store
    end
  else store.

Definition cancel_store (task_id : string) (store : ItemStore) : ItemStore :=
  foldl (update_step task_id) store
    (ItemService.get_conversation_items "scheduled_task_controller" store).

Definition cancel_registry (task_id : string) (reg : gmap string TaskStatus)
    : gmap string TaskStatus :=
  match reg !! task_id with
  | Some s => if TaskService.is_finished s then reg
              else <[task_id := CANCELLED]> reg
  | None => reg
  end.

End TaskApiService.

(** ** Sample data for the worked cases *)

Module Sample.

Definition task (id agent : string) (deps : list string)
    (pat : TaskPattern) (handoff : bool) : Task :=
  {| task_id := id;
     conversation_id := "conv-" +:+ id;
     thread_id := "thread-0";
     user_id := "user-1";
     agent_name := agent;
     status := PENDING;
     title := "title of " +:+ id;
     query := "query of " +:+ id;
     pattern := pat;
     schedule_config :=
       match pat with
       | RECURRING => Some {| interval_minutes := Some 5%Z; daily_time := None |}
       | ONCE => None
       end;
     handoff_from_super_agent := handoff;
     super_agent_conversation_id := None;
     depends_on := deps |}.

Definition world : World :=
  {| task_registry := ∅;
     remote_task_ids := ∅;
     sent_messages := [];
     end_component_emitted := ∅;
     conversations := ∅;
     _execution_contexts := ∅;
     pending_requests := ∅;
     item_store := {| item_order := []; item_rows := ∅ |};
     loop_time := 0;
     uuid_counter := 0 |}.

(** A remote agent that reports [submitted], one message, and [completed]. *)
Definition well_behaved : Invocation :=
  {| client_found := true;
     remote_response :=
       [ ({| remote_id := "remote-1"; remote_state := submitted |}, NoEvent);
         ({| remote_id := "remote-1"; remote_state := working |},
          StatusUpdate {| update_state := working;
                          update_parts := [MessagePart "hello"];
                          update_reason := None |});
         ({| remote_id := "remote-1"; remote_state := completed |},
          StatusUpdate {| update_state := completed;
                          update_parts := [];
                          update_reason := None |}) ];
     transport_error := None |}.

Definition agents : Remote :=
  {| invocations := λ _, {| first_run := well_behaved; later_runs := [] |};
     utc_now := "2025-01-01 00:00:00" |}.

Definition plan_of (tasks : list Task) (guidance : option string)
    : ExecutionPlan :=
  {| Plan.plan_id := "plan-0";
     Plan.conversation_id := "conv-0";
     Plan.user_id := "user-1";
     Plan.orig_query := "query";
     Plan.tasks := tasks;
     Plan.guidance_message := guidance |}.

(** Task A, and task B that depends on it. *)
Definition task_a : Task := task "A" "ResearchAgent" [] ONCE false.
Definition task_b : Task := task "B" "StrategyAgent" ["A"] ONCE false.
Definition chain : ExecutionPlan := plan_of [task_a; task_b] None.

(** One RECURRING task. *)
Definition recurring_task : Task := task "R" "NewsAgent" [] RECURRING false.

Definition message (text : string) : BaseResponse :=
  ResponseFactory.message_response_general MESSAGE_CHUNK "conv-R" "thread-0"
    "R" text "NewsAgent".

Definition user_input (query target : string) : UserInput :=
  {| UserInput.query := query;
     UserInput.target_agent_name := target;
     UserInput.user_id := "user-1";
     UserInput.conversation_id := "conv-0" |}.

(** A session in which the planning LLM returns the RECURRING task, and
    the remote agents are those of [agents]. *)
Definition recurring_session : Session :=
  {| remote := agents;
     triage := Raised "not reached";
     llm := LlmReturns [recurring_task] None;
     llm_resumed := LlmRaises "not reached";
     ensure_conversation_error := None |}.

Definition context (created_at : Q) : ExecutionContext :=
  {| ExecutionContext.stage := "planning";
     ExecutionContext.conversation_id := "conv-0";
     ExecutionContext.thread_id := "thread-0";
     ExecutionContext.user_id := "user-1";
     ExecutionContext.created_at := created_at;
     ExecutionContext.original_user_input := None;
     ExecutionContext.planning_task := None;
     ExecutionContext.pending_response := None |}.

(** A persisted scheduled_task_controller item with the given content. *)
Definition controller_item (content : json) : Item.t :=
  {| Item.role := "agent";
     Item.event := COMPONENT_GENERATOR;
     Item.conversation_id := "conv-0";
     Item.thread_id := Some "thread-0";
     Item.task_id := Some "task-1";
     Item.payload :=
       Some (Json (JObject
         [ ("component_type", JString "scheduled_task_controller");
           ("content", content) ]));
     Item.agent_name := Some "NewsAgent";
     Item.metadata := None |}.

(** The content the factory writes, and a content that is not JSON. *)
Definition live_controller : Item.t :=
  controller_item
    (JDocument (JObject [ ("task_id", JString "task-1");
                          ("task_status", JString "running") ])).

Definition broken_controller : Item.t :=
  controller_item (JString "not json").

Definition world_with_item (item : Item.t) (registry : gmap string TaskStatus)
    : World :=
  {| task_registry := registry;
     remote_task_ids := ∅;
     sent_messages := [];
     end_component_emitted := ∅;
     conversations := ∅;
     _execution_contexts := ∅;
     pending_requests := ∅;
     item_store :=
       {| item_order := ["item-1"]; item_rows := {[ "item-1" := item ]} |};
     loop_time := 0;
     uuid_counter := 0 |}.

End Sample.

(** ** Further sample data *)

Module Cases.

(** Remote agents for which no client is found. *)
Definition unreachable : Remote :=
  {| invocations := λ _,
       {| first_run := {| client_found := false; remote_response := [];
                          transport_error := None |};
          later_runs := [] |};
     utc_now := "2025-01-01 00:00:00" |}.

(** Two tasks that wait for each other, and a task that waits for a task
    the plan does not have. *)
Definition stuck : ExecutionPlan :=
  Sample.plan_of
    [ Sample.task "A" "ResearchAgent" ["B"] ONCE false;
      Sample.task "B" "NewsAgent" ["A"] ONCE false;
      Sample.task "C" "StrategyAgent" ["missing"] ONCE false ] None.

(** Two tasks without dependencies. *)
Definition independent : ExecutionPlan :=
  Sample.plan_of
    [ Sample.task "A" "ResearchAgent" [] ONCE false;
      Sample.task "B" "NewsAgent" [] ONCE true ] None.

(** A remote agent whose stream reports [submitted] and two working
    updates and then ends, without a terminal status update. *)
Definition open_ended : Invocation :=
  {| client_found := true;
     remote_response :=
       [ ({| remote_id := "remote-1"; remote_state := submitted |}, NoEvent);
         ({| remote_id := "remote-1"; remote_state := working |},
          StatusUpdate {| update_state := working;
                          update_parts := [MessagePart " a"];
                          update_reason := None |});
         ({| remote_id := "remote-1"; remote_state := working |},
          StatusUpdate {| update_state := working;
                          update_parts := [ReasoningPart "think";
                                           MessagePart "b "];
                          update_reason := None |}) ];
     transport_error := None |}.

(** A conversation that waits for the user, the planner's question, and
    the world of the paused conversation with the given contexts. *)
Definition waiting : Conversation :=
  {| Conversation.user_id := "user-1";
     Conversation.agent_name := "ResearchAgent";
     Conversation.title := None;
     Conversation.status := REQUIRE_USER_INPUT |}.

Definition paused_world (contexts : gmap string ExecutionContext) : World :=
  {| task_registry := ∅;
     remote_task_ids := ∅;
     sent_messages := [];
     end_component_emitted := ∅;
     conversations := {[ "conv-0" := waiting ]};
     _execution_contexts := contexts;
     pending_requests := {[ "conv-0" := "Which ticker?" ]};
     item_store := {| item_order := []; item_rows := ∅ |};
     loop_time := 0;
     uuid_counter := 0 |}.

(** The context of a planner that waits for the user's answer. *)
Definition paused_context : ExecutionContext :=
  {| ExecutionContext.stage := "planning";
     ExecutionContext.conversation_id := "conv-0";
     ExecutionContext.thread_id := "thread-0";
     ExecutionContext.user_id := "user-1";
     ExecutionContext.created_at := 0;
     ExecutionContext.original_user_input :=
       Some (Sample.user_input "Is it worth it?" "ResearchAgent");
     ExecutionContext.planning_task := Some "plan-0";
     ExecutionContext.pending_response := None |}.

(** The answer of the user [user]. *)
Definition reply (user : string) : UserInput :=
  {| UserInput.query := "TSLA";
     UserInput.target_agent_name := "ResearchAgent";
     UserInput.user_id := user;
     UserInput.conversation_id := "conv-0" |}.

(** A session in which the planning LLM asks the user first and returns
    task A after the answer. *)
Definition asking_session : Session :=
  {| remote := Sample.agents;
     triage := Raised "not reached";
     llm := LlmAsks "Which ticker?";
     llm_resumed := LlmReturns [Sample.task_a] None;
     ensure_conversation_error := None |}.

(** A session in which the super agent answers by itself, and one in
    which it hands off to the planner with agents the planner's direct
    path does not know. *)
Definition answering_session : Session :=
  {| remote := Sample.agents;
     triage := Returned {| decision := ANSWER;
                           answer_content := Some "Hello!";
                           enriched_query := None;
                           recommended_agents := None;
                           outcome_reason := None |};
     llm := LlmRaises "not reached";
     llm_resumed := LlmRaises "not reached";
     ensure_conversation_error := None |}.

Definition unknown_agents_session : Session :=
  {| remote := Sample.agents;
     triage := Returned {| decision := HANDOFF_TO_PLANNER;
                           answer_content := None;
                           enriched_query := Some "Tencent and HSBC";
                           recommended_agents :=
                             Some ["HKStockAgent"; "CryptoAgent"];
                           outcome_reason := None |};
     llm := LlmReturns [Sample.task_a] None;
     llm_resumed := LlmRaises "not reached";
     ensure_conversation_error := None |}.

End Cases.

(** ** Predicates of the statements *)

(** [needle] occurs in [text]. *)
Definition occurs_in (needle text : string) : Prop :=
  ∃ before after, text = before +:+ needle +:+ after.

(** At least two keywords of the list occur in the text. *)
Definition two_occur (keywords : list string) (text : string) : Prop :=
  ∃ kw1 kw2, kw1 ≠ kw2 ∧ kw1 ∈ keywords ∧ kw2 ∈ keywords
             ∧ occurs_in kw1 text ∧ occurs_in kw2 text.

(** One keyword of the list occurs in the text. *)
Definition one_occurs (keywords : list string) (text : string) : Prop :=
  ∃ kw, kw ∈ keywords ∧ occurs_in kw text.

(** The responses of kind [ev] that carry the task id [id]. *)
Definition events_of (ev : StreamResponseEvent) (id : string)
    (trace : list BaseResponse) : list BaseResponse :=
  filter (λ r, Response.event r = ev ∧ Response.task_id r = Some id) trace.

(** Every entry of the dictionary is kept under its own task id. *)
Definition keyed (by_id : gmap string Task) : Prop :=
  ∀ id t, by_id !! id = Some t → task_id t = id.

(** Every response the generator yields satisfies [P]. *)
Definition yields_only {A} (P : BaseResponse → Prop) (m : Gen A) : Prop :=
  ∀ w, Forall P (yielded (m w)).

(** A response is of the task [id] when it carries no task id or [id]. *)
Definition of_task (id : string) (r : BaseResponse) : Prop :=
  ∀ id', Response.task_id r = Some id' → id' = id.

(** A response carries, if any, the id of a task of [ids]. *)
Definition carries (ids : gset string) (r : BaseResponse) : Prop :=
  ∀ id, Response.task_id r = Some id → id ∈ ids.

(** The entries of the list are rows of [rows0]. *)
Definition rows_of (rows0 : gmap string Item.t)
    (items : list (string * Item.t)) : Prop :=
  ∀ id row, (id, row) ∈ items → rows0 !! id = Some row.

(** The loop writes the entry. *)
Definition changes (task_id : string) (row : Item.t) : Prop :=
  TaskApiService.references task_id row = true
  ∧ is_Some (TaskApiService.cancelled_row row).

(** ** Further predicates of the statements *)

(** *** The responses of one task of a plan *)

(** A terminal event of a task. *)
Definition terminal (r : BaseResponse) : Prop :=
  Response.event r = TASK_COMPLETED ∨ Response.event r = TASK_FAILED.

#[global] Instance terminal_dec (r : BaseResponse) : Decision (terminal r).
Proof. unfold terminal. apply _. Defined.

(** The response is a message chunk, a reasoning chunk or a tool call. *)
Definition is_chatter (r : BaseResponse) : Prop :=
  EventPredicates.is_message (Response.event r) = true
  ∨ EventPredicates.is_reasoning (Response.event r) = true
  ∨ EventPredicates.is_tool_call (Response.event r) = true.

(** The component of a subagent conversation, of the given phase. *)
Definition is_subagent_component (phase : SubagentConversationPhase)
    (r : BaseResponse) : bool :=
  match Response.payload r with
  | Some (ComponentGeneratorResponseDataPayload
            (SubagentConversationContent _ _ START) _ SUBAGENT_CONVERSATION) =>
      match phase with START => true | END => false end
  | Some (ComponentGeneratorResponseDataPayload
            (SubagentConversationContent _ _ END) _ SUBAGENT_CONVERSATION) =>
      match phase with START => false | END => true end
  | _ => false
  end.

(** The START or END component of the conversation of a task handed off
    by the super agent ([_emit_subagent_conversation_component]). *)
Definition subagent_component (plan : ExecutionPlan) (thread : string)
    (task : Task) (component_id : string) (phase : SubagentConversationPhase)
    : BaseResponse :=
  ResponseFactory.component_generator (Plan.conversation_id plan) thread
    (task_id task)
    (SubagentConversationContent (conversation_id task) (agent_name task)
       phase)
    SUBAGENT_CONVERSATION component_id (agent_name task).

(** The responses of one run of a task on its remote agent: the
    task_started response, the translation of a part of a status update,
    and the result component of a scheduled task. *)
Definition run_response (task : Task) (thread now : string)
    (r : BaseResponse) : Prop :=
  r = ResponseFactory.task_started (conversation_id task) thread
        (task_id task) (agent_name task)
        (if PyStr.truthy (title task) then title task else query task)
  ∨ (∃ p, r = EventRouter.translate task thread p)
  ∨ (∃ content,
       r = ResponseFactory.schedule_task_result_component task
             (ScheduledTaskComponentContent content now)).

(** What a scheduled task yields before its runs: the controller
    component, the END component of a handed-off task, and done. *)
Definition schedule_prelude (plan : ExecutionPlan) (thread : string)
    (task : Task) (component_id : string) : list BaseResponse :=
  if is_scheduled task then
    ResponseFactory.schedule_task_controller_component (conversation_id task)
      thread task
    :: (if handoff_from_super_agent task
        then [subagent_component plan thread task component_id END] else [])
    ++ [ResponseFactory.done (conversation_id task) (Some thread)]
  else [].

(** The terminal event of a task of a plan, from the way its runs end:
    task_completed in the task's conversation, or task_failed in the
    plan's conversation with the text of the exception. *)
Definition closing_of (plan : ExecutionPlan) (thread : string)
    (task : Task) (res : Result unit) : BaseResponse :=
  match res with
  | Returned _ =>
      ResponseFactory.task_completed (conversation_id task) thread
        (task_id task) (agent_name task)
  | Raised exc =>
      ResponseFactory.task_failed (Plan.conversation_id plan) thread
        (task_id task)
        ("(Error) Error executing " +:+ task_id task +:+ ": " +:+ exc)
        (agent_name task)
  end.

(** The responses of one task of a plan, around the responses [runs] of
    its runs and its terminal event [closing]. *)
Definition task_trace (plan : ExecutionPlan) (thread : string) (task : Task)
    (component_id : string) (runs : list BaseResponse)
    (closing : BaseResponse) : list BaseResponse :=
  (if handoff_from_super_agent task
   then [subagent_component plan thread task component_id START;
         ResponseFactory.thread_started (conversation_id task) thread
           (query task)]
   else [])
  ++ schedule_prelude plan thread task component_id
  ++ runs ++ [closing]
  ++ (if handoff_from_super_agent task && negb (is_scheduled task)
      then [subagent_component plan thread task component_id END] else []).

(** *** Runs of a generator *)

(** One run of a generator from the world [w]: what it yields, how it
    ends and the world it leaves. *)
Definition steps {A} (m : Gen A) (w : World) (ys : list BaseResponse)
    (res : Result A) (w' : World) : Prop :=
  yielded (m w) = ys ∧ result (m w) = res ∧ world (m w) = w'.

(** No exception escapes the generator. *)
Definition returns {A} (m : Gen A) : Prop :=
  ∀ w, ∃ a, result (m w) = Returned a.

(** The generator leaves the component [f] of the world as it is. *)
Definition preserves {A B} (f : World → B) (m : Gen A) : Prop :=
  ∀ w, f (world (m w)) = f w.

(** A component of the world that the runs of a task leave alone. *)
Definition run_frame {B} (f : World → B) : Prop :=
  (∀ g w, f (set_task_registry g w) = f w)
  ∧ (∀ g w, f (set_remote_task_ids g w) = f w)
  ∧ (∀ g w, f (set_sent_messages g w) = f w).

(** A component that the whole executor leaves alone. *)
Definition executor_frame {B} (f : World → B) : Prop :=
  run_frame f
  ∧ (∀ g w, f (set_end_component_emitted g w) = f w)
  ∧ (∀ g w, f (set_conversations g w) = f w)
  ∧ (∀ g w, f (set_uuid_counter g w) = f w).

(** *** The stream of one run, as the executor reads it *)

(** Whether an item of the remote stream ends the run: a status update
    for which the router answers [done]. *)
Definition ends_run (task : Task) (thread : string)
    (item : RemoteTask * RemoteUpdate) : bool :=
  match item.2 with
  | StatusUpdate ev => done (EventRouter.route_task_status task thread ev)
  | _ => false
  end.

(** The items the loop of [_execute_single_task_run] reads: all of them,
    or those up to the first that ends the run. *)
Fixpoint consumed (task : Task) (thread : string)
    (items : list (RemoteTask * RemoteUpdate))
    : list (RemoteTask * RemoteUpdate) :=
  match items with
  | [] => []
  | item :: rest =>
      item :: (if ends_run task thread item then []
               else consumed task thread rest)
  end.

(** The responses of one item for a task that is not scheduled. *)
Definition forwarded_of (task : Task) (thread : string)
    (item : RemoteTask * RemoteUpdate) : list BaseResponse :=
  match item.2 with
  | NoEvent =>
      if bool_decide (remote_state item.1 = submitted)
      then [ResponseFactory.task_started (conversation_id task) thread
              (task_id task) (agent_name task)
              (if PyStr.truthy (title task) then title task else query task)]
      else []
  | StatusUpdate ev => EventRouter.translate task thread <$> update_parts ev
  | ArtifactUpdate => []
  end.

(** The text a part of a status update adds to the buffer of a scheduled
    task. *)
Definition part_text (p : StatusPart) : option string :=
  match p with
  | MessagePart text => if PyStr.truthy text then Some text else None
  | _ => None
  end.

(** The responses of one item for a scheduled task: those of an item
    that is not a status update. *)
Definition scheduled_of (task : Task) (thread : string)
    (item : RemoteTask * RemoteUpdate) : list BaseResponse :=
  match item.2 with
  | StatusUpdate _ => []
  | _ => forwarded_of task thread item
  end.

(** The texts one item adds to the buffer of a scheduled task. *)
Definition texts_of (item : RemoteTask * RemoteUpdate) : list string :=
  match item.2 with
  | StatusUpdate ev => omap part_text (update_parts ev)
  | _ => []
  end.

(** *** Plans *)

(** A task as [_create_tasks_from_recommendations] builds it for the agent
    [agent] with the dependencies [dependencies]. *)
Definition recommended_task (user_input : UserInput)
    (conversation thread : string) (dependencies : list string)
    (agent : string) (t : Task) : Prop :=
  agent_name t = agent
  ∧ depends_on t = dependencies
  ∧ title t = ExecutionPlanner.task_descriptions (UserInput.query user_input)
                agent
  ∧ query t = UserInput.query user_input
  ∧ pattern t = ONCE ∧ schedule_config t = None ∧ status t = PENDING
  ∧ user_id t = UserInput.user_id user_input
  ∧ thread_id t = thread
  ∧ handoff_from_super_agent t = true
  ∧ super_agent_conversation_id t = Some conversation.

(** The dependencies of the tasks are acyclic and name tasks of the
    dictionary: every dependency of a task is a key, of lower rank. *)
Definition acyclic (by_id : gmap string Task) (rank : string → nat) : Prop :=
  ∀ id t dep_id,
    by_id !! id = Some t → dep_id ∈ depends_on t →
    dep_id ∈ dom by_id ∧ (rank dep_id < rank id)%nat.

(** *** Waiting conversations *)

(** The conversation has an execution context that is older than
    [max_age_seconds]. *)
Definition expired_context (max_age_seconds : Z) (w : World)
    (conversation_id : string) : Prop :=
  ∃ context,
    _execution_contexts w !! conversation_id = Some context
    ∧ is_expired context (loop_time w) max_age_seconds = true.

(** What [_cancel_execution] leaves of the world. *)
Definition cancelled_world (conversation_id : string) (w : World) : World :=
  set_conversations
    (alter (ConversationService.set_status ACTIVE) conversation_id)
    (set_pending_requests (delete conversation_id)
       (set_execution_contexts (delete conversation_id) w)).

(** *** What a cancellation reports *)

(** Whether the loop of [cancel_and_update_component] writes the entry. *)
Definition is_updated (task_id : string) (entry : string * Item.t) : bool :=
  TaskApiService.references task_id entry.2
  && bool_decide (is_Some (TaskApiService.cancelled_row entry.2)).

(** The ids of the controller components the loop writes, in the order
    of the store. *)
Definition updated_ids_of (task_id : string) (store : ItemStore)
    : list string :=
  (filter (λ entry, is_updated task_id entry = true)
     (ItemService.get_conversation_items "scheduled_task_controller" store)).*1.

(** Whether [TaskService.cancel_task] cancels the task: it is registered
    and not finished. *)
Definition cancellable (task_id : string) (reg : gmap string TaskStatus)
    : bool :=
  match reg !! task_id with
  | Some s => negb (TaskService.is_finished s)
  | None => false
  end.

(** The fields of a JSON object; a value of another kind has none. *)
Definition fields_of (doc : json) : list (string * json) :=
  match doc with JObject fields => fields | _ => [] end.

(** The fields of the payload of an item, as [json.loads] gives them. *)
Definition payload_fields (item : Item.t) : list (string * json) :=
  default [] (fields_of <$> TaskApiService.loads_or_empty (Item.payload item)).

(** The fields of the content of the payload, when it is the text of a
    JSON object. *)
Definition content_fields (item : Item.t) : list (string * json) :=
  match PyDict.get "content" (payload_fields item) with
  | Some (JDocument doc) => fields_of doc
  | _ => []
  end.


(* ================================================================== *)
(** * Part II. The theorems *)
(* ================================================================== *)

#[local] Set Warnings "-clear-no-such-hyp".

(** ** The result accumulator *)

Section Accumulator.
Import ScheduledTaskResultAccumulator EventPredicates.

Lemma consume_loop_spec (self : t) (rs passthrough : list BaseResponse) :
  consume_loop self rs passthrough
  = ({| _task := _task self;
        _buffer := _buffer self ++ omap buffered_content rs |},
     passthrough ++ filter (λ r, forwarded r = true) rs).
Proof.
  revert self passthrough.
  induction rs as [|r rs IH]; intros self passthrough; simpl.
  - rewrite !app_nil_r. by destruct self.
  - unfold consume_one, buffered_content, forwarded.
    rewrite filter_cons.
    destruct (is_message (Response.event r)) eqn:Hm; simpl.
    + destruct (Response.text_content r) as [c|]; simpl.
      * destruct (PyStr.truthy c); simpl; rewrite IH; simpl.
        -- by rewrite <- app_assoc.
        -- done.
      * rewrite IH. done.
    + destruct (is_reasoning (Response.event r)); simpl.
      * rewrite IH. done.
      * destruct (is_tool_call (Response.event r)); simpl.
        -- rewrite IH. done.
        -- rewrite IH. simpl. by rewrite <- app_assoc.
Qed.


End Accumulator.

Section AccumulatorCases.
Import ScheduledTaskResultAccumulator.



End AccumulatorCases.

(** ** The execution context *)



(** ** The fast track to the planner *)

Section FastTrack.
Import AgentOrchestrator.


Lemma append_String (c : ascii) (s t : string) :
  String c s +:+ t = String c (s +:+ t).
Proof. reflexivity. Qed.

Lemma prefix_iff (kw s : string) :
  String.prefix kw s = true ↔ ∃ after, s = kw +:+ after.
Proof.
  revert s. induction kw as [|a kw IH]; intros s; simpl.
  - split; [intros _; exists s; reflexivity | intros _; by destruct s].
  - destruct s as [|b s]; simpl.
    + split; [done | intros [after H]; rewrite append_String in H; discriminate].
    + destruct (ascii_dec a b) as [->|Hne].
      * rewrite IH.
        split; intros [after H]; exists after; rewrite append_String in *;
          congruence.
      * split; [done | intros [after H]; rewrite append_String in H; congruence].
Qed.

Lemma contains_iff (kw s : string) :
  PyStr.contains kw s = true ↔ occurs_in kw s.
Proof.
  unfold occurs_in. induction s as [|c s IH].
  - change (PyStr.contains kw "") with (String.prefix kw "" || false).
    rewrite orb_false_r, prefix_iff. split.
    + intros [after H]. by exists "", after.
    + intros (before & after & H). destruct before.
      * by exists after.
      * rewrite append_String in H. discriminate.
  - change (PyStr.contains kw (String c s))
      with (String.prefix kw (String c s) || PyStr.contains kw s).
    rewrite orb_true_iff, prefix_iff, IH. split.
    + intros [[after H] | (before & after & H)].
      * by exists "", after.
      * exists (String c before), after. rewrite append_String. by rewrite H.
    + intros (before & after & H). destruct before as [|b before].
      * left. by exists after.
      * right. exists before, after. rewrite append_String in H. congruence.
Qed.


Lemma count_matches_two (keywords : list string) (text : string) :
  NoDup keywords →
  ((2 ≤ count_matches keywords text)%nat ↔ two_occur keywords text).
Proof.
  intros Hnd. unfold count_matches, two_occur.
  pose proof (NoDup_filter (λ kw, PyStr.contains kw text = true) _ Hnd) as Hf.
  split.
  - destruct (filter _ keywords) as [|x [|y l]] eqn:E; simpl; [lia|lia|].
    intros _. exists x, y.
    assert (Hx : x ∈ filter (λ kw, PyStr.contains kw text = true) keywords)
      by (rewrite E; set_solver).
    assert (Hy : y ∈ filter (λ kw, PyStr.contains kw text = true) keywords)
      by (rewrite E; set_solver).
    apply list_elem_of_filter in Hx as [Hx1 Hx2].
    apply list_elem_of_filter in Hy as [Hy1 Hy2].
    rewrite contains_iff in Hx1, Hy1.
    split; [|done].
    apply NoDup_cons in Hf as [Hn _]. set_solver.
  - intros (kw1 & kw2 & Hne & H1 & H2 & Ho1 & Ho2).
    assert (Hx : kw1 ∈ filter (λ kw, PyStr.contains kw text = true) keywords)
      by (apply list_elem_of_filter; by rewrite contains_iff).
    assert (Hy : kw2 ∈ filter (λ kw, PyStr.contains kw text = true) keywords)
      by (apply list_elem_of_filter; by rewrite contains_iff).
    destruct (filter _ keywords) as [|x [|y l]]; simpl; [|..|lia].
    + by apply elem_of_nil in Hx.
    + apply list_elem_of_singleton in Hx, Hy. congruence.
Qed.

Lemma any_in_iff (keywords : list string) (text : string) :
  any_in keywords text = true ↔ one_occurs keywords text.
Proof.
  unfold any_in, one_occurs. rewrite existsb_exists. split.
  - intros (kw & Hin & H). exists kw. rewrite <- contains_iff.
    by rewrite list_elem_of_In.
  - intros (kw & Hin & H). exists kw. rewrite contains_iff.
    by rewrite <- list_elem_of_In.
Qed.




End FastTrack.

(** ** Plans that carry a guidance message *)

(** C10.  For a plan whose guidance message is non-empty, [execute_plan]
    yields exactly one response, a message_chunk of the agent "Planner"
    whose content is the guidance message, and returns: no task is
    registered or started, no remote agent is sent a message, whatever
    the tasks of the plan. *)
Theorem guidance_plan_yields_only_the_message (remote : Remote)
    (plan : ExecutionPlan) (thread : string) (w : World) (guidance : string) :
  Plan.guidance_message plan = Some guidance →
  guidance ≠ "" →
  let run := TaskExecutor.execute_plan remote plan thread w in
  yielded run
  = [ResponseFactory.message_response_general MESSAGE_CHUNK
       (Plan.conversation_id plan) thread
       ("task-" +:+ pretty (uuid_counter w)) guidance "Planner"]
  ∧ result run = Returned tt
  ∧ task_registry (world run) = task_registry w
  ∧ remote_task_ids (world run) = remote_task_ids w
  ∧ sent_messages (world run) = sent_messages w.
Proof.
  intros Hg Hne run. subst run. unfold TaskExecutor.execute_plan.
  rewrite Hg. simpl.
  destruct guidance as [|c guidance]; [done|]. simpl.
  repeat split.
Qed.

(** C10, worked case: the plan of tasks A and B with a guidance message. *)
Lemma guidance_plan_yields_only_the_message_witness :
  yielded (TaskExecutor.execute_plan Sample.agents
             (Sample.plan_of [Sample.task_a; Sample.task_b]
                (Some "Please confirm"))
             "thread-0" Sample.world)
  = [ResponseFactory.message_response_general MESSAGE_CHUNK "conv-0"
       "thread-0" "task-0" "Please confirm" "Planner"].
Proof.
  apply (guidance_plan_yields_only_the_message Sample.agents
           (Sample.plan_of [Sample.task_a; Sample.task_b]
              (Some "Please confirm"))
           "thread-0" Sample.world "Please confirm").
  - reflexivity.
  - discriminate.
Defined.

(** ** The plan built from the recommended agents *)

(** C3, at the failing input: for the recommended agents HKStockAgent and
    ResearchAgent, and whatever the planning LLM would do, the planner
    builds one task, for ResearchAgent and without dependencies; the
    HKStockAgent gets no task, so the plan is shorter than the list of
    recommended agents. *)
Theorem recommended_agent_dropped (llm : Gen (list Task * option string)) :
  let recommended := ["HKStockAgent"; "ResearchAgent"] in
  ∃ task,
    result (ExecutionPlanner._analyze_input_and_create_tasks llm
              (Sample.user_input "Analyze HK stock 00700" "")
              "conv-0" "thread-0" (Some recommended) Sample.world)
    = Returned ([task], None)
    ∧ agent_name task = "ResearchAgent"
    ∧ depends_on task = []
    ∧ length [task] ≠ length recommended.
Proof.
  eexists. split; [vm_compute; reflexivity|].
  split; [reflexivity|]. split; [reflexivity|]. simpl. lia.
Qed.

(** ** The session stream *)

Section SessionStream.
Import AgentOrchestrator.



End SessionStream.

(** ** Terminal events of a plan with dependencies *)


(** C1, at the failing input: for the plan of task A and task B that
    depends on A, with remote agents that report submitted, a message and
    completed, each task gets one task_started and two task_completed. *)
Theorem dependent_plan_completes_each_task_twice :
  let trace :=
    yielded (TaskExecutor.execute_plan Sample.agents Sample.chain "thread-0"
               Sample.world) in
  (Response.event <$> trace
   = [TASK_STARTED; MESSAGE_CHUNK; TASK_COMPLETED; TASK_COMPLETED;
      TASK_STARTED; MESSAGE_CHUNK; TASK_COMPLETED; TASK_COMPLETED])
  ∧ length (events_of TASK_STARTED "A" trace) = 1%nat
  ∧ length (events_of TASK_COMPLETED "A" trace) = 2%nat
  ∧ length (events_of TASK_STARTED "B" trace) = 1%nat
  ∧ length (events_of TASK_COMPLETED "B" trace) = 2%nat.
Proof. vm_compute. done. Qed.

(** ** The execution batches *)

Section Batches.
Import TaskExecutor.


Lemma tasks_by_id_list_to_map (tasks : list Task) :
  tasks_by_id tasks
  = list_to_map ((λ t, (task_id t, t)) <$> reverse tasks).
Proof.
  unfold tasks_by_id.
  rewrite <- (reverse_involutive tasks) at 1.
  generalize (reverse tasks) as l.
  induction l as [|t l IH]; [done|].
  rewrite reverse_cons, foldl_app. simpl. by rewrite IH.
Qed.

Lemma tasks_by_id_elem (tasks : list Task) (id : string) (t : Task) :
  tasks_by_id tasks !! id = Some t → t ∈ tasks ∧ task_id t = id.
Proof.
  rewrite tasks_by_id_list_to_map. intros H.
  apply elem_of_list_to_map_2 in H.
  apply list_elem_of_fmap in H as (t' & Heq & Hin).
  inversion Heq; subst. split; [|done].
  by apply elem_of_reverse.
Qed.

Lemma tasks_by_id_keyed (tasks : list Task) : keyed (tasks_by_id tasks).
Proof. intros id t H. by apply tasks_by_id_elem in H as [_ H]. Qed.

Lemma tasks_by_id_dom (tasks : list Task) :
  dom (tasks_by_id tasks) = ids_of tasks.
Proof.
  rewrite tasks_by_id_list_to_map, dom_list_to_map_L.
  unfold ids_of. apply set_eq. intros id.
  rewrite !elem_of_list_to_set, <- list_fmap_compose, !list_elem_of_fmap.
  split; intros (t & -> & Hin); exists t; (split; [done|]);
    by apply elem_of_reverse.
Qed.

Lemma tasks_by_id_NoDup (tasks : list Task) (t : Task) :
  NoDup (task_id <$> tasks) → t ∈ tasks →
  tasks_by_id tasks !! task_id t = Some t.
Proof.
  intros Hnd Hin. rewrite tasks_by_id_list_to_map.
  apply elem_of_list_to_map_1.
  - rewrite <- list_fmap_compose.
    change (NoDup (task_id <$> reverse tasks)).
    by rewrite fmap_reverse, reverse_Permutation.
  - apply list_elem_of_fmap. exists t. split; [done|]. by apply elem_of_reverse.
Qed.

Lemma NoDup_fmap_omap {A B} (f : A → option B) (g : B → A) (l : list A) :
  (∀ x y, f x = Some y → g y = x) → NoDup l → NoDup (g <$> omap f l).
Proof.
  intros Hfg. induction 1 as [|x l Hx Hnd IH]; simpl; [constructor|].
  destruct (f x) as [y|] eqn:E; [|done].
  rewrite fmap_cons. constructor; [|done].
  rewrite (Hfg _ _ E). intros Hin.
  apply list_elem_of_fmap in Hin as (y' & -> & Hin).
  apply list_elem_of_omap in Hin as (x' & Hx' & E').
  apply Hfg in E'. congruence.
Qed.

Lemma deps_completed_iff (completed : gset string) (t : Task) :
  deps_completed completed t = true
  ↔ ∀ dep_id, dep_id ∈ depends_on t → dep_id ∈ completed.
Proof.
  unfold deps_completed. rewrite forallb_forall. split.
  - intros H d Hd. apply list_elem_of_In in Hd. apply H in Hd.
    by apply bool_decide_eq_true in Hd.
  - intros H d Hd. apply bool_decide_eq_true. apply H. by apply list_elem_of_In.
Qed.

Lemma ready_tasks_elem (by_id : gmap string Task)
    (remaining completed : gset string) (t : Task) :
  keyed by_id →
  t ∈ ready_tasks by_id remaining completed
  ↔ is_ready by_id remaining completed t.
Proof.
  intros Hk. unfold ready_tasks, is_ready.
  rewrite list_elem_of_omap. setoid_rewrite elem_of_elements. split.
  - intros (id & Hid & H).
    destruct (by_id !! id) as [t'|] eqn:E; simpl in H; [|done].
    destruct (deps_completed completed t') eqn:Hd; [|done].
    inversion H; subst t'. pose proof (Hk _ _ E) as ->.
    by rewrite <- deps_completed_iff.
  - intros (E & Hid & Hd). exists (task_id t). split; [done|].
    rewrite E. simpl. apply deps_completed_iff in Hd. by rewrite Hd.
Qed.

Lemma all_remaining_elem (by_id : gmap string Task)
    (remaining : gset string) (t : Task) :
  keyed by_id →
  t ∈ all_remaining by_id remaining
  ↔ by_id !! task_id t = Some t ∧ task_id t ∈ remaining.
Proof.
  intros Hk. unfold all_remaining.
  rewrite list_elem_of_omap. setoid_rewrite elem_of_elements. split.
  - intros (id & Hid & E). pose proof (Hk _ _ E) as ->. done.
  - intros [E Hid]. by exists (task_id t).
Qed.

Lemma ready_tasks_NoDup (by_id : gmap string Task)
    (remaining completed : gset string) :
  keyed by_id → NoDup (task_id <$> ready_tasks by_id remaining completed).
Proof.
  intros Hk. apply NoDup_fmap_omap; [|apply NoDup_elements].
  intros id t H. destruct (by_id !! id) as [t'|] eqn:E; simpl in H; [|done].
  destruct (deps_completed completed t'); [|done].
  inversion H; subst. by apply Hk.
Qed.

Lemma all_remaining_NoDup (by_id : gmap string Task)
    (remaining : gset string) :
  keyed by_id → NoDup (task_id <$> all_remaining by_id remaining).
Proof.
  intros Hk. apply NoDup_fmap_omap; [|apply NoDup_elements].
  intros id t H. by apply Hk.
Qed.

Lemma all_remaining_ids (by_id : gmap string Task) (remaining : gset string) :
  keyed by_id → remaining ⊆ dom by_id →
  ids_of (all_remaining by_id remaining) = remaining.
Proof.
  intros Hk Hsub. apply set_eq. intros id. unfold ids_of.
  rewrite elem_of_list_to_set, list_elem_of_fmap. split.
  - intros (t & -> & Ht). by apply all_remaining_elem in Ht as [_ ?].
  - intros Hid. pose proof (Hsub _ Hid) as Hd.
    apply elem_of_dom in Hd as [t E]. exists t.
    pose proof (Hk _ _ E) as Ht. split; [done|].
    apply all_remaining_elem; [done|]. by rewrite Ht.
Qed.

Lemma elem_of_ids_of (ts : list Task) (id : string) :
  id ∈ ids_of ts ↔ ∃ t, t ∈ ts ∧ task_id t = id.
Proof.
  unfold ids_of. rewrite elem_of_list_to_set, list_elem_of_fmap.
  split; intros (t & ? & ?); by exists t.
Qed.

(** The loop ends within [size remaining] rounds, and its result is the
    peeling. *)
Lemma build_loop_spec (by_id : gmap string Task) (fuel : nat) :
  keyed by_id →
  ∀ remaining completed,
    remaining ⊆ dom by_id →
    (size remaining ≤ fuel)%nat →
    ∃ batches,
      build_loop fuel by_id remaining completed = Some batches
      ∧ peeling by_id remaining completed batches
      ∧ NoDup (task_id <$> concat batches)
      ∧ ids_of (concat batches) = remaining
      ∧ ∀ t, t ∈ concat batches → by_id !! task_id t = Some t.
Proof.
  intros Hk. induction fuel as [|fuel IH]; intros remaining completed Hsub Hsz.
  - assert (Hsz' : size remaining = 0%nat) by lia.
    assert (remaining = ∅) as ->.
    { apply size_empty_inv in Hsz' . by apply leibniz_equiv. }
    exists []. simpl. rewrite decide_True by done.
    repeat split; [constructor|constructor|set_solver].
  - simpl. destruct (decide (remaining = ∅)) as [->|Hne].
    { exists []. repeat split; [constructor|constructor|set_solver]. }
    set (ready0 := ready_tasks by_id remaining completed).
    set (ready := match ready0 with
                  | [] => all_remaining by_id remaining
                  | _ => ready0
                  end).
    assert (Hin : ∀ t, t ∈ ready →
                       by_id !! task_id t = Some t ∧ task_id t ∈ remaining).
    { intros t Ht. subst ready. destruct ready0 eqn:E.
      - by apply all_remaining_elem in Ht.
      - rewrite <- E in Ht. apply ready_tasks_elem in Ht as (?&?&?); done. }
    assert (Hnd : NoDup (task_id <$> ready)).
    { subst ready. destruct ready0 eqn:E.
      - by apply all_remaining_NoDup.
      - rewrite <- E. by apply ready_tasks_NoDup. }
    assert (Hnonempty : ∃ t, t ∈ ready).
    { subst ready. destruct ready0 as [|t0 l] eqn:E.
      - apply set_choose_L in Hne as [id Hid].
        pose proof (Hsub _ Hid) as Hd. apply elem_of_dom in Hd as [t Et].
        exists t. apply all_remaining_elem; [done|].
        by rewrite (Hk _ _ Et).
      - exists t0. set_solver. }
    assert (Hids : ids_of ready ⊆ remaining).
    { intros id Hid. apply elem_of_ids_of in Hid as (t & Ht & <-).
      by apply Hin. }
    assert (Hlt : (size (remaining ∖ ids_of ready) ≤ fuel)%nat).
    { destruct Hnonempty as [t Ht].
      assert (remaining ∖ ids_of ready ⊂ remaining).
      { assert (task_id t ∈ remaining) by (by apply Hin).
        assert (task_id t ∈ ids_of ready)
          by (apply elem_of_ids_of; by exists t).
        set_solver. }
      apply subset_size in H. lia. }
    destruct (IH (remaining ∖ ids_of ready) (completed ∪ ids_of ready))
      as (batches & Hb & Hp & Hnd' & Hids' & Hall); [set_solver|done|].
    exists (ready :: batches). rewrite Hb. simpl.
    split; [done|]. split; [|split; [|split]].
    + subst ready. destruct ready0 as [|t0 l] eqn:E.
      * assert (batches = []) as ->.
        { rewrite all_remaining_ids in Hp by done.
          replace (remaining ∖ remaining) with (∅ : gset string) in Hp
            by set_solver.
          by inversion Hp. }
        apply peeling_cycle; [done|..].
        -- intros t Ht. apply ready_tasks_elem in Ht; [|done].
           fold ready0 in Ht. rewrite E in Ht. by apply elem_of_nil in Ht.
        -- intros t. by apply all_remaining_elem.
        -- eapply NoDup_fmap_1, all_remaining_NoDup. done.
      * rewrite <- E in *. apply peeling_ready; [done|..|done].
        -- exists t0. apply ready_tasks_elem; [done|].
           fold ready0. rewrite E. set_solver.
        -- intros t. by apply ready_tasks_elem.
        -- by eapply NoDup_fmap_1.
    + rewrite fmap_app. apply NoDup_app. split; [done|]. split; [|done].
      intros id Hid Hid'.
      assert (id ∈ ids_of (concat batches)) as Hc
        by (unfold ids_of; by apply elem_of_list_to_set).
      rewrite Hids' in Hc.
      assert (id ∈ ids_of ready)
        by (unfold ids_of; by apply elem_of_list_to_set).
      set_solver.
    + unfold ids_of in *. rewrite fmap_app, list_to_set_app_L, Hids'.
      apply set_eq. intros id. rewrite elem_of_union, elem_of_difference.
      split.
      * intros [H|[H _]]; [by apply Hids|done].
      * intros H. destruct (decide (id ∈ list_to_set (C:=gset string) (task_id <$> ready))); auto.
    + intros t Ht. apply elem_of_app in Ht as [Ht|Ht]; [by apply Hin|by apply Hall].
Qed.

(** More fuel does not change the result. *)
Lemma build_loop_more_fuel (by_id : gmap string Task) (fuel fuel' : nat) :
  (fuel ≤ fuel')%nat →
  ∀ remaining completed batches,
    build_loop fuel by_id remaining completed = Some batches →
    build_loop fuel' by_id remaining completed = Some batches.
Proof.
  intros Hle. revert fuel' Hle.
  induction fuel as [|fuel IH]; intros fuel' Hle remaining completed batches.
  - simpl. destruct (decide (remaining = ∅)) as [->|]; [|done].
    intros [= <-]. destruct fuel'; simpl; by rewrite decide_True.
  - destruct fuel' as [|fuel']; [lia|]. simpl.
    destruct (decide (remaining = ∅)); [done|].
    destruct (build_loop fuel _ _ _) as [rest|] eqn:E; [|done].
    simpl. intros [= <-].
    by rewrite (IH fuel' ltac:(lia) _ _ _ E).
Qed.

End Batches.

Section BatchesTheorem.
Import TaskExecutor.

Lemma build_execution_batches_spec (tasks : list Task) :
  ∃ batches,
    _build_execution_batches tasks = Some batches
    ∧ peeling (tasks_by_id tasks) (ids_of tasks) ∅ batches
    ∧ NoDup (task_id <$> concat batches)
    ∧ ids_of (concat batches) = ids_of tasks
    ∧ ∀ t, t ∈ concat batches → tasks_by_id tasks !! task_id t = Some t.
Proof.
  unfold _build_execution_batches.
  apply build_loop_spec.
  - apply tasks_by_id_keyed.
  - by rewrite tasks_by_id_dom.
  - done.
Qed.



End BatchesTheorem.

(** ** Responses of one task, and the order of the batches *)

Section Yields.


Context (P : BaseResponse → Prop).

Lemma yielded_bind {A B} (m : Gen A) (k : A → Gen B) (w : World) :
  yielded ((m ≫= k) w)
  = yielded (m w)
    ++ match result (m w) with
       | Returned a => yielded (k a (world (m w)))
       | Raised _ => []
       end.
Proof.
  unfold mbind, Gen_bind. destruct (result (m w)); simpl; [done|].
  by rewrite app_nil_r.
Qed.

Lemma result_bind {A B} (m : Gen A) (k : A → Gen B) (w : World) :
  result ((m ≫= k) w)
  = match result (m w) with
    | Returned a => result (k a (world (m w)))
    | Raised exc => Raised exc
    end.
Proof. unfold mbind, Gen_bind. by destruct (result (m w)). Qed.

Lemma yields_only_bind_post {A B} (Q : A → Prop) (m : Gen A) (k : A → Gen B) :
  (∀ w a, result (m w) = Returned a → Q a) →
  yields_only P m → (∀ a, Q a → yields_only P (k a)) →
  yields_only P (m ≫= k).
Proof.
  intros HQ Hm Hk w. rewrite yielded_bind. apply Forall_app.
  split; [apply Hm|].
  destruct (result (m w)) eqn:E; [|constructor]. apply Hk. by eapply HQ.
Qed.

Lemma yields_only_ret {A} (a : A) : yields_only P (mret a).
Proof. intros w. constructor. Qed.

Lemma yields_only_bind {A B} (m : Gen A) (k : A → Gen B) :
  yields_only P m → (∀ a, yields_only P (k a)) → yields_only P (m ≫= k).
Proof.
  intros Hm Hk w. rewrite yielded_bind. apply Forall_app. split; [apply Hm|].
  destruct (result (m w)); [apply Hk|constructor].
Qed.

Lemma yields_only_ret_bind {A B} (a : A) (k : A → Gen B) :
  yields_only P (k a) → yields_only P (mret a ≫= k).
Proof. intros H w. rewrite yielded_bind. simpl. apply H. Qed.

Lemma yields_only_yield (r : BaseResponse) : P r → yields_only P (yield r).
Proof. intros Hr w. simpl. by constructor. Qed.

Lemma yields_only_raise {A} (exc : string) : yields_only P (raise (A:=A) exc).
Proof. intros w. constructor. Qed.

Lemma yields_only_modify (f : World → World) : yields_only P (modify f).
Proof. intros w. constructor. Qed.

Lemma yields_only_get_world : yields_only P get_world.
Proof. intros w. constructor. Qed.

Lemma yields_only_generate_uuid (prefix : string) :
  yields_only P (generate_uuid prefix).
Proof. intros w. constructor. Qed.

Lemma yields_only_try_except {A} (body : Gen A) (handler : string → Gen A) :
  yields_only P body → (∀ exc, yields_only P (handler exc)) →
  yields_only P (try_except body handler).
Proof.
  intros Hb Hh w. unfold try_except.
  destruct (result (body w)) eqn:E; [apply Hb|].
  simpl. apply Forall_app. split; [apply Hb|apply Hh].
Qed.

Lemma yields_only_try_finally {A} (body : Gen A) (final : Gen unit) :
  yields_only P body → yields_only P final →
  yields_only P (try_finally body final).
Proof.
  intros Hb Hf w. unfold try_finally. simpl.
  apply Forall_app. split; [apply Hb|apply Hf].
Qed.

Lemma yields_only_for_each {A} (xs : list A) (body : A → Gen unit) :
  (∀ x, x ∈ xs → yields_only P (body x)) → yields_only P (for_each xs body).
Proof.
  induction xs as [|x xs IH]; intros H; simpl.
  - apply yields_only_ret.
  - apply yields_only_bind.
    + apply H. by left.
    + intros ?. apply IH. intros y Hy. apply H. by right.
Qed.

End Yields.

Create HintDb yields.

Ltac yields_leaf :=
  solve [ unfold TaskExecutor.append_remote_task_id, TaskService.start_task,
            TaskService.fail_task, TaskService.complete_task,
            TaskService.update_task, generate_item_id, generate_task_id;
          auto with yields ].

#[local] Hint Resolve yields_only_ret yields_only_yield yields_only_raise
  yields_only_modify yields_only_get_world yields_only_generate_uuid
  : yields.

Section TaskResponses.
Import TaskExecutor.
Variable remote : Remote.


Lemma consume_subset (acc : ScheduledTaskResultAccumulator.t)
    (rs : list BaseResponse) :
  (ScheduledTaskResultAccumulator.consume acc rs).2 ⊆ rs.
Proof.
  unfold ScheduledTaskResultAccumulator.consume.
  destruct (negb _); simpl; [done|].
  rewrite consume_loop_spec. simpl. intros r Hr.
  by apply list_elem_of_filter in Hr as [_ ?].
Qed.

Lemma translate_of_task (task : Task) (thread : string) (p : StatusPart) :
  of_task (task_id task) (EventRouter.translate task thread p).
Proof. intros id'. destruct p; simpl; congruence. Qed.

Lemma yields_only_remote_loop (task : Task) (thread : string)
    (items : list (RemoteTask * RemoteUpdate))
    (acc : ScheduledTaskResultAccumulator.t) :
  yields_only (of_task (task_id task)) (remote_loop task thread acc items).
Proof.
  revert acc. induction items as [|[remote_task event] items IH]; intros acc.
  - simpl. yields_leaf.
  - simpl. destruct event as [|ev|].
    + case_bool_decide; [|apply IH].
      apply yields_only_bind; [yields_leaf|]. intros ?.
      apply yields_only_bind; [|intros ?; apply IH].
      apply yields_only_yield. intros id'. simpl. congruence.
    + destruct (ScheduledTaskResultAccumulator.consume acc _) as [acc' out] eqn:E.
      apply yields_only_bind.
      { apply yields_only_for_each. intros r Hr. apply yields_only_yield.
        assert (Hin : r ∈ EventRouter.translate task thread <$> update_parts ev).
        { pose proof (consume_subset acc
                        (EventRouter.translate task thread <$> update_parts ev))
            as Hs.
          rewrite E in Hs. by apply Hs. }
        apply list_elem_of_fmap in Hin as (p & -> & _).
        apply translate_of_task. }
      intros ?. apply yields_only_bind.
      { unfold apply_side_effects. apply yields_only_for_each. intros s _.
        case_bool_decide; [|yields_leaf].
        yields_leaf. }
      intros ?. destruct (_ || _); [yields_leaf|apply IH].
    + apply IH.
Qed.

Lemma consume_task (acc : ScheduledTaskResultAccumulator.t)
    (rs : list BaseResponse) :
  ScheduledTaskResultAccumulator._task
    (ScheduledTaskResultAccumulator.consume acc rs).1
  = ScheduledTaskResultAccumulator._task acc.
Proof.
  unfold ScheduledTaskResultAccumulator.consume.
  destruct (negb _); simpl; [done|]. by rewrite consume_loop_spec.
Qed.

Lemma remote_loop_task (task : Task) (thread : string)
    (items : list (RemoteTask * RemoteUpdate))
    (acc acc' : ScheduledTaskResultAccumulator.t) (w : World) :
  result (remote_loop task thread acc items w) = Returned (Some acc') →
  ScheduledTaskResultAccumulator._task acc'
  = ScheduledTaskResultAccumulator._task acc.
Proof.
  revert acc w. induction items as [|[remote_task event] items IH];
    intros acc w; simpl.
  - by intros [= ->].
  - destruct event as [|ev|].
    + case_bool_decide; [|apply IH].
      rewrite !result_bind. simpl. apply IH.
    + pose proof (consume_task acc
                    (EventRouter.translate task thread <$> update_parts ev))
        as Ht.
      destruct (ScheduledTaskResultAccumulator.consume acc _) as [acc1 out].
      simpl in Ht. rewrite !result_bind.
      destruct (result (for_each out yield w)); [|done].
      destruct (result (apply_side_effects _ _ _)); [|done].
      destruct (_ || _); [done|].
      intros H. apply IH in H. congruence.
    + apply IH.
Qed.

Lemma yields_only_single_task_run (task : Task) (thread : string)
    (inv : Invocation) :
  yields_only (of_task (task_id task))
    (_execute_single_task_run remote task thread inv).
Proof.
  unfold _execute_single_task_run. destruct (negb _); [yields_leaf|].
  apply yields_only_bind; [yields_leaf|]. intros ?.
  apply (yields_only_bind_post _
           (λ final, ∀ acc, final = Some acc →
                            ScheduledTaskResultAccumulator._task acc = task)).
  { intros w final H acc ->. by apply remote_loop_task in H. }
  { apply yields_only_remote_loop. }
  intros [acc|] Hacc; [|yields_leaf].
  specialize (Hacc acc eq_refl).
  destruct (transport_error inv); [yields_leaf|].
  unfold ScheduledTaskResultAccumulator.finalize.
  destruct (negb _); [yields_leaf|].
  apply yields_only_yield. intros id'. rewrite Hacc. simpl. congruence.
Qed.

Lemma yields_only_execute_task (task : Task) (thread : string)
    (on_before_done : option (Gen (option BaseResponse))) :
  (∀ callback, on_before_done = Some callback → ∀ w,
     yielded (callback w) = []
     ∧ ∀ r, result (callback w) = Returned (Some r) → of_task (task_id task) r) →
  yields_only (of_task (task_id task))
    (_execute_task remote task thread on_before_done).
Proof.
  intros Hcb. unfold _execute_task.
  apply yields_only_bind; [yields_leaf|].
  intros ?. apply yields_only_bind.
  { destruct (is_scheduled task); [|yields_leaf].
    apply yields_only_bind.
    { apply yields_only_yield. intros id'. simpl. congruence. }
    intros ?. apply yields_only_bind.
    - destruct on_before_done as [callback|]; [|yields_leaf].
      intros w. rewrite yielded_bind.
      destruct (Hcb callback eq_refl w) as [Hy Hr]. rewrite Hy. simpl.
      destruct (result (callback w)) as [[r|]|]; [|constructor..].
      simpl. constructor; [|constructor]. by apply Hr.
    - intros ?. apply yields_only_yield. intros id'. simpl. congruence. }
  intros ?. apply yields_only_try_finally; [|yields_leaf].
  apply yields_only_try_except.
  - apply yields_only_bind.
    { unfold run_loop. apply yields_only_bind.
      - apply yields_only_single_task_run.
      - intros ?. destruct (negb _); [yields_leaf|].
        apply yields_only_for_each. intros inv _.
        apply yields_only_single_task_run. }
    intros ?. apply yields_only_bind.
    { yields_leaf. }
    intros ?. apply yields_only_yield. intros id'. simpl. congruence.
  - intros exc. apply yields_only_bind; [|yields_leaf].
    yields_leaf.
Qed.

Lemma emit_subagent_end_once_spec (task : Task) (plan : ExecutionPlan)
    (thread component_id : string) (w : World) :
  yielded (emit_subagent_end_once task plan thread component_id w) = []
  ∧ ∀ r, result (emit_subagent_end_once task plan thread component_id w)
         = Returned (Some r) → of_task (task_id task) r.
Proof.
  unfold emit_subagent_end_once.
  destruct (negb _); simpl; [split; [done|congruence]|].
  unfold mbind, Gen_bind. simpl.
  case_bool_decide; simpl; [split; [done|congruence]|].
  split; [done|]. intros r [= <-]. intros id'. simpl. congruence.
Qed.

Lemma yields_only_single_task_in_plan (task : Task) (plan : ExecutionPlan)
    (thread : string) :
  yields_only (of_task (task_id task))
    (_execute_single_task_in_plan remote task plan thread).
Proof.
  unfold _execute_single_task_in_plan.
  apply yields_only_bind; [yields_leaf|].
  intros component_id.
  apply yields_only_bind; [yields_leaf|]. intros ?.
  apply yields_only_bind.
  { destruct (handoff_from_super_agent task); [|yields_leaf].
    apply yields_only_bind.
    { intros w. unfold ConversationService.ensure_conversation.
      destruct (conversations w !! _); constructor. }
    intros ?. unfold _emit_subagent_conversation_component.
    apply yields_only_ret_bind. apply yields_only_bind.
    - apply yields_only_yield. intros id'. simpl. congruence.
    - intros ?. apply yields_only_yield. intros id'. simpl. congruence. }
  intros ?. apply yields_only_try_finally.
  - apply yields_only_try_except.
    + apply yields_only_bind.
      { yields_leaf. }
      intros ?. apply yields_only_execute_task.
      intros callback Hcb w.
      destruct (handoff_from_super_agent task); [|done].
      injection Hcb as <-. apply emit_subagent_end_once_spec.
    + intros exc. apply yields_only_yield. intros id'. simpl. congruence.
  - destruct (handoff_from_super_agent task); [|yields_leaf].
    intros w. rewrite yielded_bind.
    destruct (emit_subagent_end_once_spec task plan thread component_id w)
      as [Hy Hr].
    rewrite Hy. simpl.
    destruct (result _) as [[r|]|]; [|constructor..].
    simpl. constructor; [|constructor]. by apply Hr.
Qed.

End TaskResponses.

Section BatchOrder.
Import TaskExecutor.
Variable remote : Remote.


Lemma yields_only_weaken {A} (P Q : BaseResponse → Prop) (m : Gen A) :
  (∀ r, P r → Q r) → yields_only P m → yields_only Q m.
Proof. intros H Hm w. eapply Forall_impl; [apply Hm|done]. Qed.

Lemma of_task_carries (ids : gset string) (t : Task) (r : BaseResponse) :
  task_id t ∈ ids → of_task (task_id t) r → carries ids r.
Proof. intros Hin Hr id E. by rewrite (Hr id E). Qed.

Lemma elem_of_concat {A} (ls : list (list A)) (i : nat) (l : list A) (x : A) :
  ls !! i = Some l → x ∈ l → x ∈ concat ls.
Proof.
  revert i. induction ls as [|l' ls IH]; intros [|i] Hl Hx; simpl in *;
    try done.
  - injection Hl as ->. apply elem_of_app. by left.
  - apply elem_of_app. right. by eapply IH.
Qed.

Lemma ids_of_concat (batches : list (list Task)) (i : nat) (batch : list Task) :
  batches !! i = Some batch → ids_of batch ⊆ ids_of (concat batches).
Proof.
  intros Hb id Hid. apply elem_of_ids_of in Hid as (t & Ht & <-).
  apply elem_of_ids_of. exists t. split; [|done]. by eapply elem_of_concat.
Qed.

Lemma ids_of_filter (P : Task → Prop) `{∀ t, Decision (P t)}
    (batch : list Task) :
  ids_of (filter P batch) ⊆ ids_of batch.
Proof.
  intros id Hid. apply elem_of_ids_of in Hid as (t & Ht & <-).
  apply elem_of_ids_of. exists t. split; [|done].
  by apply list_elem_of_filter in Ht as [_ ?].
Qed.

Lemma yields_only_merge (plan : ExecutionPlan) (thread : string)
    (tasks : list Task) :
  yields_only (carries (ids_of tasks))
    (_merge_task_responses
       ((λ task, _execute_single_task_in_plan remote task plan thread)
          <$> tasks)).
Proof.
  unfold _merge_task_responses. apply yields_only_for_each.
  intros gen Hgen. apply list_elem_of_fmap in Hgen as (t & -> & Ht).
  apply yields_only_try_except; [|intros ?; apply yields_only_ret].
  eapply yields_only_weaken; [|apply yields_only_single_task_in_plan].
  intros r. apply of_task_carries. apply elem_of_ids_of. by exists t.
Qed.

Lemma yields_only_mark_completed (plan : ExecutionPlan) (thread : string)
    (tasks : list Task) :
  yields_only (carries (ids_of tasks))
    (for_each tasks (mark_completed plan thread)).
Proof.
  apply yields_only_for_each. intros t Ht. apply yields_only_yield.
  intros id. simpl. intros [= <-]. apply elem_of_ids_of. by exists t.
Qed.

(** The responses of one batch come first, those of the later batches
    after them. *)
Lemma batches_loop_split (plan : ExecutionPlan) (thread : string)
    (batch : list Task) (rest : list (list Task))
    (completed in_progress : gset string) (w : World) :
  ∃ segment tail,
    yielded (batches_loop remote plan thread (batch :: rest)
               completed in_progress w)
    = segment ++ tail
    ∧ Forall (carries (ids_of batch)) segment
    ∧ (tail = []
       ∨ ∃ completed' in_progress' w',
           tail = yielded (batches_loop remote plan thread rest
                             completed' in_progress' w')).
Proof.
  simpl.
  set (tasks_to_execute := filter (λ t, deps_completed completed t) batch).
  assert (Hsub : ids_of tasks_to_execute ⊆ ids_of batch)
    by apply ids_of_filter.
  destruct tasks_to_execute as [|t0 l] eqn:E.
  - exists [], (yielded (batches_loop remote plan thread rest completed
                           in_progress w)).
    split; [done|]. split; [constructor|]. right. eauto.
  - rewrite <- E in *. clear E.
    assert (Himpl : ∀ rs, Forall (carries (ids_of tasks_to_execute)) rs →
                          Forall (carries (ids_of batch)) rs).
    { intros rs Hrs. eapply Forall_impl; [exact Hrs|].
      intros r Hr id Hid. apply Hsub. by apply Hr. }
    rewrite yielded_bind.
    set (generators := (λ task, _execute_single_task_in_plan remote task plan
                                  thread) <$> tasks_to_execute).
    pose proof (yields_only_merge plan thread tasks_to_execute w) as Hm.
    fold generators in Hm.
    set (merged := _merge_task_responses generators w) in *.
    destruct (result merged) as [[]|exc].
    + rewrite yielded_bind.
      pose proof (yields_only_mark_completed plan thread tasks_to_execute
                    (world merged)) as Hc.
      set (marked := for_each tasks_to_execute (mark_completed plan thread)
                       (world merged)) in *.
      destruct (result marked) as [[]|exc].
      * exists (yielded merged ++ yielded marked).
        eexists. rewrite <- app_assoc. split; [done|].
        split; [|right; eauto].
        apply Forall_app. split; by apply Himpl.
      * exists (yielded merged ++ yielded marked), [].
        rewrite <- app_assoc. split; [done|]. split; [|by left].
        apply Forall_app. split; by apply Himpl.
    + exists (yielded merged), []. split; [done|]. split; [|by left].
      by apply Himpl.
Qed.

Lemma batches_loop_carries (plan : ExecutionPlan) (thread : string)
    (batches : list (list Task)) :
  ∀ completed in_progress w,
    Forall (carries (ids_of (concat batches)))
      (yielded (batches_loop remote plan thread batches completed
                  in_progress w)).
Proof.
  induction batches as [|batch rest IH]; intros completed in_progress w.
  - constructor.
  - destruct (batches_loop_split plan thread batch rest completed
                in_progress w) as (segment & tail & -> & Hs & Ht).
    apply Forall_app. split.
    + eapply Forall_impl; [exact Hs|]. intros r Hr id Hid.
      apply (ids_of_concat (batch :: rest) 0 batch eq_refl). by apply Hr.
    + destruct Ht as [->|(c & ip & w' & ->)]; [constructor|].
      eapply Forall_impl; [apply IH|]. intros r Hr id Hid.
      specialize (Hr id Hid). apply elem_of_ids_of in Hr as (t & Ht & <-).
      apply elem_of_ids_of. exists t. split; [|done].
      simpl. apply elem_of_app. by right.
Qed.

(** Responses of an earlier batch come before those of a later one. *)
Lemma batches_loop_ordered (plan : ExecutionPlan) (thread : string)
    (batches : list (list Task)) :
  NoDup (task_id <$> concat batches) →
  ∀ completed in_progress w N M earlier later p q ea eb ida idb,
    (N < M)%nat →
    batches !! N = Some earlier → batches !! M = Some later →
    yielded (batches_loop remote plan thread batches completed
               in_progress w) !! p = Some ea →
    yielded (batches_loop remote plan thread batches completed
               in_progress w) !! q = Some eb →
    Response.task_id ea = Some ida → ida ∈ ids_of earlier →
    Response.task_id eb = Some idb → idb ∈ ids_of later →
    (p < q)%nat.
Proof.
  induction batches as [|batch rest IH]; intros Hnd completed in_progress w
    N M earlier later p q ea eb ida idb HNM HN HM Hp Hq Ea Ha Eb Hb.
  - done.
  - simpl in Hnd. rewrite fmap_app in Hnd.
    apply NoDup_app in Hnd as (_ & Hdisj & Hnd).
    assert (Hdisj' : ∀ id, id ∈ ids_of batch → id ∈ ids_of (concat rest) → False).
    { intros id H1 H2. unfold ids_of in *.
      apply elem_of_list_to_set in H1, H2. by eapply Hdisj. }
    destruct (batches_loop_split plan thread batch rest completed
                in_progress w) as (segment & tail & E & Hs & Ht).
    rewrite E in Hp, Hq.
    assert (Htail : ∀ i e id, tail !! i = Some e →
              Response.task_id e = Some id → id ∈ ids_of (concat rest)).
    { intros i e id Hi He.
      destruct Ht as [->|(c & ip & w' & ->)]; [done|].
      eapply (Forall_lookup_1 _ _ _ _ (batches_loop_carries plan thread rest
                                         c ip w') Hi); done. }
    destruct M as [|M]; [lia|]. simpl in HM.
    assert (Hq' : (length segment ≤ q)%nat).
    { destruct (decide (q < length segment)%nat) as [Hlt|]; [|lia].
      rewrite lookup_app_l in Hq by done.
      exfalso. apply (Hdisj' idb).
      - eapply (Forall_lookup_1 _ _ _ _ Hs Hq); done.
      - by apply (ids_of_concat rest M later HM). }
    destruct N as [|N]; simpl in HN.
    + injection HN as <-.
      destruct (decide (p < length segment)%nat) as [Hlt|Hge]; [lia|].
      rewrite lookup_app_r in Hp by lia.
      exfalso. apply (Hdisj' ida); [done|]. by eapply Htail.
    + assert (Hp' : (length segment ≤ p)%nat).
      { destruct (decide (p < length segment)%nat) as [Hlt|]; [|lia].
        rewrite lookup_app_l in Hp by done.
        exfalso. apply (Hdisj' ida).
        - eapply (Forall_lookup_1 _ _ _ _ Hs Hp); done.
        - by apply (ids_of_concat rest N earlier HN). }
      rewrite lookup_app_r in Hp, Hq by done.
      destruct Ht as [->|(c & ip & w' & ->)]; [done|].
      assert (p - length segment < q - length segment)%nat; [|lia].
      eapply (IH Hnd c ip w' N M earlier later); eauto. lia.
Qed.


End BatchOrder.


(** ** Cancelling a task *)

Section Cancel.
Import TaskApiService.

Lemma dict_get_set_eq (fields : list (string * json)) (key : string) (v : json) :
  PyDict.get key (PyDict.set key v fields) = Some v.
Proof.
  induction fields as [|[k v'] fields IH]; simpl.
  - by rewrite bool_decide_eq_true_2.
  - case_bool_decide as Hk; simpl.
    + by rewrite bool_decide_eq_true_2.
    + by rewrite bool_decide_eq_false_2.
Qed.

Lemma dict_get_set_ne (fields : list (string * json)) (key key' : string)
    (v : json) :
  key ≠ key' →
  PyDict.get key' (PyDict.set key v fields) = PyDict.get key' fields.
Proof.
  intros Hne. induction fields as [|[k v'] fields IH]; simpl.
  - by rewrite bool_decide_eq_false_2.
  - case_bool_decide as Hk; simpl.
    + subst k. by rewrite !bool_decide_eq_false_2.
    + by rewrite IH.
Qed.

Lemma dict_set_set (fields : list (string * json)) (key : string) (v : json) :
  PyDict.set key v (PyDict.set key v fields) = PyDict.set key v fields.
Proof.
  induction fields as [|[k v'] fields IH]; simpl.
  - by rewrite bool_decide_eq_true_2.
  - case_bool_decide as Hk; simpl.
    + by rewrite bool_decide_eq_true_2.
    + rewrite bool_decide_eq_false_2 by done. by rewrite IH.
Qed.

(** The shape of a row the loop writes. *)
Lemma cancelled_row_shape (item row : Item.t) :
  cancelled_row item = Some row →
  ∃ payload_fields content_fields,
    Item.payload row
    = Some (Json (JObject
        (PyDict.set "content"
           (JDocument (JObject
              (PyDict.set "task_status" (JString "cancelled") content_fields)))
           payload_fields)))
    ∧ loads_or_empty (Item.payload item) = Some (JObject payload_fields)
    ∧ (PyDict.get "content" payload_fields
         = Some (JDocument (JObject content_fields))
       ∨ (content_fields = []
          ∧ is_str (default JNull (PyDict.get "content" payload_fields))
            = false))
    ∧ Item.task_id row = Item.task_id item
    ∧ Item.event row = Item.event item
    ∧ Item.metadata row = Json <$> metadata_dict item
    ∧ Item.role row = Item.role item
    ∧ Item.conversation_id row = Item.conversation_id item
    ∧ Item.thread_id row = Item.thread_id item
    ∧ Item.agent_name row = Item.agent_name item.
Proof.
  unfold cancelled_row. intros H.
  destruct (loads_or_empty (Item.payload item)) as [payload_obj|] eqn:Ep;
    simpl in H; [|done].
  destruct payload_obj as [| | | | | |payload_fields]; simpl in H; try done.
  destruct (PyDict.get "content" payload_fields) as [content_raw|] eqn:Ec;
    simpl in H.
  - destruct content_raw as [|b|n|s|doc|items|fields]; simpl in H.
    1-3, 6-7: injection H as <-; exists payload_fields, []; rewrite Ec; simpl;
      repeat split; auto.
    + done.
    + destruct doc as [| | | | | |content_fields]; simpl in H; try done.
      injection H as <-. exists payload_fields, content_fields.
      rewrite Ec. simpl. repeat split; auto.
  - injection H as <-. exists payload_fields, []. rewrite Ec. simpl.
    repeat split; auto.
Qed.

(** A row the loop has written is written back unchanged. *)
Lemma cancelled_row_again (item row : Item.t) :
  cancelled_row item = Some row → cancelled_row row = Some row.
Proof.
  intros H.
  destruct (cancelled_row_shape _ _ H)
    as (pf & cf & Hp & _ & _ & Ht & He & Hm & Hr & Hc & Hth & Ha).
  unfold cancelled_row. rewrite Hp. simpl.
  rewrite dict_get_set_eq. simpl.
  rewrite !dict_set_set.
  assert (Hmeta : Json <$> metadata_dict row = Item.metadata row).
  { unfold metadata_dict. rewrite Hm.
    unfold metadata_dict. by destruct (Item.metadata item) as [[]|]. }
  rewrite Hmeta. destruct row. simpl in *. by subst.
Qed.

Lemma references_cancelled_row (task_id : string) (item row : Item.t) :
  cancelled_row item = Some row →
  references task_id row = references task_id item.
Proof.
  intros H.
  destruct (cancelled_row_shape _ _ H)
    as (pf & cf & Hp & Hl & Hc & Ht & _).
  unfold references. rewrite Ht, Hp, Hl. simpl.
  case_bool_decide; [done|].
  rewrite dict_get_set_eq. simpl.
  rewrite dict_get_set_ne by done.
  destruct Hc as [Hc|[-> Hc]].
  - rewrite Hc. simpl. done.
  - simpl. destruct (PyDict.get "content" pf) as [[]|]; simpl in *; try done.
Qed.

Lemma cancel_row_idempotent (task_id : string) (item : Item.t) :
  cancel_row task_id (cancel_row task_id item) = cancel_row task_id item.
Proof.
  unfold cancel_row.
  destruct (references task_id item) eqn:Hr; [|by rewrite Hr].
  destruct (cancelled_row item) as [row|] eqn:Hc; simpl.
  - rewrite (references_cancelled_row _ _ _ Hc), Hr.
    by rewrite (cancelled_row_again _ _ Hc).
  - by rewrite Hr, Hc.
Qed.

Lemma is_component_cancel_row (ct task_id : string) (item : Item.t) :
  ItemService.is_component ct (cancel_row task_id item)
  = ItemService.is_component ct item.
Proof.
  unfold cancel_row. destruct (references task_id item); [|done].
  destruct (cancelled_row item) as [row|] eqn:Hc; simpl; [|done].
  destruct (cancelled_row_shape _ _ Hc)
    as (pf & cf & Hp & Hl & _ & _ & He & _).
  unfold ItemService.is_component, ItemService.component_type_of.
  rewrite He, Hp. rewrite dict_get_set_ne by done.
  destruct (bool_decide (Item.event item = COMPONENT_GENERATOR)); [|done].
  simpl. unfold loads_or_empty in Hl.
  destruct (Item.payload item) as [[s|doc]|]; simpl in *.
  - destruct (PyStr.truthy s); [done|]. by injection Hl as <-.
  - by injection Hl as ->.
  - by injection Hl as <-.
Qed.

End Cancel.

Section CancelStore.
Import TaskApiService.

Lemma get_conversation_items_elem (ct : string) (store : ItemStore)
    (id : string) (row : Item.t) :
  (id, row) ∈ ItemService.get_conversation_items ct store
  ↔ id ∈ item_order store ∧ item_rows store !! id = Some row
    ∧ ItemService.is_component ct row = true.
Proof.
  unfold ItemService.get_conversation_items.
  rewrite list_elem_of_filter, list_elem_of_omap. simpl. split.
  - intros (Hc & id' & Hin & H).
    destruct (item_rows store !! id') as [row'|] eqn:E; simpl in H; [|done].
    injection H as -> ->. done.
  - intros (Hin & E & Hc). split; [done|]. exists id. split; [done|].
    by rewrite E.
Qed.


Lemma cancel_row_changes (task_id : string) (row : Item.t) :
  ¬ changes task_id row → cancel_row task_id row = row.
Proof.
  unfold changes, cancel_row. intros H.
  destruct (references task_id row); [|done].
  destruct (cancelled_row row); [|done]. exfalso. apply H. eauto.
Qed.

Lemma update_step_rows (task_id : string) (store : ItemStore)
    (id : string) (row : Item.t) :
  item_rows (update_step task_id store (id, row))
  = if references task_id row then
      match cancelled_row row with
      | Some row' => <[id := row']> (item_rows store)
      | None => item_rows store
      end
    else item_rows store.
Proof.
  unfold update_step. simpl.
  destruct (references task_id row); [|done].
  by destruct (cancelled_row row).
Qed.

Lemma fold_keep (task_id : string) (rows0 : gmap string Item.t)
    (items : list (string * Item.t)) (id : string) (row : Item.t) :
  rows_of rows0 items → rows0 !! id = Some row →
  ∀ store,
    item_rows store !! id = Some (cancel_row task_id row) →
    item_rows (foldl (update_step task_id) store items) !! id
    = Some (cancel_row task_id row).
Proof.
  intros Hrows Hrow. induction items as [|[id' row'] items IH]; intros store Hs.
  - done.
  - simpl. apply IH.
    + intros i r Hin. apply Hrows. by right.
    + rewrite update_step_rows.
      destruct (references task_id row') eqn:Hr; [|done].
      destruct (cancelled_row row') as [new|] eqn:Hc; [|done].
      destruct (decide (id' = id)) as [->|Hne].
      * rewrite lookup_insert_eq.
        assert (rows0 !! id = Some row') as E by (apply Hrows; by left).
        rewrite Hrow in E. injection E as <-.
        unfold cancel_row. by rewrite Hr, Hc.
      * by rewrite lookup_insert_ne.
Qed.

Lemma fold_hit (task_id : string) (rows0 : gmap string Item.t)
    (items : list (string * Item.t)) (id : string) (row : Item.t) :
  rows_of rows0 items → (id, row) ∈ items → changes task_id row →
  ∀ store,
    item_rows (foldl (update_step task_id) store items) !! id
    = Some (cancel_row task_id row).
Proof.
  intros Hrows Hin [Hr [new Hc]].
  induction items as [|[id' row'] items IH]; intros store.
  - by apply elem_of_nil in Hin.
  - simpl. apply elem_of_cons in Hin as [[= <- <-]|Hin].
    + eapply fold_keep.
      * intros i r Hi. apply Hrows. by right.
      * apply Hrows. by left.
      * rewrite update_step_rows, Hr, Hc, lookup_insert_eq.
        unfold cancel_row. by rewrite Hr, Hc.
    + apply IH; [|done]. intros i r Hi. apply Hrows. by right.
Qed.

Lemma fold_miss (task_id : string) (items : list (string * Item.t))
    (id : string) :
  (∀ row, (id, row) ∈ items → ¬ changes task_id row) →
  ∀ store,
    item_rows (foldl (update_step task_id) store items) !! id
    = item_rows store !! id.
Proof.
  induction items as [|[id' row'] items IH]; intros Hno store; [done|].
  simpl. rewrite IH.
  - rewrite update_step_rows.
    destruct (references task_id row') eqn:Hr; [|done].
    destruct (cancelled_row row') as [new|] eqn:Hc; [|done].
    destruct (decide (id' = id)) as [->|Hne]; [|by rewrite lookup_insert_ne].
    exfalso. apply (Hno row'); [by left|]. split; eauto.
  - intros row Hin. apply Hno. by right.
Qed.

Lemma fold_order (task_id : string) (items : list (string * Item.t)) :
  ∀ store,
    (∀ id row, (id, row) ∈ items → is_Some (item_rows store !! id)) →
    item_order (foldl (update_step task_id) store items) = item_order store.
Proof.
  induction items as [|[id row] items IH]; intros store Hs; [done|].
  simpl.
  assert (Hid : is_Some (item_rows store !! id)) by (eapply Hs; by left).
  assert (Ho : item_order (update_step task_id store (id, row))
               = item_order store).
  { unfold update_step. simpl. destruct (references task_id row); [|done].
    destruct (cancelled_row row); [|done].
    unfold ItemService.add_item. simpl. by destruct Hid as [? ->]. }
  rewrite IH, Ho; [done|].
  intros id' row' Hin. rewrite update_step_rows.
  assert (is_Some (item_rows store !! id')) by (eapply Hs; by right).
  destruct (references task_id row); [|done].
  destruct (cancelled_row row); [|done].
  destruct (decide (id = id')) as [->|]; [by rewrite lookup_insert_eq|].
  by rewrite lookup_insert_ne.
Qed.

(** The store after the loop, row by row. *)
Lemma cancel_store_rows (task_id : string) (store : ItemStore) (id : string) :
  item_rows (cancel_store task_id store) !! id
  = match item_rows store !! id with
    | Some row =>
        if bool_decide (id ∈ item_order store)
           && ItemService.is_component "scheduled_task_controller" row
        then Some (cancel_row task_id row) else Some row
    | None => None
    end.
Proof.
  unfold cancel_store.
  set (items := ItemService.get_conversation_items _ store).
  assert (Hrows : rows_of (item_rows store) items).
  { intros i r Hin. by apply get_conversation_items_elem in Hin as (_ & ? & _). }
  destruct (item_rows store !! id) as [row|] eqn:E.
  - destruct (bool_decide (id ∈ item_order store)
              && ItemService.is_component "scheduled_task_controller" row)
      eqn:Hb.
    + apply andb_true_iff in Hb as [Ho Hc]. apply bool_decide_eq_true in Ho.
      assert (Hin : (id, row) ∈ items)
        by (by apply get_conversation_items_elem).
      destruct (references task_id row) eqn:Hr;
        [destruct (cancelled_row row) as [new|] eqn:Hn|].
      * apply (fold_hit _ _ _ _ _ Hrows Hin). split; eauto.
      * rewrite fold_miss, E.
        -- unfold cancel_row. by rewrite Hr, Hn.
        -- intros r Hi [_ [? Hx]]. apply Hrows in Hi. congruence.
      * rewrite fold_miss, E.
        -- unfold cancel_row. by rewrite Hr.
        -- intros r Hi [Hx _]. apply Hrows in Hi. congruence.
    + rewrite fold_miss, E; [done|].
      intros r Hi _. apply get_conversation_items_elem in Hi as (Ho & Er & Hc).
      rewrite E in Er. injection Er as <-.
      rewrite Hc, andb_true_r in Hb. by apply bool_decide_eq_false in Hb.
  - rewrite fold_miss, E; [done|].
    intros r Hi _. apply Hrows in Hi. congruence.
Qed.

Lemma cancel_store_order (task_id : string) (store : ItemStore) :
  item_order (cancel_store task_id store) = item_order store.
Proof.
  unfold cancel_store. apply fold_order. intros id row Hin.
  apply get_conversation_items_elem in Hin as (_ & -> & _). eauto.
Qed.

Lemma ItemStore_eq (s1 s2 : ItemStore) :
  item_order s1 = item_order s2 → item_rows s1 = item_rows s2 → s1 = s2.
Proof. destruct s1, s2. simpl. by intros -> ->. Qed.

Lemma cancel_store_idempotent (task_id : string) (store : ItemStore) :
  cancel_store task_id (cancel_store task_id store)
  = cancel_store task_id store.
Proof.
  apply ItemStore_eq; [by rewrite !cancel_store_order|].
  apply map_eq. intros id.
  rewrite (cancel_store_rows task_id (cancel_store task_id store)).
  rewrite cancel_store_order, cancel_store_rows.
  destruct (item_rows store !! id) as [row|]; [|done].
  destruct (bool_decide (id ∈ item_order store)) eqn:Ho; simpl.
  - destruct (ItemService.is_component _ row) eqn:Hc.
    + by rewrite is_component_cancel_row, Hc, cancel_row_idempotent.
    + by rewrite Hc.
  - done.
Qed.

Lemma cancel_registry_idempotent (task_id : string)
    (reg : gmap string TaskStatus) :
  cancel_registry task_id (cancel_registry task_id reg)
  = cancel_registry task_id reg.
Proof.
  unfold cancel_registry.
  destruct (reg !! task_id) as [s|] eqn:E; [|by rewrite E].
  destruct (TaskService.is_finished s) eqn:Hf; [by rewrite E, Hf|].
  by rewrite lookup_insert_eq.
Qed.

(** The world after [cancel_and_update_component]. *)
Lemma update_loop_world (task_id : string) (items : list (string * Item.t)) :
  ∀ updated_ids w,
    world (update_loop task_id items updated_ids w)
    = set_item_store
        (λ _, foldl (update_step task_id) (item_store w) items) w
    ∧ ∃ ids, result (update_loop task_id items updated_ids w) = Returned ids.
Proof.
  induction items as [|[id row] items IH]; intros updated_ids w.
  - cbn. split; [by destruct w|eauto].
  - cbn [update_loop foldl].
    assert (Hstep : update_step task_id (item_store w) (id, row)
              = if references task_id row then
                  match cancelled_row row with
                  | Some new => ItemService.add_item id new (item_store w)
                  | None => item_store w
                  end
                else item_store w) by done.
    rewrite Hstep.
    destruct (references task_id row); [|apply IH].
    destruct (cancelled_row row) as [new|]; [|apply IH].
    destruct (IH (updated_ids ++ [id])
                 (set_item_store (ItemService.add_item id new) w))
      as [Hw [ids Hr]].
    unfold mbind, Gen_bind. cbn [modify world result yielded].
    split.
    + rewrite Hw. by destruct w.
    + exists ids. exact Hr.
Qed.

Lemma world_bind {A B} (m : Gen A) (k : A → Gen B) (w : World) (a : A) :
  result (m w) = Returned a →
  world ((m ≫= k) w) = world (k a (world (m w))).
Proof. intros H. unfold mbind, Gen_bind. by rewrite H. Qed.

Lemma cancel_task_world (task_id : string) (w : World) :
  world (TaskService.cancel_task task_id w)
  = set_task_registry (cancel_registry task_id) w
  ∧ ∃ b, result (TaskService.cancel_task task_id w) = Returned b.
Proof.
  unfold TaskService.cancel_task, cancel_registry, set_task_registry.
  destruct w as [reg ? ? ? ? ? ? ? ? ?]. simpl.
  destruct (reg !! task_id) as [s|] eqn:E; simpl.
  - destruct (TaskService.is_finished s); simpl; eauto.
  - eauto.
Qed.

Lemma cancel_world (task_id : string) (w : World) :
  world (cancel_and_update_component task_id w)
  = set_item_store (cancel_store task_id)
      (set_task_registry (cancel_registry task_id) w).
Proof.
  unfold cancel_and_update_component.
  destruct (cancel_task_world task_id w) as [Hw [b Hb]].
  rewrite (world_bind _ _ _ _ Hb), Hw.
  set (w1 := set_task_registry (cancel_registry task_id) w).
  rewrite (world_bind get_world _ w1 w1 eq_refl).
  cbn [get_world world].
  destruct (update_loop_world task_id
              (ItemService.get_conversation_items "scheduled_task_controller"
                 (item_store w1)) [] w1) as [Hu [ids Hi]].
  rewrite (world_bind _ _ _ _ Hi). cbn [mret Gen_ret world].
  rewrite Hu. unfold cancel_store. by destruct w1.
Qed.

End CancelStore.

Section CancelTheorem.
Import TaskApiService.

Lemma cancelled_row_status (item row : Item.t) :
  cancelled_row item = Some row →
  task_status_of row = Some (JString "cancelled").
Proof.
  intros H.
  destruct (cancelled_row_shape _ _ H) as (pf & cf & Hp & _).
  unfold task_status_of. rewrite Hp. simpl.
  rewrite dict_get_set_eq. simpl. by rewrite dict_get_set_eq.
Qed.

(** C9 (as amended).  Whether or not the task is in the registry, the
    cancel operation rewrites every persisted component_generator item of
    type scheduled_task_controller that references the task and whose
    payload and content parse as JSON objects, and the rewritten item shows
    task_status "cancelled"; the store it leaves depends on the store only,
    the registry it leaves on the registry only; and the operation is
    idempotent: run on the world it has left, it leaves that world
    unchanged. *)
Theorem cancel_updates_components_idempotently (task_id : string) (w : World) :
  let w1 := world (cancel_and_update_component task_id w) in
  (∀ id item row,
     (id, item) ∈ ItemService.get_conversation_items
                    "scheduled_task_controller" (item_store w) →
     references task_id item = true →
     cancelled_row item = Some row →
     item_rows (item_store w1) !! id = Some row
     ∧ task_status_of row = Some (JString "cancelled"))
  ∧ item_store w1 = cancel_store task_id (item_store w)
  ∧ task_registry w1 = cancel_registry task_id (task_registry w)
  ∧ world (cancel_and_update_component task_id w1) = w1.
Proof.
  intros w1. subst w1. rewrite !cancel_world.
  split; [|split; [|split]].
  - intros id item row Hin Hr Hc.
    split; [|by eapply cancelled_row_status].
    apply get_conversation_items_elem in Hin as (Ho & E & Hk).
    destruct w; simpl in *.
    rewrite cancel_store_rows, E, Hk.
    rewrite bool_decide_eq_true_2 by done. simpl.
    unfold cancel_row. by rewrite Hr, Hc.
  - by destruct w.
  - by destruct w.
  - destruct w; simpl.
    unfold set_item_store, set_task_registry. simpl.
    by rewrite cancel_store_idempotent, cancel_registry_idempotent.
Qed.

(** C9, worked case of the theorem: a live controller item of task-1,
    with the task absent from the registry. *)
Lemma cancel_updates_components_idempotently_witness :
  let w := Sample.world_with_item Sample.live_controller ∅ in
  let w1 := world (cancel_and_update_component "task-1" w) in
  task_status_of <$> (item_rows (item_store w1) !! "item-1")
  = Some (Some (JString "cancelled"))
  ∧ world (cancel_and_update_component "task-1" w1) = w1.
Proof.
  intros w w1.
  destruct (cancel_updates_components_idempotently "task-1" w)
    as (Hup & _ & _ & Hidem).
  split; [|exact Hidem].
  destruct (cancelled_row Sample.live_controller) as [row|] eqn:Hc;
    [|vm_compute in Hc; discriminate].
  destruct (Hup "item-1" Sample.live_controller row) as [H1 H2].
  - apply get_conversation_items_elem. vm_compute.
    split; [apply list_elem_of_singleton; reflexivity|]. split; reflexivity.
  - vm_compute. reflexivity.
  - exact Hc.
  - fold w1 in H1. rewrite H1. simpl. by rewrite H2.
Defined.

(** C9, the claim as stated fails: a persisted scheduled_task_controller
    item of task-1 whose content is not JSON is returned by the scan and
    references the task, and after the cancel of task-1 it is as it was,
    without task_status "cancelled". *)
Lemma broken_controller_is_not_cancelled :
  let w := Sample.world_with_item Sample.broken_controller
             {[ "task-1" := RUNNING ]} in
  let w1 := world (cancel_and_update_component "task-1" w) in
  ItemService.get_conversation_items "scheduled_task_controller" (item_store w)
  = [("item-1", Sample.broken_controller)]
  ∧ references "task-1" Sample.broken_controller = true
  ∧ task_registry w1 !! "task-1" = Some CANCELLED
  ∧ item_rows (item_store w1) !! "item-1" = Some Sample.broken_controller
  ∧ task_status_of Sample.broken_controller ≠ Some (JString "cancelled").
Proof.
  vm_compute. repeat split; discriminate.
Qed.

End CancelTheorem.

(* ================================================================== *)
(** * Part III. Further properties of the code *)
(* ================================================================== *)

(** ** One task of a plan: its terminal event *)

Section Runs.

Lemma yielded_try_except {A} (body : Gen A) (handler : string → Gen A)
    (w : World) :
  yielded (try_except body handler w)
  = yielded (body w)
    ++ match result (body w) with
       | Returned _ => []
       | Raised exc => yielded (handler exc (world (body w)))
       end.
Proof.
  unfold try_except. destruct (result (body w)); simpl; [|done].
  by rewrite app_nil_r.
Qed.

Lemma result_try_except {A} (body : Gen A) (handler : string → Gen A)
    (w : World) :
  result (try_except body handler w)
  = match result (body w) with
    | Returned a => Returned a
    | Raised exc => result (handler exc (world (body w)))
    end.
Proof. unfold try_except. by destruct (result (body w)) eqn:E. Qed.

Lemma world_try_except {A} (body : Gen A) (handler : string → Gen A)
    (w : World) :
  world (try_except body handler w)
  = match result (body w) with
    | Returned a => world (body w)
    | Raised exc => world (handler exc (world (body w)))
    end.
Proof. unfold try_except. by destruct (result (body w)) eqn:E. Qed.

Lemma filter_none {A} (P : A → Prop) `{∀ x, Decision (P x)} (l : list A) :
  Forall (λ x, ¬ P x) l → filter P l = [].
Proof.
  induction 1 as [|x l Hx _ IH]; [done|].
  rewrite filter_cons. by destruct (decide (P x)).
Qed.

End Runs.

Section Preserves.
Context {B : Type} (f : World → B).

Lemma preserves_ret {A} (a : A) : preserves f (mret a).
Proof. by intros w. Qed.

Lemma preserves_yield (r : BaseResponse) : preserves f (yield r).
Proof. by intros w. Qed.

Lemma preserves_raise {A} (exc : string) : preserves f (raise (A:=A) exc).
Proof. by intros w. Qed.

Lemma preserves_modify (g : World → World) :
  (∀ w, f (g w) = f w) → preserves f (modify g).
Proof. intros H w. apply H. Qed.

Lemma preserves_bind {A C} (m : Gen A) (k : A → Gen C) :
  preserves f m → (∀ a, preserves f (k a)) → preserves f (m ≫= k).
Proof.
  intros Hm Hk w. unfold mbind, Gen_bind.
  destruct (result (m w)); simpl; [rewrite Hk|]; apply Hm.
Qed.

Lemma preserves_try_except {A} (body : Gen A) (handler : string → Gen A) :
  preserves f body → (∀ exc, preserves f (handler exc)) →
  preserves f (try_except body handler).
Proof.
  intros Hb Hh w. unfold try_except.
  destruct (result (body w)); simpl; [|rewrite Hh]; apply Hb.
Qed.

Lemma preserves_try_finally {A} (body : Gen A) (final : Gen unit) :
  preserves f body → preserves f final → preserves f (try_finally body final).
Proof. intros Hb Hf w. unfold try_finally. simpl. rewrite Hf. apply Hb. Qed.

Lemma preserves_for_each {A} (xs : list A) (body : A → Gen unit) :
  (∀ x, preserves f (body x)) → preserves f (for_each xs body).
Proof.
  intros H. induction xs as [|x xs IH]; simpl.
  - apply preserves_ret.
  - apply preserves_bind; [apply H|]. intros ?. apply IH.
Qed.

Lemma preserves_for_each_in {A} (xs : list A) (body : A → Gen unit) :
  (∀ x, x ∈ xs → preserves f (body x)) → preserves f (for_each xs body).
Proof.
  induction xs as [|x xs IH]; intros H; simpl.
  - apply preserves_ret.
  - apply preserves_bind; [apply H; by left|]. intros ?.
    apply IH. intros y Hy. apply H. by right.
Qed.

End Preserves.

Section RunOfATask.
Import TaskExecutor.
Variable remote : Remote.

(** The remote stream of one run: what it yields, whatever the task. *)
Lemma remote_loop_yields (P : BaseResponse → Prop) (task : Task)
    (thread : string) :
  P (ResponseFactory.task_started (conversation_id task) thread
       (task_id task) (agent_name task)
       (if PyStr.truthy (title task) then title task else query task)) →
  (∀ acc ev, ScheduledTaskResultAccumulator._task acc = task →
     Forall P (ScheduledTaskResultAccumulator.consume acc
                 (responses (EventRouter.route_task_status task thread ev))).2) →
  ∀ items acc, ScheduledTaskResultAccumulator._task acc = task →
    yields_only P (remote_loop task thread acc items).
Proof.
  intros Hstart Hconsume.
  induction items as [|[remote_task event] items IH]; intros acc Hacc.
  - simpl. apply yields_only_ret.
  - simpl. destruct event as [|ev|].
    + case_bool_decide; [|by apply IH].
      apply yields_only_bind; [apply yields_only_modify|]. intros ?.
      apply yields_only_bind; [|intros ?; by apply IH].
      by apply yields_only_yield.
    + pose proof (Hconsume acc ev Hacc) as Hout.
      pose proof (consume_task acc
                    (responses (EventRouter.route_task_status task thread ev)))
        as Ht.
      destruct (ScheduledTaskResultAccumulator.consume acc _) as [acc' out].
      simpl in Hout, Ht.
      apply yields_only_bind.
      { apply yields_only_for_each. intros r Hr. apply yields_only_yield.
        by eapply Forall_forall in Hout. }
      intros ?. apply yields_only_bind.
      { unfold apply_side_effects. apply yields_only_for_each. intros s _.
        case_bool_decide; [apply yields_only_modify|apply yields_only_ret]. }
      intros ?. destruct (_ || _); [apply yields_only_ret|].
      apply IH. congruence.
    + by apply IH.
Qed.

Lemma consume_translated (acc : ScheduledTaskResultAccumulator.t)
    (task : Task) (thread : string) (ev : TaskStatusUpdateEvent) :
  Forall (λ r, ∃ p, r = EventRouter.translate task thread p)
    (ScheduledTaskResultAccumulator.consume acc
       (responses (EventRouter.route_task_status task thread ev))).2.
Proof.
  apply Forall_forall. intros r Hr. apply consume_subset in Hr.
  simpl in Hr. apply list_elem_of_fmap in Hr as (p & -> & _). by exists p.
Qed.

Lemma single_task_run_yields_gen (P : BaseResponse → Prop) (task : Task)
    (thread : string) (inv : Invocation) :
  P (ResponseFactory.task_started (conversation_id task) thread
       (task_id task) (agent_name task)
       (if PyStr.truthy (title task) then title task else query task)) →
  (∀ acc ev, ScheduledTaskResultAccumulator._task acc = task →
     Forall P (ScheduledTaskResultAccumulator.consume acc
                 (responses (EventRouter.route_task_status task thread ev))).2) →
  (∀ content, P (ResponseFactory.schedule_task_result_component task
                   (ScheduledTaskComponentContent content (utc_now remote)))) →
  yields_only P (_execute_single_task_run remote task thread inv).
Proof.
  intros Hstart Hconsume Hfinal.
  unfold _execute_single_task_run. destruct (negb _); [apply yields_only_raise|].
  apply yields_only_bind; [apply yields_only_modify|]. intros ?.
  apply (yields_only_bind_post _
           (λ final, ∀ acc, final = Some acc →
                            ScheduledTaskResultAccumulator._task acc = task)).
  { intros w final H acc ->. by apply remote_loop_task in H. }
  { by apply remote_loop_yields. }
  intros [acc|] Hacc; [|apply yields_only_ret].
  specialize (Hacc acc eq_refl).
  destruct (transport_error inv); [apply yields_only_raise|].
  unfold ScheduledTaskResultAccumulator.finalize.
  destruct (negb _); [apply yields_only_ret|].
  apply yields_only_yield. rewrite Hacc. apply Hfinal.
Qed.

Lemma run_loop_yields_gen (P : BaseResponse → Prop) (task : Task)
    (thread : string) :
  P (ResponseFactory.task_started (conversation_id task) thread
       (task_id task) (agent_name task)
       (if PyStr.truthy (title task) then title task else query task)) →
  (∀ acc ev, ScheduledTaskResultAccumulator._task acc = task →
     Forall P (ScheduledTaskResultAccumulator.consume acc
                 (responses (EventRouter.route_task_status task thread ev))).2) →
  (∀ content, P (ResponseFactory.schedule_task_result_component task
                   (ScheduledTaskComponentContent content (utc_now remote)))) →
  yields_only P (run_loop remote task thread).
Proof.
  intros Hstart Hconsume Hfinal. unfold run_loop.
  apply yields_only_bind; [by apply single_task_run_yields_gen|].
  intros ?. destruct (negb _); [apply yields_only_ret|].
  apply yields_only_for_each. intros inv _.
  by apply single_task_run_yields_gen.
Qed.

(** The runs of a task yield task_started responses, translations of
    the parts of the status updates and result components. *)
Lemma run_loop_yields (task : Task) (thread : string) :
  yields_only (run_response task thread (utc_now remote))
    (run_loop remote task thread).
Proof.
  apply run_loop_yields_gen.
  - by left.
  - intros acc ev _. eapply Forall_impl; [apply consume_translated|].
    intros r Hr. right. by left.
  - intros content. right. right. by eexists.
Qed.

(** The runs of a scheduled task yield no message, reasoning or tool-call
    response: the accumulator keeps them. *)
Lemma run_loop_scheduled_yields (task : Task) (thread : string) :
  is_scheduled task = true →
  yields_only (λ r, ¬ is_chatter r) (run_loop remote task thread).
Proof.
  intros Hs. apply run_loop_yields_gen.
  - intros [H|[H|H]]; by vm_compute in H.
  - intros acc ev Hacc.
    unfold ScheduledTaskResultAccumulator.consume,
      ScheduledTaskResultAccumulator.enabled.
    rewrite Hacc, Hs. simpl. rewrite consume_loop_spec. simpl.
    apply Forall_forall. intros r Hr.
    apply list_elem_of_filter in Hr as [Hf _].
    unfold ScheduledTaskResultAccumulator.forwarded in Hf.
    apply andb_prop in Hf as [Hf H3]. apply andb_prop in Hf as [H1 H2].
    apply negb_true_iff in H1, H2, H3.
    intros [H|[H|H]]; congruence.
  - intros content [H|[H|H]]; by vm_compute in H.
Qed.

Lemma remote_loop_preserves {B} (f : World → B) (task : Task)
    (thread : string) (items : list (RemoteTask * RemoteUpdate))
    (acc : ScheduledTaskResultAccumulator.t) :
  run_frame f → preserves f (remote_loop task thread acc items).
Proof.
  intros (Hreg & Hids & Hsent).
  revert acc. induction items as [|[remote_task event] items IH]; intros acc.
  - apply preserves_ret.
  - simpl. destruct event as [|ev|]; [| |apply IH].
    + case_bool_decide; [|apply IH].
      apply preserves_bind; [by apply preserves_modify|]. intros ?.
      apply preserves_bind; [apply preserves_yield|]. intros ?. apply IH.
    + destruct (ScheduledTaskResultAccumulator.consume acc _) as [acc' out].
      apply preserves_bind.
      { apply preserves_for_each. intros r. apply preserves_yield. }
      intros ?. apply preserves_bind.
      { apply preserves_for_each. intros s.
        case_bool_decide; [by apply preserves_modify|apply preserves_ret]. }
      intros ?. destruct (_ || _); [apply preserves_ret|apply IH].
Qed.

Lemma single_task_run_preserves {B} (f : World → B) (task : Task)
    (thread : string) (inv : Invocation) :
  run_frame f → preserves f (_execute_single_task_run remote task thread inv).
Proof.
  intros Hf. pose proof Hf as (Hreg & Hids & Hsent).
  unfold _execute_single_task_run. destruct (negb _); [apply preserves_raise|].
  apply preserves_bind; [by apply preserves_modify|]. intros ?.
  apply preserves_bind; [by apply remote_loop_preserves|].
  intros [acc|]; [|apply preserves_ret].
  destruct (transport_error inv); [apply preserves_raise|].
  destruct (ScheduledTaskResultAccumulator.finalize _ _);
    [apply preserves_yield|apply preserves_ret].
Qed.

Lemma run_loop_preserves {B} (f : World → B) (task : Task) (thread : string) :
  run_frame f → preserves f (run_loop remote task thread).
Proof.
  intros Hf. unfold run_loop.
  apply preserves_bind; [by apply single_task_run_preserves|].
  intros ?. destruct (negb _); [apply preserves_ret|].
  apply preserves_for_each. intros inv. by apply single_task_run_preserves.
Qed.

End RunOfATask.

Section GuardedRuns.
Import TaskExecutor.
Variable remote : Remote.

Lemma world_bind_cases {A B} (m : Gen A) (k : A → Gen B) (w : World) :
  world ((m ≫= k) w)
  = match result (m w) with
    | Returned a => world (k a (world (m w)))
    | Raised _ => world (m w)
    end.
Proof. unfold mbind, Gen_bind. by destruct (result (m w)). Qed.

(** The guarded part of [_execute_task]: the runs, then the completion or
    the exception raised again. *)
Lemma guarded_runs_trace (task : Task) (thread : string) (w : World) :
  let runs := run_loop remote task thread w in
  let r :=
    try_finally
      (try_except
         (run_loop remote task thread ;;
          TaskService.complete_task (task_id task) ;;
          yield (ResponseFactory.task_completed (conversation_id task) thread
                   (task_id task) (agent_name task)))
         (λ exc, TaskService.fail_task (task_id task) exc ;; raise exc))
      (mret tt) w in
  end_component_emitted (world r) = end_component_emitted w
  ∧ match result runs with
    | Returned _ =>
        result r = Returned tt
        ∧ yielded r
          = yielded runs
            ++ [ResponseFactory.task_completed (conversation_id task) thread
                  (task_id task) (agent_name task)]
    | Raised exc => result r = Raised exc ∧ yielded r = yielded runs
    end.
Proof.
  intros runs r. split.
  - subst r. revert w runs.
    apply (preserves_try_finally end_component_emitted);
      [|apply preserves_ret].
    apply preserves_try_except.
    + apply preserves_bind; [by apply run_loop_preserves|]. intros ?.
      apply preserves_bind; [by apply preserves_modify|]. intros ?.
      apply preserves_yield.
    + intros exc. apply preserves_bind; [by apply preserves_modify|].
      intros ?. apply preserves_raise.
  - subst r. unfold try_finally. simpl. rewrite app_nil_r.
    rewrite result_try_except, yielded_try_except.
    rewrite !result_bind, !yielded_bind. fold runs.
    destruct (result runs) as [[]|exc]; simpl.
    + by rewrite app_nil_r.
    + by rewrite !app_nil_r.
Qed.

End GuardedRuns.

(** ** Runs, step by step *)

Section Steps.

Lemma steps_intro {A} (m : Gen A) (w : World) :
  steps m w (yielded (m w)) (result (m w)) (world (m w)).
Proof. done. Qed.

Lemma steps_ret {A} (a : A) (w : World) : steps (mret a) w [] (Returned a) w.
Proof. done. Qed.

Lemma steps_yield (r : BaseResponse) (w : World) :
  steps (yield r) w [r] (Returned tt) w.
Proof. done. Qed.

Lemma steps_raise {A} (exc : string) (w : World) :
  steps (raise (A:=A) exc) w [] (Raised exc) w.
Proof. done. Qed.

Lemma steps_modify (f : World → World) (w : World) :
  steps (modify f) w [] (Returned tt) (f w).
Proof. done. Qed.

Lemma steps_get_world (w : World) : steps get_world w [] (Returned w) w.
Proof. done. Qed.

Lemma steps_bind {A B} (m : Gen A) (k : A → Gen B) (w w' w'' : World)
    (ys ys' : list BaseResponse) (a : A) (res : Result B) :
  steps m w ys (Returned a) w' → steps (k a) w' ys' res w'' →
  steps (m ≫= k) w (ys ++ ys') res w''.
Proof.
  intros (Hy & Hr & Hw) (Hy' & Hr' & Hw'). unfold steps, mbind, Gen_bind.
  rewrite Hr. simpl. by rewrite Hy, Hw, Hy', Hr', Hw'.
Qed.

Lemma steps_bind_eq {A B} (m : Gen A) (k : A → Gen B) (w w' w'' : World)
    (ys ys' zs : list BaseResponse) (a : A) (res : Result B) :
  steps m w ys (Returned a) w' → steps (k a) w' ys' res w'' →
  zs = ys ++ ys' → steps (m ≫= k) w zs res w''.
Proof. intros Hm Hk ->. by eapply steps_bind. Qed.

Lemma steps_bind_raise {A B} (m : Gen A) (k : A → Gen B) (w w' : World)
    (ys : list BaseResponse) (exc : string) :
  steps m w ys (Raised exc) w' → steps (m ≫= k) w ys (Raised exc) w'.
Proof.
  intros (Hy & Hr & Hw). unfold steps, mbind, Gen_bind.
  rewrite Hr. simpl. by rewrite Hy, Hw.
Qed.

Lemma steps_try_except_returned {A} (body : Gen A) (handler : string → Gen A)
    (w w' : World) (ys : list BaseResponse) (a : A) :
  steps body w ys (Returned a) w' →
  steps (try_except body handler) w ys (Returned a) w'.
Proof. intros (Hy & Hr & Hw). unfold steps, try_except. by rewrite Hr. Qed.

Lemma steps_try_except_raised {A} (body : Gen A) (handler : string → Gen A)
    (w w' w'' : World) (ys ys' : list BaseResponse) (exc : string)
    (res : Result A) :
  steps body w ys (Raised exc) w' → steps (handler exc) w' ys' res w'' →
  steps (try_except body handler) w (ys ++ ys') res w''.
Proof.
  intros (Hy & Hr & Hw) (Hy' & Hr' & Hw'). unfold steps, try_except.
  rewrite Hr. simpl. by rewrite Hy, Hw, Hy', Hr', Hw'.
Qed.

Lemma steps_try_finally {A} (body : Gen A) (final : Gen unit)
    (w w' w'' : World) (ys ys' : list BaseResponse) (res : Result A) :
  steps body w ys res w' → steps final w' ys' (Returned tt) w'' →
  steps (try_finally body final) w (ys ++ ys') res w''.
Proof.
  intros (Hy & Hr & Hw) (Hy' & Hr' & Hw'). unfold steps, try_finally. simpl.
  by rewrite Hw, Hy, Hy', Hr', Hr, Hw'.
Qed.

End Steps.

Section ExecuteTaskTrace.
Import TaskExecutor.
Variable remote : Remote.

Lemma emit_subagent_end_once_steps (task : Task) (plan : ExecutionPlan)
    (thread component_id : string) (w : World) :
  handoff_from_super_agent task = true →
  steps (emit_subagent_end_once task plan thread component_id) w []
    (Returned (if bool_decide (task_id task ∈ end_component_emitted w)
               then None
               else Some (subagent_component plan thread task component_id END)))
    (if bool_decide (task_id task ∈ end_component_emitted w) then w
     else set_end_component_emitted (λ s, {[task_id task]} ∪ s) w).
Proof.
  intros Hh. unfold emit_subagent_end_once. rewrite Hh. simpl.
  unfold steps, mbind, Gen_bind. simpl. by case_bool_decide.
Qed.

Lemma guarded_runs_steps (task : Task) (thread : string) (w : World) :
  ∃ w',
    steps
      (try_finally
         (try_except
            (run_loop remote task thread ;;
             TaskService.complete_task (task_id task) ;;
             yield (ResponseFactory.task_completed (conversation_id task)
                      thread (task_id task) (agent_name task)))
            (λ exc, TaskService.fail_task (task_id task) exc ;; raise exc))
         (mret tt)) w
      (yielded (run_loop remote task thread w)
       ++ match result (run_loop remote task thread w) with
          | Returned _ =>
              [ResponseFactory.task_completed (conversation_id task)
                 thread (task_id task) (agent_name task)]
          | Raised _ => []
          end)
      (result (run_loop remote task thread w)) w'
    ∧ end_component_emitted w' = end_component_emitted w.
Proof.
  pose proof (guarded_runs_trace remote task thread w) as [Hw Hr].
  simpl in Hw, Hr.
  destruct (result (run_loop remote task thread w)) as [[]|exc];
    destruct Hr as [Hres Hy]; eexists; (split; [|exact Hw]).
  - split; [exact Hy|]. split; [exact Hres|done].
  - rewrite app_nil_r. split; [exact Hy|]. split; [exact Hres|done].
Qed.

Lemma execute_task_steps (task : Task) (plan : ExecutionPlan)
    (thread component_id : string) (w : World) :
  task_id task ∉ end_component_emitted w →
  ∃ w0 w',
    steps
      (_execute_task remote task thread
         (if handoff_from_super_agent task
          then Some (emit_subagent_end_once task plan thread component_id)
          else None)) w
      (schedule_prelude plan thread task component_id
       ++ yielded (run_loop remote task thread w0)
       ++ match result (run_loop remote task thread w0) with
          | Returned _ =>
              [ResponseFactory.task_completed (conversation_id task)
                 thread (task_id task) (agent_name task)]
          | Raised _ => []
          end)
      (result (run_loop remote task thread w0)) w'
    ∧ (task_id task ∈ end_component_emitted w'
       ↔ handoff_from_super_agent task = true ∧ is_scheduled task = true).
Proof.
  intros Hflag. unfold _execute_task, schedule_prelude.
  set (w1 := set_task_registry (TaskService.transition RUNNING (task_id task)) w).
  assert (Hflag1 : task_id task ∉ end_component_emitted w1) by done.
  destruct (is_scheduled task) eqn:Hs;
    [destruct (handoff_from_super_agent task) eqn:Hh|].
  - set (w2 := set_end_component_emitted (λ s, {[task_id task]} ∪ s) w1).
    destruct (guarded_runs_steps task thread w2) as (w' & Hsteps & Hw').
    exists w2, w'. split.
    + eapply (steps_bind _ _ _ _ _ []); [apply steps_modify|]. fold w1.
      eapply (steps_bind _ _ _ w2 _ [_; _; _]); [|exact Hsteps].
      eapply (steps_bind _ _ _ _ _ [_]); [apply steps_yield|].
      eapply (steps_bind _ _ _ w2 _ [_] [_]); [|apply steps_yield].
      eapply (steps_bind _ _ _ w2 _ [] [_] (Some _));
        [|apply steps_yield].
      pose proof (emit_subagent_end_once_steps task plan thread component_id
                    w1 Hh) as He.
      by rewrite bool_decide_eq_false_2 in He by done.
    + rewrite Hw'. subst w2. simpl. split; [done|]. intros _. set_solver.
  - destruct (guarded_runs_steps task thread w1) as (w' & Hsteps & Hw').
    exists w1, w'. split.
    + eapply (steps_bind _ _ _ _ _ []); [apply steps_modify|]. fold w1.
      eapply (steps_bind _ _ _ w1 _ [_; _]); [|exact Hsteps].
      eapply (steps_bind _ _ _ _ _ [_]); [apply steps_yield|].
      eapply (steps_bind _ _ _ w1 _ [] [_]); [apply steps_ret|].
      apply steps_yield.
    + rewrite Hw'. split; [done|]. by intros [? _].
  - destruct (guarded_runs_steps task thread w1) as (w' & Hsteps & Hw').
    exists w1, w'. split.
    + eapply (steps_bind _ _ _ _ _ []); [apply steps_modify|]. fold w1.
      eapply (steps_bind _ _ _ w1 _ []); [apply steps_ret|exact Hsteps].
    + rewrite Hw'. split; [done|]. by intros [_ ?].
Qed.

End ExecuteTaskTrace.

Section TaskTrace.
Import TaskExecutor.
Variable remote : Remote.

Lemma steps_generate_uuid (prefix : string) (w : World) :
  steps (generate_uuid prefix) w []
    (Returned (prefix +:+ "-" +:+ pretty (uuid_counter w)))
    (set_uuid_counter S w).
Proof. done. Qed.

Lemma steps_ensure_conversation (user_id conversation_id agent_name : string)
    (title : option string) (w : World) :
  ∃ c w',
    steps (ConversationService.ensure_conversation user_id conversation_id
             agent_name title) w [] (Returned c) w'
    ∧ end_component_emitted w' = end_component_emitted w.
Proof.
  unfold ConversationService.ensure_conversation, steps.
  destruct (conversations w !! conversation_id); simpl; eauto 10.
Qed.

(** The whole trace of one task of a plan: no exception escapes, and the
    responses are those of [task_trace] around the responses of the runs. *)
Lemma single_task_in_plan_spec (task : Task) (plan : ExecutionPlan)
    (thread : string) (w : World) :
  ∃ w0 w',
    steps (_execute_single_task_in_plan remote task plan thread) w
      (task_trace plan thread task ("item" +:+ "-" +:+ pretty (uuid_counter w))
         (yielded (run_loop remote task thread w0))
         (closing_of plan thread task (result (run_loop remote task thread w0))))
      (Returned tt) w'.
Proof.
  unfold _execute_single_task_in_plan, task_trace.
  set (component_id := "item" +:+ "-" +:+ pretty (uuid_counter w)).
  set (w1 := set_end_component_emitted (λ s, s ∖ {[task_id task]})
               (set_uuid_counter S w)).
  assert (Hflag : task_id task ∉ end_component_emitted w1).
  { subst w1. simpl. set_solver. }
  assert (∃ w2, steps
            (if handoff_from_super_agent task then
               ConversationService.ensure_conversation (Plan.user_id plan)
                 (conversation_id task) (agent_name task) (Some (title task)) ;;
               start ← _emit_subagent_conversation_component
                          (Plan.conversation_id plan) thread task
                          component_id START;
               yield start ;;
               yield (ResponseFactory.thread_started (conversation_id task)
                        thread (query task))
             else mret tt) w1
            (if handoff_from_super_agent task
             then [subagent_component plan thread task component_id START;
                   ResponseFactory.thread_started (conversation_id task)
                     thread (query task)]
             else [])
            (Returned tt) w2
          ∧ task_id task ∉ end_component_emitted w2) as (w2 & Hopen & Hflag2).
  { destruct (handoff_from_super_agent task).
    - destruct (steps_ensure_conversation (Plan.user_id plan)
                  (conversation_id task) (agent_name task)
                  (Some (title task)) w1) as (c & w2 & Hc & Hw2).
      exists w2. split; [|by rewrite Hw2].
      eapply (steps_bind _ _ _ _ _ []); [exact Hc|].
      eapply (steps_bind _ _ _ _ _ []); [apply steps_ret|].
      eapply (steps_bind _ _ _ _ _ [_] [_]); apply steps_yield.
    - exists w1. split; [apply steps_ret|done]. }
  set (w3 := set_task_registry
               (λ reg, match reg !! task_id task with
                       | Some _ => reg
                       | None => <[task_id task := status task]> reg
                       end) w2).
  assert (Hflag3 : task_id task ∉ end_component_emitted w3) by done.
  destruct (execute_task_steps remote task plan thread component_id w3 Hflag3)
    as (w0 & w4 & Hexec & Hflag4).
  exists w0.
  set (runs := yielded (run_loop remote task thread w0)) in *.
  set (res := result (run_loop remote task thread w0)) in *.
  clearbody runs res.
  assert (Hbody : steps
            (TaskService.update_task task ;;
             _execute_task remote task thread
               (if handoff_from_super_agent task
                then Some (emit_subagent_end_once task plan thread component_id)
                else None)) w2
            (schedule_prelude plan thread task component_id ++ runs
             ++ match res with
                | Returned _ =>
                    [ResponseFactory.task_completed (conversation_id task)
                       thread (task_id task) (agent_name task)]
                | Raised _ => []
                end) res w4).
  { eapply (steps_bind _ _ _ _ _ []); [apply steps_modify|exact Hexec]. }
  assert (∃ w5, steps
            (if handoff_from_super_agent task then
               end_resp ← emit_subagent_end_once task plan thread component_id;
               match end_resp with
               | Some resp => yield resp
               | None => mret tt
               end
             else mret tt) w4
            (if handoff_from_super_agent task && negb (is_scheduled task)
             then [subagent_component plan thread task component_id END]
             else [])
            (Returned tt) w5) as (w5 & Hfinally).
  { destruct (handoff_from_super_agent task) eqn:Hh; [|eexists; apply steps_ret].
    pose proof (emit_subagent_end_once_steps task plan thread
                  component_id w4 Hh) as He.
    destruct (is_scheduled task) eqn:Hs; simpl.
    - rewrite bool_decide_eq_true_2 in He by (by apply Hflag4).
      eexists. eapply (steps_bind _ _ _ _ _ [] []); [exact He|apply steps_ret].
    - rewrite bool_decide_eq_false_2 in He by (rewrite Hflag4; by intros [_ ?]).
      eexists. eapply (steps_bind _ _ _ _ _ [] [_]); [exact He|apply steps_yield]. }
  exists w5.
  eapply (steps_bind _ _ _ _ _ []); [apply steps_generate_uuid|].
  eapply (steps_bind _ _ _ _ _ []); [apply steps_modify|].
  eapply steps_bind; [exact Hopen|].
  rewrite !app_assoc. eapply steps_try_finally; [|exact Hfinally].
  destruct res as [[]|exc]; simpl.
  - apply steps_try_except_returned. by rewrite <- !app_assoc.
  - rewrite <- !app_assoc. rewrite app_nil_r in Hbody.
    rewrite (app_assoc _ runs).
    eapply steps_try_except_raised; [exact Hbody|apply steps_yield].
Qed.

End TaskTrace.

(** ** The trace of one task of a plan *)

Section OneTaskOfAPlan.
Import TaskExecutor.
Variable remote : Remote.

Lemma run_response_not_terminal (task : Task) (thread now : string)
    (r : BaseResponse) :
  run_response task thread now r → ¬ terminal r.
Proof.
  intros [->|[[p ->]|[content ->]]] [H|H]; try destruct p; discriminate.
Qed.

Lemma run_response_not_subagent (task : Task) (thread now : string)
    (phase : SubagentConversationPhase) (r : BaseResponse) :
  run_response task thread now r → is_subagent_component phase r ≠ true.
Proof.
  intros [->|[[p ->]|[content ->]]]; try destruct p; by destruct phase.
Qed.

Lemma filter_task_trace (P : BaseResponse → Prop) `{∀ r, Decision (P r)}
    (plan : ExecutionPlan) (thread : string) (task : Task)
    (component_id : string) (runs : list BaseResponse)
    (closing : BaseResponse) :
  Forall (λ r, ¬ P r) runs →
  filter P (task_trace plan thread task component_id runs closing)
  = filter P
      (if handoff_from_super_agent task
       then [subagent_component plan thread task component_id START;
             ResponseFactory.thread_started (conversation_id task) thread
               (query task)]
       else [])
    ++ filter P (schedule_prelude plan thread task component_id)
    ++ filter P [closing]
    ++ filter P
         (if handoff_from_super_agent task && negb (is_scheduled task)
          then [subagent_component plan thread task component_id END]
          else []).
Proof.
  intros Hruns. unfold task_trace. rewrite !filter_app.
  by rewrite (filter_none P runs Hruns).
Qed.

Lemma closing_of_terminal (plan : ExecutionPlan) (thread : string)
    (task : Task) (res : Result unit) :
  terminal (closing_of plan thread task res).
Proof. destruct res; [by left|by right]. Qed.

(** The terminal events among the responses of one task of a plan. *)
Lemma single_task_terminal_events (task : Task) (plan : ExecutionPlan)
    (thread : string) (w : World) :
  let r := _execute_single_task_in_plan remote task plan thread w in
  result r = Returned tt
  ∧ ∃ res, filter terminal (yielded r) = [closing_of plan thread task res].
Proof.
  intros r. subst r.
  destruct (single_task_in_plan_spec remote task plan thread w)
    as (w0 & w' & Hy & Hr & _).
  split; [done|]. exists (result (run_loop remote task thread w0)).
  rewrite Hy. rewrite filter_task_trace.
  2:{ eapply Forall_impl; [apply run_loop_yields|].
      intros r. apply run_response_not_terminal. }
  pose proof (closing_of_terminal plan thread task
                (result (run_loop remote task thread w0))) as Hc.
  rewrite (filter_cons _ (closing_of _ _ _ _)), decide_True by done.
  unfold schedule_prelude.
  destruct (handoff_from_super_agent task), (is_scheduled task); done.
Qed.


(** X2.  The START and END components of the conversation of a task
    handed off by the super agent are yielded once each, under one
    component id; a task that was not handed off yields none.  The END
    component is not repeated by the [finally] branch when the scheduled
    prelude has yielded it. *)
Theorem subagent_components_once (task : Task) (plan : ExecutionPlan)
    (thread : string) (w : World) :
  ∃ component_id, ∀ phase,
    filter (λ r, is_subagent_component phase r = true)
      (yielded (_execute_single_task_in_plan remote task plan thread w))
    = if handoff_from_super_agent task
      then [subagent_component plan thread task component_id phase]
      else [].
Proof.
  destruct (single_task_in_plan_spec remote task plan thread w)
    as (w0 & w' & Hy & _ & _).
  eexists. intros phase. rewrite Hy. rewrite filter_task_trace.
  2:{ eapply Forall_impl; [apply run_loop_yields|].
      intros r. apply run_response_not_subagent. }
  assert (Hc : is_subagent_component phase
                 (closing_of plan thread task
                    (result (run_loop remote task thread w0))) ≠ true).
  { by destruct (result _), phase. }
  rewrite (filter_cons _ (closing_of _ _ _ _)), decide_False by done.
  unfold schedule_prelude.
  destruct (handoff_from_super_agent task), (is_scheduled task), phase; done.
Qed.

(** X3.  A scheduled (RECURRING) task yields no message chunk, reasoning
    or tool-call response at all: what the remote agent streams is kept
    for the result component. *)
Theorem scheduled_task_streams_no_chunks (task : Task) (plan : ExecutionPlan)
    (thread : string) (w : World) :
  pattern task = RECURRING →
  Forall (λ r, ¬ is_chatter r)
    (yielded (_execute_single_task_in_plan remote task plan thread w)).
Proof.
  intros Hp.
  assert (Hs : is_scheduled task = true).
  { unfold is_scheduled. by rewrite bool_decide_eq_true. }
  destruct (single_task_in_plan_spec remote task plan thread w)
    as (w0 & w' & Hy & _ & _).
  rewrite Hy. unfold task_trace, schedule_prelude. rewrite Hs.
  assert (Hno : ∀ r, Response.event r ≠ MESSAGE_CHUNK →
                     Response.event r ≠ REASONING →
                     Response.event r ≠ TOOL_CALL_STARTED →
                     Response.event r ≠ TOOL_CALL_COMPLETED →
                     ¬ is_chatter r).
  { intros r H1 H2 H3 H4 [H|[H|H]].
    - by apply bool_decide_eq_true in H.
    - by apply bool_decide_eq_true in H.
    - apply orb_prop in H as [H|H]; by apply bool_decide_eq_true in H. }
  repeat first
    [ apply Forall_app; split
    | apply Forall_cons; split
    | apply Forall_nil ];
    try (by apply run_loop_scheduled_yields);
    try (destruct (handoff_from_super_agent task); simpl;
         repeat constructor; by apply Hno);
    try (destruct (result _); by apply Hno);
    try (by apply Hno).
Qed.

(** X4.  When no client is found for the agent of a task, the task sends
    nothing that belongs to a run and ends with task_failed, whose text
    names the task and the agent. *)
Theorem unreachable_agent_fails_the_task (task : Task) (plan : ExecutionPlan)
    (thread : string) (w : World) :
  client_found (first_run (invocations remote (task_id task))) = false →
  ∃ component_id,
    yielded (_execute_single_task_in_plan remote task plan thread w)
    = task_trace plan thread task component_id []
        (ResponseFactory.task_failed (Plan.conversation_id plan) thread
           (task_id task)
           ("(Error) Error executing " +:+ task_id task
            +:+ ": Could not connect to agent " +:+ agent_name task)
           (agent_name task)).
Proof.
  intros Hc.
  destruct (single_task_in_plan_spec remote task plan thread w)
    as (w0 & w' & Hy & _ & _).
  eexists. rewrite Hy.
  assert (Hrun : yielded (run_loop remote task thread w0) = []
                 ∧ result (run_loop remote task thread w0)
                   = Raised ("Could not connect to agent " +:+ agent_name task)).
  { unfold run_loop. rewrite yielded_bind, result_bind.
    unfold _execute_single_task_run. rewrite Hc. simpl. done. }
  destruct Hrun as [-> ->]. done.
Qed.

End OneTaskOfAPlan.

(** ** A whole plan *)

Section PlanReturns.
Import TaskExecutor.
Variable remote : Remote.

Lemma single_task_in_plan_returns (task : Task) (plan : ExecutionPlan)
    (thread : string) :
  returns (_execute_single_task_in_plan remote task plan thread).
Proof.
  intros w.
  destruct (single_task_in_plan_spec remote task plan thread w)
    as (w0 & w' & _ & Hr & _).
  by exists tt.
Qed.

Lemma returns_unit (m : Gen unit) (w : World) :
  returns m → result (m w) = Returned tt.
Proof. intros H. destruct (H w) as [[] ->]. done. Qed.

Lemma returns_bind {A B} (m : Gen A) (k : A → Gen B) :
  returns m → (∀ a, returns (k a)) → returns (m ≫= k).
Proof.
  intros Hm Hk w. rewrite result_bind. destruct (Hm w) as [a ->]. apply Hk.
Qed.

Lemma returns_for_each {A} (xs : list A) (body : A → Gen unit) :
  (∀ x, returns (body x)) → returns (for_each xs body).
Proof.
  intros H. induction xs as [|x xs IH]; simpl.
  - intros w. by exists tt.
  - apply returns_bind; [apply H|]. intros ?. apply IH.
Qed.

Lemma returns_yield (r : BaseResponse) : returns (yield r).
Proof. intros w. by exists tt. Qed.

Lemma merge_returns (gens : list (Gen unit)) :
  returns (_merge_task_responses gens).
Proof.
  unfold _merge_task_responses. apply returns_for_each. intros gen w.
  rewrite result_try_except. destruct (result (gen w)); by eexists.
Qed.

Lemma mark_completed_trace (plan : ExecutionPlan) (thread : string)
    (tasks : list Task) (w : World) :
  yielded (for_each tasks (mark_completed plan thread) w)
  = (λ task, ResponseFactory.task_completed (Plan.conversation_id plan) thread
               (task_id task) (agent_name task)) <$> tasks.
Proof.
  revert w. induction tasks as [|t tasks IH]; intros w; [done|].
  cbn [for_each]. rewrite yielded_bind. cbn [mark_completed yield yielded result world app fmap list_fmap].
  by rewrite IH.
Qed.

Lemma batches_loop_returns (plan : ExecutionPlan) (thread : string)
    (batches : list (list Task)) :
  ∀ completed in_progress,
    returns (batches_loop remote plan thread batches completed in_progress).
Proof.
  induction batches as [|batch rest IH]; intros completed in_progress; simpl.
  - intros w. by exists tt.
  - destruct (filter _ batch) as [|t0 l]; [apply IH|].
    apply returns_bind; [apply merge_returns|]. intros ?.
    apply returns_bind; [|intros ?; apply IH].
    apply returns_for_each. intros t. apply returns_yield.
Qed.

Lemma execute_plan_returns (plan : ExecutionPlan) (thread : string) :
  returns (execute_plan remote plan thread).
Proof.
  unfold execute_plan. destruct (PyStr.truthy_opt _).
  - apply returns_bind; [intros w'; by eexists|]. intros ?. apply returns_yield.
  - destruct (negb _).
    + apply returns_for_each. intros t. apply single_task_in_plan_returns.
    + apply batches_loop_returns.
Qed.

(** X5.  No exception escapes [execute_plan], whatever the plan and
    whatever the remote agents do (a missing client and an error of the
    remote stream end in task_failed): a plan with a guidance message, a
    plan run task by task and a plan run batch by batch all end
    normally. *)
Theorem execute_plan_never_raises (plan : ExecutionPlan) (thread : string)
    (w : World) :
  result (execute_plan remote plan thread w) = Returned tt.
Proof. apply returns_unit. apply execute_plan_returns. Qed.

Lemma sequential_terminal_events (plan : ExecutionPlan) (thread : string)
    (tasks : list Task) (w : World) :
  Forall2 (λ task closing, ∃ res, closing = closing_of plan thread task res)
    tasks
    (filter terminal
       (yielded (for_each tasks
                   (λ task, _execute_single_task_in_plan remote task plan thread)
                   w))).
Proof.
  revert w. induction tasks as [|t tasks IH]; intros w.
  - constructor.
  - cbn [for_each]. rewrite yielded_bind, filter_app.
    destruct (single_task_terminal_events remote t plan thread w)
      as (Hr & res & Hf).
    rewrite Hr, Hf. simpl. constructor; [by exists res|apply IH].
Qed.

End PlanReturns.

Section PlanDependencies.
Import TaskExecutor.
Variable remote : Remote.

Lemma no_dependencies (tasks : list Task) :
  (∀ t, t ∈ tasks → depends_on t = []) →
  existsb (λ task, negb (bool_decide (depends_on task = []))) tasks = false.
Proof.
  intros H. apply not_true_iff_false. intros He.
  apply existsb_exists in He as (t & Hin & Ht).
  apply list_elem_of_In in Hin. apply H in Hin.
  apply negb_true_iff, bool_decide_eq_false in Ht. done.
Qed.

(** X6.  A plan without guidance message whose tasks have no dependencies
    is run task by task, and its terminal events are one per task, in the
    order of the plan: task_completed or task_failed of that task. *)
Theorem sequential_plan_one_terminal_event_per_task (plan : ExecutionPlan)
    (thread : string) (w : World) :
  PyStr.truthy_opt (Plan.guidance_message plan) = false →
  (∀ t, t ∈ Plan.tasks plan → depends_on t = []) →
  Forall2 (λ task closing, ∃ res, closing = closing_of plan thread task res)
    (Plan.tasks plan)
    (filter terminal (yielded (execute_plan remote plan thread w))).
Proof.
  intros Hg Hd. unfold execute_plan. rewrite Hg, no_dependencies by done.
  apply sequential_terminal_events.
Qed.

(** What a batch run has completed is reported before the next batch:
    every response of a task comes after the task_completed of each of
    its dependencies. *)
Lemma batches_loop_dependencies (plan : ExecutionPlan) (thread : string)
    (batches : list (list Task)) :
  ∀ completed in_progress w pre p r i,
    (∀ d, d ∈ completed →
       ∃ c, c ∈ pre ∧ Response.event c = TASK_COMPLETED
            ∧ Response.task_id c = Some d) →
    yielded (batches_loop remote plan thread batches completed in_progress w)
      !! p = Some r →
    Response.task_id r = Some i →
    ∃ t, t ∈ concat batches ∧ task_id t = i
         ∧ ∀ d, d ∈ depends_on t →
             ∃ c, c ∈ pre ++ take p (yielded (batches_loop remote plan thread
                                                batches completed in_progress w))
                  ∧ Response.event c = TASK_COMPLETED
                  ∧ Response.task_id c = Some d.
Proof.
  induction batches as [|batch rest IH];
    intros completed in_progress w pre p r i Hpre Hp Hi; [done|].
  cbn [batches_loop] in *.
  set (tasks_to_execute := filter (λ t, deps_completed completed t) batch) in *.
  destruct tasks_to_execute as [|t0 l] eqn:E.
  - destruct (IH completed in_progress w pre p r i Hpre Hp Hi)
      as (t & Ht & Hid & Hdeps).
    exists t. split; [|done]. simpl. apply elem_of_app. by right.
  - rewrite <- E in *. clear E t0 l.
    set (generators := (λ task, _execute_single_task_in_plan remote task plan
                                  thread) <$> tasks_to_execute) in *.
    rewrite yielded_bind in Hp |- *.
    pose proof (yields_only_merge remote plan thread tasks_to_execute w) as Hm.
    fold generators in Hm.
    rewrite (returns_unit _ w (merge_returns generators)) in Hp |- *.
    set (merged := _merge_task_responses generators w) in *.
    rewrite yielded_bind in Hp |- *.
    rewrite (returns_unit _ (world merged)) in Hp |- *
      by (apply returns_for_each; intros ?; apply returns_yield).
    rewrite mark_completed_trace in Hp |- *.
    set (marked := (λ task, ResponseFactory.task_completed
                              (Plan.conversation_id plan) thread
                              (task_id task) (agent_name task))
                   <$> tasks_to_execute) in *.
    set (tail := yielded (batches_loop remote plan thread rest _ _ _)) in *.
    assert (Hexec : ∀ t, t ∈ tasks_to_execute →
              t ∈ concat (batch :: rest)
              ∧ ∀ d, d ∈ depends_on t → d ∈ completed).
    { intros t Ht. apply list_elem_of_filter in Ht as [Hdc Hin]. split.
      - simpl. apply elem_of_app. by left.
      - apply deps_completed_iff. by apply Is_true_true. }
    assert (Hseg : ∀ r', r' ∈ yielded merged ++ marked →
              ∀ i', Response.task_id r' = Some i' →
              ∃ t, t ∈ tasks_to_execute ∧ task_id t = i').
    { intros r' Hr' i' Hi'. apply elem_of_app in Hr' as [Hr'|Hr'].
      - eapply Forall_forall in Hm; [|exact Hr'].
        specialize (Hm i' Hi'). by apply elem_of_ids_of in Hm.
      - apply list_elem_of_fmap in Hr' as (t & -> & Ht).
        exists t. split; [done|]. simpl in Hi'. congruence. }
    rewrite app_assoc in Hp |- *.
    destruct (decide (p < length (yielded merged ++ marked))%nat) as [Hlt|Hge].
    + rewrite lookup_app_l in Hp by done.
      apply list_elem_of_lookup_2 in Hp.
      destruct (Hseg r Hp i Hi) as (t & Ht & Hid).
      destruct (Hexec t Ht) as [Hin Hdeps].
      exists t. split; [done|]. split; [done|].
      intros d Hd. destruct (Hpre d (Hdeps d Hd)) as (c & Hc & Hev & Hcid).
      exists c. split; [|done]. apply elem_of_app. by left.
    + rewrite lookup_app_r in Hp by lia.
      subst tail.
      assert (Hpre' : ∀ d, d ∈ completed ∪ ids_of tasks_to_execute →
                ∃ c, c ∈ pre ++ yielded merged ++ marked
                     ∧ Response.event c = TASK_COMPLETED
                     ∧ Response.task_id c = Some d).
      { intros d Hd. apply elem_of_union in Hd as [Hd|Hd].
        - destruct (Hpre d Hd) as (c & Hc & Hev & Hcid).
          exists c. split; [|done]. apply elem_of_app. by left.
        - apply elem_of_ids_of in Hd as (t & Ht & <-).
          exists (ResponseFactory.task_completed (Plan.conversation_id plan)
                    thread (task_id t) (agent_name t)).
          split; [|done]. apply elem_of_app. right. apply elem_of_app. right.
          apply list_elem_of_fmap. by exists t. }
      destruct (IH _ _ _ _ _ r i Hpre' Hp Hi) as (t & Ht & Hid & Hdeps).
      exists t. split; [simpl; apply elem_of_app; by right|]. split; [done|].
      intros d Hd. destruct (Hdeps d Hd) as (c & Hc & Hev & Hcid).
      exists c. split; [|done].
      rewrite take_app_ge by lia. by rewrite <- app_assoc in Hc.
Qed.

Lemma plan_dependencies (plan : ExecutionPlan) (thread : string) (w : World)
    (p : nat) (r : BaseResponse) (i : string) :
  yielded (_execute_plan_with_dependencies remote plan thread w) !! p = Some r →
  Response.task_id r = Some i →
  ∃ t, tasks_by_id (Plan.tasks plan) !! i = Some t
       ∧ ∀ d, d ∈ depends_on t →
           ∃ q c, (q < p)%nat
                  ∧ yielded (_execute_plan_with_dependencies remote plan
                               thread w) !! q = Some c
                  ∧ Response.event c = TASK_COMPLETED
                  ∧ Response.task_id c = Some d.
Proof.
  unfold _execute_plan_with_dependencies.
  destruct (build_execution_batches_spec (Plan.tasks plan))
    as (batches & -> & _ & _ & _ & Hall).
  simpl. intros Hp Hi.
  destruct (batches_loop_dependencies plan thread batches ∅ ∅ w [] p r i)
    as (t & Ht & Hid & Hdeps); [set_solver|done|done|].
  exists t. split; [rewrite <- Hid; by apply Hall|].
  intros d Hd. destruct (Hdeps d Hd) as (c & Hc & Hev & Hcid).
  simpl in Hc. apply list_elem_of_lookup_1 in Hc as [q Hq].
  exists q, c. pose proof (lookup_lt_Some _ _ _ Hq) as Hlen.
  rewrite length_take in Hlen.
  rewrite lookup_take_lt in Hq by lia.
  split; [lia|done].
Qed.

(** X7.  In a plan run batch by batch, every response of a task comes
    after a task_completed event of each task it depends on. *)
Theorem dependencies_are_completed_first (plan : ExecutionPlan)
    (thread : string) (w : World) (pre post : list BaseResponse)
    (r : BaseResponse) (t : Task) (d : string) :
  yielded (_execute_plan_with_dependencies remote plan thread w)
  = pre ++ r :: post →
  Response.task_id r = Some (task_id t) →
  tasks_by_id (Plan.tasks plan) !! task_id t = Some t →
  d ∈ depends_on t →
  ∃ c, c ∈ pre ∧ Response.event c = TASK_COMPLETED
       ∧ Response.task_id c = Some d.
Proof.
  intros Hy Hi Ht Hd.
  destruct (plan_dependencies plan thread w (length pre) r (task_id t))
    as (t' & Ht' & Hdeps); [by rewrite Hy, list_lookup_middle|done|].
  rewrite Ht in Ht'. injection Ht' as <-.
  destruct (Hdeps d Hd) as (q & c & Hq & Hc & Hev & Hcid).
  exists c. split; [|done].
  rewrite Hy, lookup_app_l in Hc by done.
  by eapply list_elem_of_lookup_2.
Qed.

(** X8.  In a plan run batch by batch, a task that can never become
    ready is never run and no response reports it: when every task of a
    set of ids depends on an id of the set (a dependency on itself, a
    cycle, a dependency that names no task of the plan, or a dependency on
    such a task), no response carries an id of the set. *)
Theorem blocked_tasks_are_never_run (plan : ExecutionPlan) (thread : string)
    (w : World) (blocked : gset string) :
  (∀ i t, i ∈ blocked → tasks_by_id (Plan.tasks plan) !! i = Some t →
     ∃ d, d ∈ depends_on t ∧ d ∈ blocked) →
  Forall (λ r, ∀ i, Response.task_id r = Some i → i ∉ blocked)
    (yielded (_execute_plan_with_dependencies remote plan thread w)).
Proof.
  intros Hblocked. apply Forall_lookup. intros p.
  induction (lt_wf p) as [p _ IH]. intros r Hp i Hi Hin.
  destruct (plan_dependencies plan thread w p r i Hp Hi) as (t & Ht & Hdeps).
  destruct (Hblocked i t Hin Ht) as (d & Hd & Hdin).
  destruct (Hdeps d Hd) as (q & c & Hq & Hc & _ & Hcid).
  by apply (IH q Hq c Hc d Hcid).
Qed.

End PlanDependencies.

(** X3, worked case: the RECURRING task of the samples, whose agent
    streams the message "hello". *)
Lemma scheduled_task_streams_no_chunks_witness :
  pattern Sample.recurring_task = RECURRING
  ∧ Forall (λ r, ¬ is_chatter r)
      (yielded (TaskExecutor._execute_single_task_in_plan Sample.agents
                  Sample.recurring_task
                  (Sample.plan_of [Sample.recurring_task] None)
                  "thread-0" Sample.world)).
Proof.
  split; [reflexivity|].
  apply scheduled_task_streams_no_chunks. reflexivity.
Defined.

(** X4, worked case: task A when no client is found. *)
Lemma unreachable_agent_fails_the_task_witness :
  client_found
    (first_run (invocations Cases.unreachable (task_id Sample.task_a))) = false
  ∧ ∃ component_id,
      yielded (TaskExecutor._execute_single_task_in_plan Cases.unreachable
                 Sample.task_a Sample.chain "thread-0" Sample.world)
      = task_trace Sample.chain "thread-0" Sample.task_a component_id []
          (ResponseFactory.task_failed "conv-0" "thread-0" "A"
             ("(Error) Error executing " +:+ "A"
              +:+ ": Could not connect to agent " +:+ "ResearchAgent")
             "ResearchAgent").
Proof.
  split; [reflexivity|].
  apply (unreachable_agent_fails_the_task Cases.unreachable Sample.task_a
           Sample.chain "thread-0" Sample.world).
  reflexivity.
Defined.

(** X6, worked case: two tasks without dependencies. *)
Lemma sequential_plan_one_terminal_event_per_task_witness :
  PyStr.truthy_opt (Plan.guidance_message Cases.independent) = false
  ∧ (∀ t, t ∈ Plan.tasks Cases.independent → depends_on t = [])
  ∧ Forall2 (λ task closing,
               ∃ res, closing = closing_of Cases.independent "thread-0" task res)
      (Plan.tasks Cases.independent)
      (filter terminal
         (yielded (TaskExecutor.execute_plan Sample.agents Cases.independent
                     "thread-0" Sample.world))).
Proof.
  assert (Hd : ∀ t, t ∈ Plan.tasks Cases.independent → depends_on t = []).
  { intros t Ht. simpl in Ht.
    apply elem_of_cons in Ht as [->|Ht]; [reflexivity|].
    apply list_elem_of_singleton in Ht as ->. reflexivity. }
  split; [reflexivity|]. split; [exact Hd|].
  apply sequential_plan_one_terminal_event_per_task; [reflexivity|exact Hd].
Defined.

(** X7, worked case: in the plan of task A and task B that depends on A,
    the task_started of B has a task_completed of A before it. *)
Lemma dependencies_are_completed_first_witness :
  let trace :=
    yielded (TaskExecutor._execute_plan_with_dependencies Sample.agents
               Sample.chain "thread-0" Sample.world) in
  (λ r, (Response.event r, Response.task_id r)) <$> trace !! 4%nat
  = Some (TASK_STARTED, Some "B")
  ∧ ∃ c, c ∈ take 4 trace ∧ Response.event c = TASK_COMPLETED
         ∧ Response.task_id c = Some "A".
Proof.
  intros trace. split; [vm_compute; reflexivity|].
  apply (dependencies_are_completed_first Sample.agents Sample.chain
           "thread-0" Sample.world (take 4 trace) (drop 5 trace)
           (default (ResponseFactory.conversation_started "")
              (trace !! 4%nat))
           Sample.task_b "A").
  - vm_compute. reflexivity.
  - vm_compute. reflexivity.
  - vm_compute. reflexivity.
  - apply list_elem_of_singleton. reflexivity.
Defined.

(** X8, worked case: tasks A and B wait for each other and task C waits
    for a task the plan does not have; the plan yields nothing. *)
Lemma blocked_tasks_are_never_run_witness :
  let blocked : gset string := {["A"; "B"; "C"; "missing"]} in
  (∀ i t, i ∈ blocked →
     TaskExecutor.tasks_by_id (Plan.tasks Cases.stuck) !! i = Some t →
     ∃ d, d ∈ depends_on t ∧ d ∈ blocked)
  ∧ Forall (λ r, ∀ i, Response.task_id r = Some i → i ∉ blocked)
      (yielded (TaskExecutor._execute_plan_with_dependencies Sample.agents
                  Cases.stuck "thread-0" Sample.world))
  ∧ yielded (TaskExecutor._execute_plan_with_dependencies Sample.agents
               Cases.stuck "thread-0" Sample.world) = [].
Proof.
  intros blocked.
  assert (Hb : ∀ i t, i ∈ blocked →
            TaskExecutor.tasks_by_id (Plan.tasks Cases.stuck) !! i = Some t →
            ∃ d, d ∈ depends_on t ∧ d ∈ blocked).
  { intros i t Hi Ht. subst blocked.
    repeat (apply elem_of_union in Hi as [Hi|Hi]);
      apply elem_of_singleton in Hi as ->; vm_compute in Ht;
      try discriminate; injection Ht as <-; simpl.
    - exists "B". split; [by apply list_elem_of_singleton|set_solver].
    - exists "A". split; [by apply list_elem_of_singleton|set_solver].
    - exists "missing". split; [by apply list_elem_of_singleton|set_solver]. }
  split; [exact Hb|]. split; [|vm_compute; reflexivity].
  apply blocked_tasks_are_never_run. exact Hb.
Defined.

(** ** Plans whose dependencies are acyclic *)

Section AcyclicPlans.
Import TaskExecutor.
Variable remote : Remote.

Lemma merged_contains (plan : ExecutionPlan) (thread : string)
    (tasks : list Task) (t : Task) :
  t ∈ tasks →
  ∀ w, ∃ res,
    closing_of plan thread t res
    ∈ yielded (_merge_task_responses
                 ((λ task, _execute_single_task_in_plan remote task plan thread)
                    <$> tasks) w).
Proof.
  unfold _merge_task_responses.
  induction tasks as [|t0 tasks IH]; intros Hin w; [by apply elem_of_nil in Hin|].
  rewrite fmap_cons. cbn [for_each]. rewrite yielded_bind.
  rewrite yielded_try_except, result_try_except.
  destruct (single_task_terminal_events remote t0 plan thread w)
    as (Hr & res & Hf).
  cbn zeta in Hr. rewrite Hr, app_nil_r.
  apply elem_of_cons in Hin as [->|Hin].
  - exists res. apply elem_of_app. left.
    assert (Hc : closing_of plan thread t0 res
                 ∈ filter terminal
                     (yielded (_execute_single_task_in_plan remote t0 plan
                                 thread w))).
    { cbn zeta in Hf. rewrite Hf. apply list_elem_of_singleton. reflexivity. }
    by apply list_elem_of_filter in Hc as [_ ?].
  - edestruct (IH Hin) as [res' Hres'].
    exists res'. apply elem_of_app. right. exact Hres'.
Qed.

Lemma filter_all {A} (P : A → Prop) `{∀ x, Decision (P x)} (l : list A) :
  Forall P l → filter P l = l.
Proof.
  induction 1 as [|x l Hx _ IH]; [done|].
  rewrite filter_cons, decide_True by done. by rewrite IH.
Qed.

Lemma some_task_is_ready (by_id : gmap string Task) (rank : string → nat)
    (remaining placed : gset string) :
  acyclic by_id rank → keyed by_id →
  remaining ⊆ dom by_id →
  (∀ id, id ∈ dom by_id → id ∈ remaining ∨ id ∈ placed) →
  ∀ n id, (rank id < n)%nat → id ∈ remaining →
    ∃ t, is_ready by_id remaining placed t.
Proof.
  intros Hacyclic Hkeyed Hsub Hcover.
  induction n as [|n IH]; intros id Hn Hid; [lia|].
  pose proof (Hsub _ Hid) as Hdom. apply elem_of_dom in Hdom as [t Ht].
  destruct (deps_completed placed t) eqn:Hd.
  - exists t. pose proof (Hkeyed _ _ Ht) as Hk. unfold is_ready.
    rewrite Hk. split; [done|]. split; [done|]. by apply deps_completed_iff.
  - assert (∃ d, d ∈ depends_on t ∧ d ∉ placed) as (d & Hd1 & Hd2).
    { apply not_true_iff_false in Hd. rewrite deps_completed_iff in Hd.
      destruct (decide (Exists (λ d, d ∉ placed) (depends_on t))) as [He|Hne].
      - apply Exists_exists in He as (d & ? & ?). by exists d.
      - exfalso. apply Hd. intros d Hdin.
        destruct (decide (d ∈ placed)); [done|].
        exfalso. apply Hne. apply Exists_exists. by exists d. }
    destruct (Hacyclic id t d Ht Hd1) as [Hddom Hrank].
    destruct (Hcover d Hddom) as [Hrem|?]; [|done].
    apply (IH d); [lia|done].
Qed.

Lemma batches_loop_runs (plan : ExecutionPlan) (thread : string)
    (by_id : gmap string Task) (rank : string → nat) :
  acyclic by_id rank → keyed by_id →
  ∀ remaining placed batches,
    peeling by_id remaining placed batches →
    remaining ⊆ dom by_id →
    (∀ id, id ∈ dom by_id → id ∈ remaining ∨ id ∈ placed) →
    ∀ in_progress w t,
      t ∈ concat batches →
      ∃ res,
        closing_of plan thread t res
        ∈ yielded (batches_loop remote plan thread batches placed
                     in_progress w).
Proof.
  intros Hacyclic Hkeyed remaining placed batches Hpeel.
  induction Hpeel as [placed
                     |remaining placed batch batches Hne Hex Hbatch Hnd Hpeel IH
                     |remaining placed batch Hne Hnone Hbatch Hnd];
    intros Hsub Hcover in_progress w t Ht.
  - by apply elem_of_nil in Ht.
  - cbn [batches_loop].
    assert (Hall : filter (λ t, deps_completed placed t) batch = batch).
    { apply filter_all. apply Forall_forall. intros x Hx.
      apply Hbatch in Hx as (_ & _ & Hx).
      apply Is_true_true. by apply deps_completed_iff. }
    rewrite Hall.
    destruct batch as [|t0 batch'] eqn:Eb.
    { destruct Hex as [x Hx]. apply Hbatch in Hx. by apply elem_of_nil in Hx. }
    rewrite <- Eb in *. clear Eb t0 batch'.
    rewrite yielded_bind, (returns_unit _ w (merge_returns _)).
    rewrite yielded_bind.
    rewrite (returns_unit _ _ (returns_for_each batch
               (mark_completed plan thread) (λ x, returns_yield _))).
    cbn [concat] in Ht. apply elem_of_app in Ht as [Ht|Ht].
    + destruct (merged_contains plan thread batch t Ht w) as [res Hres].
      exists res. apply elem_of_app. by left.
    + edestruct IH as [res Hres]; [| |exact Ht|].
      * intros id Hid. apply Hsub. set_solver.
      * intros id Hid. destruct (Hcover id Hid) as [Hr|Hp]; [|set_solver].
        destruct (decide (id ∈ ids_of batch)); set_solver.
      * exists res. apply elem_of_app. right. apply elem_of_app. right.
        exact Hres.
  - exfalso.
    assert (∃ id, id ∈ remaining) as [id Hid].
    { apply set_choose_L. done. }
    destruct (some_task_is_ready by_id rank remaining placed Hacyclic Hkeyed
                Hsub Hcover (S (rank id)) id) as [x Hx]; [lia|done|].
    by apply (Hnone x).
Qed.

(** Every task of an acyclic plan is run. *)
Lemma acyclic_plan_runs (plan : ExecutionPlan) (thread : string) (w : World)
    (rank : string → nat) (t : Task) :
  acyclic (tasks_by_id (Plan.tasks plan)) rank →
  tasks_by_id (Plan.tasks plan) !! task_id t = Some t →
  ∃ res,
    closing_of plan thread t res
    ∈ yielded (_execute_plan_with_dependencies remote plan thread w).
Proof.
  intros Hacyclic Ht. unfold _execute_plan_with_dependencies.
  destruct (build_execution_batches_spec (Plan.tasks plan))
    as (batches & -> & Hpeel & _ & Hids & Hall).
  cbn [default].
  apply (batches_loop_runs plan thread _ rank Hacyclic
           (tasks_by_id_keyed _) _ _ _ Hpeel).
  - by rewrite tasks_by_id_dom.
  - intros id Hid. left. by rewrite <- tasks_by_id_dom.
  - assert (Hin : task_id t ∈ ids_of (concat batches)).
    { rewrite Hids, <- tasks_by_id_dom. apply elem_of_dom. by eexists. }
    apply elem_of_ids_of in Hin as (t' & Ht' & Hid).
    pose proof (Hall t' Ht') as Hlook. rewrite Hid, Ht in Hlook.
    by injection Hlook as ->.
Qed.

(** X9.  In a plan run batch by batch whose dependencies are acyclic
    and name tasks of the plan, every task is run and reports its own
    terminal event, task_completed or task_failed, whatever happens to the
    tasks it depends on. *)
Theorem acyclic_plan_runs_every_task (plan : ExecutionPlan) (thread : string)
    (w : World) (rank : string → nat) (t : Task) :
  acyclic (tasks_by_id (Plan.tasks plan)) rank →
  tasks_by_id (Plan.tasks plan) !! task_id t = Some t →
  ∃ res,
    closing_of plan thread t res
    ∈ yielded (_execute_plan_with_dependencies remote plan thread w).
Proof. apply acyclic_plan_runs. Qed.

End AcyclicPlans.

(** X9, worked case: task B of the plan of A and B, which depends on A. *)
Lemma acyclic_plan_runs_every_task_witness :
  let rank := λ id : string, if bool_decide (id = "A") then 0%nat else 1%nat in
  acyclic (TaskExecutor.tasks_by_id (Plan.tasks Sample.chain)) rank
  ∧ TaskExecutor.tasks_by_id (Plan.tasks Sample.chain) !! "B"
    = Some Sample.task_b
  ∧ ∃ res,
      closing_of Sample.chain "thread-0" Sample.task_b res
      ∈ yielded (TaskExecutor._execute_plan_with_dependencies Sample.agents
                   Sample.chain "thread-0" Sample.world).
Proof.
  intros rank.
  assert (Ha : acyclic (TaskExecutor.tasks_by_id (Plan.tasks Sample.chain))
                 rank).
  { intros id t d Ht Hd. apply tasks_by_id_elem in Ht as [Hin <-].
    simpl in Hin. apply elem_of_cons in Hin as [->|Hin].
    - by apply elem_of_nil in Hd.
    - apply list_elem_of_singleton in Hin as ->.
      apply list_elem_of_singleton in Hd as ->.
      split; [|vm_compute; lia].
      apply elem_of_dom. exists Sample.task_a. vm_compute. reflexivity. }
  split; [exact Ha|]. split; [vm_compute; reflexivity|].
  apply (acyclic_plan_runs_every_task Sample.agents Sample.chain "thread-0"
           Sample.world rank Sample.task_b Ha).
  vm_compute. reflexivity.
Defined.

(** ** The stream of one run *)

Section StreamOfARun.
Import TaskExecutor.
Variable remote : Remote.

Lemma steps_for_each_yield (rs : list BaseResponse) (w : World) :
  steps (for_each rs yield) w rs (Returned tt) w.
Proof.
  induction rs as [|r rs IH]; [done|].
  cbn [for_each]. eapply (steps_bind _ _ _ _ _ [r]); [apply steps_yield|done].
Qed.

Lemma steps_apply_side_effects (task : Task) (effects : list SideEffect)
    (w : World) :
  ∃ w', steps (apply_side_effects task effects) w [] (Returned tt) w'.
Proof.
  unfold apply_side_effects. revert w.
  induction effects as [|s effects IH]; intros w.
  - eexists. apply steps_ret.
  - cbn [for_each]. case_bool_decide.
    + edestruct IH as [w' Hw']. eexists.
      eapply (steps_bind _ _ _ _ _ [] []); [apply steps_modify|exact Hw'].
    + edestruct IH as [w' Hw']. eexists.
      eapply (steps_bind _ _ _ _ _ [] []); [apply steps_ret|exact Hw'].
Qed.

Lemma buffered_content_translate (task : Task) (thread : string)
    (p : StatusPart) :
  ScheduledTaskResultAccumulator.buffered_content
    (EventRouter.translate task thread p)
  = part_text p.
Proof. by destruct p. Qed.

Lemma forwarded_translate (task : Task) (thread : string) (p : StatusPart) :
  ScheduledTaskResultAccumulator.forwarded (EventRouter.translate task thread p)
  = false.
Proof. by destruct p. Qed.

Lemma buffered_translations (task : Task) (thread : string)
    (parts : list StatusPart) :
  omap ScheduledTaskResultAccumulator.buffered_content
    (EventRouter.translate task thread <$> parts)
  = omap part_text parts.
Proof.
  induction parts as [|p ps IH]; [done|].
  rewrite fmap_cons. cbn [omap list_omap].
  by rewrite buffered_content_translate, IH.
Qed.

Lemma forwarded_translations (task : Task) (thread : string)
    (parts : list StatusPart) :
  filter (λ r, ScheduledTaskResultAccumulator.forwarded r = true)
    (EventRouter.translate task thread <$> parts)
  = [].
Proof.
  induction parts as [|p ps IH]; [done|].
  rewrite fmap_cons, filter_cons, decide_False; [done|].
  by rewrite forwarded_translate.
Qed.

Lemma consume_translations (acc : ScheduledTaskResultAccumulator.t)
    (task : Task) (thread : string) (ev : TaskStatusUpdateEvent) :
  ScheduledTaskResultAccumulator._task acc = task →
  ScheduledTaskResultAccumulator.consume acc
    (responses (EventRouter.route_task_status task thread ev))
  = if is_scheduled task
    then ({| ScheduledTaskResultAccumulator._task := task;
             ScheduledTaskResultAccumulator._buffer :=
               ScheduledTaskResultAccumulator._buffer acc
               ++ omap part_text (update_parts ev) |}, [])
    else (acc, EventRouter.translate task thread <$> update_parts ev).
Proof.
  intros Hacc.
  unfold ScheduledTaskResultAccumulator.consume,
    ScheduledTaskResultAccumulator.enabled.
  rewrite Hacc. destruct (is_scheduled task); simpl; [|done].
  rewrite consume_loop_spec, Hacc. simpl.
  by rewrite buffered_translations, forwarded_translations.
Qed.

(** The loop over the remote stream: what it yields and returns. *)
Lemma remote_loop_spec (task : Task) (thread : string)
    (items : list (RemoteTask * RemoteUpdate)) :
  ∀ (acc : ScheduledTaskResultAccumulator.t) (w : World),
    ScheduledTaskResultAccumulator._task acc = task →
    ∃ w',
      steps (remote_loop task thread acc items) w
        (consumed task thread items
           ≫= (if is_scheduled task then scheduled_of task thread
               else forwarded_of task thread))
        (Returned
           (if existsb (ends_run task thread) items then None
            else Some
                   (if is_scheduled task
                    then {| ScheduledTaskResultAccumulator._task := task;
                            ScheduledTaskResultAccumulator._buffer :=
                              ScheduledTaskResultAccumulator._buffer acc
                              ++ (items ≫= texts_of) |}
                    else acc)))
        w'.
Proof.
  induction items as [|[remote_task event] items IH]; intros acc w Hacc.
  - exists w. simpl. rewrite app_nil_r.
    destruct (is_scheduled task); [|apply steps_ret].
    destruct acc as [t b]. simpl in Hacc. subst t. apply steps_ret.
  - cbn [remote_loop consumed existsb]. rewrite !bind_cons.
    destruct event as [|ev|].
    + assert (Hends : ends_run task thread (remote_task, NoEvent) = false)
        by done.
      assert (Htexts : texts_of (remote_task, NoEvent) = []) by done.
      rewrite Hends, Htexts. cbn [orb app].
      assert (Hfw : (if is_scheduled task then scheduled_of task thread
                     else forwarded_of task thread) (remote_task, NoEvent)
                    = forwarded_of task thread (remote_task, NoEvent)).
      { by destruct (is_scheduled task). }
      rewrite Hfw. unfold forwarded_of at 1. cbn [fst snd].
      case_bool_decide.
      * edestruct (IH acc) as [w' Hw']; [done|]. exists w'.
        eapply (steps_bind _ _ _ _ _ []); [apply steps_modify|].
        eapply (steps_bind _ _ _ _ _ [_]); [apply steps_yield|exact Hw'].
      * edestruct (IH acc) as [w' Hw']; [done|]. exists w'. exact Hw'.
    + rewrite (consume_translations acc task thread ev Hacc).
      assert (Hends : ends_run task thread (remote_task, StatusUpdate ev)
                      = done (EventRouter.route_task_status task thread ev))
        by done.
      assert (Htexts : texts_of (remote_task, StatusUpdate ev)
                       = omap part_text (update_parts ev)) by done.
      rewrite Hends, Htexts.
      destruct (steps_apply_side_effects task
                  (side_effects (EventRouter.route_task_status task thread ev))
                  w) as [w1 Hw1].
      destruct (is_scheduled task) eqn:Hs.
      * assert (Hsch : scheduled_of task thread (remote_task, StatusUpdate ev)
                       = []) by done.
        rewrite Hsch. cbn [app].
        destruct (done (EventRouter.route_task_status task thread ev)) eqn:Hd.
        -- exists w1. cbn [orb mbind list_bind].
           eapply (steps_bind _ _ _ _ _ [] []); [apply steps_ret|].
           eapply (steps_bind _ _ _ _ _ [] []); [exact Hw1|].
           apply steps_ret.
        -- edestruct (IH {| ScheduledTaskResultAccumulator._task := task;
                            ScheduledTaskResultAccumulator._buffer :=
                              ScheduledTaskResultAccumulator._buffer acc
                              ++ omap part_text (update_parts ev) |} w1)
             as [w' Hw']; [done|].
           exists w'. cbn [orb].
           eapply (steps_bind _ _ _ _ _ [] _); [apply steps_ret|].
           eapply (steps_bind _ _ _ _ _ [] _); [exact Hw1|].
           cbn [ScheduledTaskResultAccumulator._buffer] in Hw'.
           rewrite <- app_assoc in Hw'. exact Hw'.
      * assert (Hfw : forwarded_of task thread (remote_task, StatusUpdate ev)
                      = EventRouter.translate task thread <$> update_parts ev)
          by done.
        rewrite Hfw.
        destruct (done (EventRouter.route_task_status task thread ev)) eqn:Hd.
        -- exists w1. cbn [orb mbind list_bind].
           eapply steps_bind_eq; [apply steps_for_each_yield| |done].
           eapply (steps_bind _ _ _ _ _ [] []); [exact Hw1|].
           apply steps_ret.
        -- edestruct (IH acc w1) as [w' Hw']; [done|].
           exists w'. cbn [orb].
           eapply steps_bind; [apply steps_for_each_yield|].
           eapply (steps_bind _ _ _ _ _ [] _); [exact Hw1|exact Hw'].
    + assert (Hends : ends_run task thread (remote_task, ArtifactUpdate)
                      = false) by done.
      assert (Htexts : texts_of (remote_task, ArtifactUpdate) = []) by done.
      rewrite Hends, Htexts. cbn [orb app].
      assert (Hfw : (if is_scheduled task then scheduled_of task thread
                     else forwarded_of task thread)
                      (remote_task, ArtifactUpdate) = []).
      { by destruct (is_scheduled task). }
      rewrite Hfw. by apply IH.
Qed.



End StreamOfARun.



(** ** What the executor leaves alone *)

Section ExecutorFrame.
Import TaskExecutor.
Variable remote : Remote.
Context {B : Type} (f : World → B).
Hypothesis frame : executor_frame f.

Lemma preserves_generate_uuid (prefix : string) :
  preserves f (generate_uuid prefix).
Proof. destruct frame as (_ & _ & _ & Hu). intros w. apply Hu. Qed.

Lemma preserves_ensure_conversation (user_id conversation_id agent_name : string)
    (title : option string) :
  preserves f (ConversationService.ensure_conversation user_id conversation_id
                 agent_name title).
Proof.
  destruct frame as (_ & _ & Hc & _). intros w.
  unfold ConversationService.ensure_conversation.
  destruct (conversations w !! conversation_id); [done|apply Hc].
Qed.

Lemma preserves_emit_subagent_end_once (task : Task) (plan : ExecutionPlan)
    (thread component_id : string) :
  preserves f (emit_subagent_end_once task plan thread component_id).
Proof.
  destruct frame as (_ & He & _ & _). unfold emit_subagent_end_once.
  destruct (negb _); [apply preserves_ret|].
  intros w. unfold mbind, Gen_bind. simpl.
  case_bool_decide; simpl; [done|apply He].
Qed.

Lemma execute_task_preserves (task : Task) (thread : string)
    (on_before_done : option (Gen (option BaseResponse))) :
  (∀ callback, on_before_done = Some callback → preserves f callback) →
  preserves f (_execute_task remote task thread on_before_done).
Proof.
  intros Hcb. destruct frame as ((Hreg & Hids & Hsent) & He & Hc & Hu).
  unfold _execute_task.
  apply preserves_bind; [by apply preserves_modify|]. intros ?.
  apply preserves_bind.
  { destruct (is_scheduled task); [|apply preserves_ret].
    apply preserves_bind; [apply preserves_yield|]. intros ?.
    apply preserves_bind; [|intros ?; apply preserves_yield].
    destruct on_before_done as [callback|]; [|apply preserves_ret].
    apply preserves_bind; [by apply Hcb|].
    intros [r|]; [apply preserves_yield|apply preserves_ret]. }
  intros ?. apply preserves_try_finally; [|apply preserves_ret].
  apply preserves_try_except.
  - apply preserves_bind; [by apply run_loop_preserves|]. intros ?.
    apply preserves_bind; [by apply preserves_modify|]. intros ?.
    apply preserves_yield.
  - intros exc. apply preserves_bind; [by apply preserves_modify|].
    intros ?. apply preserves_raise.
Qed.

Lemma single_task_in_plan_preserves (task : Task) (plan : ExecutionPlan)
    (thread : string) :
  preserves f (_execute_single_task_in_plan remote task plan thread).
Proof.
  pose proof frame as ((Hreg & Hids & Hsent) & He & Hc & Hu).
  unfold _execute_single_task_in_plan.
  apply preserves_bind; [apply preserves_generate_uuid|]. intros component_id.
  apply preserves_bind; [by apply preserves_modify|]. intros ?.
  apply preserves_bind.
  { destruct (handoff_from_super_agent task); [|apply preserves_ret].
    apply preserves_bind; [apply preserves_ensure_conversation|]. intros ?.
    apply preserves_bind; [apply preserves_ret|]. intros ?.
    apply preserves_bind; intros; apply preserves_yield. }
  intros ?. apply preserves_try_finally.
  - apply preserves_try_except; [|intros ?; apply preserves_yield].
    apply preserves_bind; [by apply preserves_modify|]. intros ?.
    apply execute_task_preserves. intros callback Hcb.
    destruct (handoff_from_super_agent task); [|done].
    injection Hcb as <-. apply preserves_emit_subagent_end_once.
  - destruct (handoff_from_super_agent task); [|apply preserves_ret].
    apply preserves_bind; [apply preserves_emit_subagent_end_once|].
    intros [r|]; [apply preserves_yield|apply preserves_ret].
Qed.

Lemma batches_loop_preserves (plan : ExecutionPlan) (thread : string)
    (batches : list (list Task)) :
  ∀ completed in_progress,
    preserves f (batches_loop remote plan thread batches completed in_progress).
Proof.
  induction batches as [|batch rest IH]; intros completed in_progress;
    cbn [batches_loop].
  - apply preserves_ret.
  - destruct (filter _ batch) as [|t0 l]; [apply IH|].
    apply preserves_bind.
    { unfold _merge_task_responses. apply preserves_for_each_in.
      intros gen Hgen. apply list_elem_of_fmap in Hgen as (t & -> & _).
      apply preserves_try_except; [|intros ?; apply preserves_ret].
      apply single_task_in_plan_preserves. }
    intros ?. apply preserves_bind; [|intros ?; apply IH].
    apply preserves_for_each. intros t. apply preserves_yield.
Qed.

(** The executor leaves alone every component of the world outside the
    task registry, the remote task ids, the sent messages, the END flags,
    the conversations and the id source. *)
Lemma execute_plan_preserves (plan : ExecutionPlan) (thread : string) :
  preserves f (execute_plan remote plan thread).
Proof.
  unfold execute_plan. destruct (PyStr.truthy_opt _).
  - apply preserves_bind; [apply preserves_generate_uuid|].
    intros ?. apply preserves_yield.
  - destruct (negb _).
    + apply preserves_for_each. intros t. apply single_task_in_plan_preserves.
    + apply batches_loop_preserves.
Qed.

End ExecutorFrame.

(** ** The plan built from the recommended agents *)

Section Recommendations.
Import ExecutionPlanner.

Lemma task_for_steps (user_input : UserInput) (conversation thread : string)
    (dependencies : list string) (agent : string) (w : World) :
  ∃ t w',
    steps (task_for user_input conversation thread dependencies agent) w []
      (Returned t) w'
    ∧ recommended_task user_input conversation thread dependencies agent t.
Proof.
  unfold task_for, _create_task. eexists _, _. split.
  - eapply (steps_bind _ _ _ _ _ [] []); [apply steps_generate_uuid|].
    eapply (steps_bind _ _ _ _ _ [] [] (_, _)); [|apply steps_ret].
    eapply (steps_bind _ _ _ _ _ [] []); [apply steps_generate_uuid|].
    apply steps_ret.
  - by repeat split.
Qed.

Lemma append_tasks_steps (user_input : UserInput)
    (conversation thread : string) (dependencies agents : list string) :
  ∀ (tasks : list Task) (w : World),
    ∃ new w',
      steps (append_tasks
               (task_for user_input conversation thread dependencies)
               agents tasks) w []
        (Returned (tasks ++ new)) w'
      ∧ Forall2 (recommended_task user_input conversation thread dependencies)
          agents new.
Proof.
  induction agents as [|agent agents IH]; intros tasks w.
  - exists [], w. rewrite app_nil_r. split; [apply steps_ret|constructor].
  - destruct (task_for_steps user_input conversation thread dependencies
                agent w) as (t & w1 & Ht & Hrec).
    destruct (IH (tasks ++ [t]) w1) as (new & w' & Hnew & Hall).
    exists (t :: new), w'. split; [|by constructor].
    cbn [append_tasks].
    eapply (steps_bind _ _ _ _ _ [] []); [exact Ht|].
    by rewrite <- app_assoc in Hnew.
Qed.

(** X12.  The plan built from the agents the super agent recommends,
    without the LLM: one task for every recommended ResearchAgent and
    NewsAgent, in the recommended order and without dependencies,
    followed by one task for every recommended StrategyAgent that depends
    on all of the former; every other recommended agent is left out.
    Every task is a ONCE task handed off by the super agent, with the
    user's query, and nothing is yielded. *)
Theorem tasks_from_recommendations (user_input : UserInput)
    (recommended_agents : list string) (conversation thread : string)
    (w : World) :
  let r := _create_tasks_from_recommendations user_input recommended_agents
             conversation thread w in
  ∃ independent dependent,
    result r = Returned (independent ++ dependent)
    ∧ yielded r = []
    ∧ Forall2 (recommended_task user_input conversation thread [])
        (filter (λ a, a ∈ ["ResearchAgent"; "NewsAgent"]) recommended_agents)
        independent
    ∧ Forall2 (recommended_task user_input conversation thread
                 (task_id <$> independent))
        (filter (λ a, a = "StrategyAgent") recommended_agents)
        dependent.
Proof.
  intros r. subst r. unfold _create_tasks_from_recommendations.
  set (independent_agents :=
         filter (λ a, a ∈ ["ResearchAgent"; "NewsAgent"]) recommended_agents).
  set (dependent_agents := filter (λ a, a = "StrategyAgent") recommended_agents).
  destruct (append_tasks_steps user_input conversation thread []
              independent_agents [] w)
    as (independent & w1 & (Hy1 & Hr1 & Hw1) & Hind).
  rewrite app_nil_l in Hr1.
  rewrite result_bind, yielded_bind, Hy1, Hr1, Hw1.
  exists independent.
  destruct (decide (dependent_agents = [])) as [Hd|Hd].
  - rewrite (bool_decide_eq_true_2 _ Hd). simpl.
    exists []. rewrite app_nil_r, Hd. repeat split; [done|constructor].
  - rewrite (bool_decide_eq_false_2 _ Hd).
    destruct (decide (independent = [])) as [Hi|Hi].
    + rewrite (bool_decide_eq_true_2 _ Hi). cbn [negb andb].
      destruct (append_tasks_steps user_input conversation thread []
                  dependent_agents independent w1)
        as (dependent & w2 & (Hy2 & Hr2 & Hw2) & Hdep).
      exists dependent. rewrite Hy2, Hr2. repeat split; [done|].
      by rewrite Hi.
    + rewrite (bool_decide_eq_false_2 _ Hi). cbn [negb andb].
      destruct (append_tasks_steps user_input conversation thread
                  (task_id <$> independent) dependent_agents independent w1)
        as (dependent & w2 & (Hy2 & Hr2 & Hw2) & Hdep).
      exists dependent. rewrite Hy2, Hr2. by repeat split.
Qed.

End Recommendations.

(** ** The fallback to three agents *)

Section Fallback.
Import PlannerFallback TaskExecutor.

(** X13.  The fallback plan replaces the planner's single task by three
    tasks that run in two batches: the research and the news task first,
    side by side, and the strategy task after both. *)
Theorem fallback_plan_batches (user_input : UserInput) (original_task : Task)
    (thread : string) :
  ∃ research news strategy,
    _create_multi_agent_fallback_plan user_input original_task thread
    = [research; news; strategy]
    ∧ agent_name research = "ResearchAgent"
    ∧ agent_name news = "NewsAgent"
    ∧ agent_name strategy = "StrategyAgent"
    ∧ ∃ first,
        _build_execution_batches
          (_create_multi_agent_fallback_plan user_input original_task thread)
        = Some [first; [strategy]]
        ∧ first ≡ₚ [research; news].
Proof.
  eexists _, _, _. split; [reflexivity|]. repeat (split; [reflexivity|]).
  eexists. split; [vm_compute; reflexivity|].
  reflexivity.
Qed.

End Fallback.

Section FallbackTrigger.
Import PlannerFallback.


End FallbackTrigger.

(** ** Conversations that wait for the user *)

Section Continuation.
Import AgentOrchestrator.
Variable session : Session.

Lemma steps_ensure_existing (user_id conversation_id agent_name : string)
    (title : option string) (c : Conversation) (w : World) :
  conversations w !! conversation_id = Some c →
  steps (ConversationService.ensure_conversation user_id conversation_id
           agent_name title) w [] (Returned (c, false)) w.
Proof.
  intros Hc. unfold steps, ConversationService.ensure_conversation.
  by rewrite Hc.
Qed.

Lemma steps_cancel_execution (conversation_id : string) (w : World) :
  steps (_cancel_execution conversation_id) w [] (Returned tt)
    (cancelled_world conversation_id w).
Proof. done. Qed.

(** What [_generate_responses] does with the run of its pipeline. *)
Lemma generate_responses_steps (user_input : UserInput) (w w' : World)
    (ys : list BaseResponse) (res : Result unit) :
  steps (session_pipeline session user_input) w ys res w' →
  steps (_generate_responses session user_input) w
    (ys ++ match res with
           | Returned _ => []
           | Raised e =>
               [ResponseFactory.system_failed
                  (UserInput.conversation_id user_input)
                  ("(Error) Error processing request: " +:+ e)]
           end
        ++ [ResponseFactory.done (UserInput.conversation_id user_input) None])
    (Returned tt) w'.
Proof.
  intros H. unfold _generate_responses. rewrite app_assoc.
  eapply steps_try_finally; [|apply steps_yield].
  destruct res as [[]|e].
  - rewrite app_nil_r. by apply steps_try_except_returned.
  - eapply steps_try_except_raised; [exact H|apply steps_yield].
Qed.

Lemma pipeline_continues (user_input : UserInput) (c : Conversation)
    (w w' : World) (ys : list BaseResponse) (res : Result unit) :
  ensure_conversation_error session = None →
  conversations w !! UserInput.conversation_id user_input = Some c →
  Conversation.status c = REQUIRE_USER_INPUT →
  steps (_handle_conversation_continuation session user_input) w ys res w' →
  steps (session_pipeline session user_input) w ys res w'.
Proof.
  intros He Hc Hs H. unfold session_pipeline. rewrite He.
  destruct res as [[]|e].
  - eapply (steps_bind _ _ _ _ _ [] _ (c, false));
      [by apply steps_ensure_existing|].
    eapply (steps_bind _ _ _ _ _ [] _); [apply steps_ret|].
    by rewrite Hs, bool_decide_eq_true_2.
  - eapply (steps_bind _ _ _ _ _ [] _ (c, false));
      [by apply steps_ensure_existing|].
    eapply (steps_bind _ _ _ _ _ [] _); [apply steps_ret|].
    by rewrite Hs, bool_decide_eq_true_2.
Qed.



End Continuation.

(** ** The sweep of the expired contexts *)

Section Sweep.
Import AgentOrchestrator ContextSweep.

Lemma cancel_all_steps (ids : list string) :
  ∀ w, ∃ w',
    steps (for_each ids _cancel_execution) w [] (Returned tt) w'
    ∧ ∀ k,
        _execution_contexts w' !! k
        = (if decide (k ∈ ids) then None else _execution_contexts w !! k)
        ∧ pending_requests w' !! k
          = (if decide (k ∈ ids) then None else pending_requests w !! k)
        ∧ conversations w' !! k
          = (if decide (k ∈ ids)
             then ConversationService.set_status ACTIVE <$> conversations w !! k
             else conversations w !! k).
Proof.
  induction ids as [|id ids IH]; intros w.
  - exists w. split; [apply steps_ret|]. intros k.
    rewrite decide_False by apply not_elem_of_nil. done.
  - destruct (IH (cancelled_world id w)) as (w' & Hsteps & Hk).
    exists w'. split.
    + cbn [for_each].
      eapply (steps_bind _ _ _ _ _ [] []); [|exact Hsteps].
      apply steps_cancel_execution.
    + intros k. destruct (Hk k) as (H1 & H2 & H3).
      rewrite H1, H2, H3. unfold cancelled_world. simpl.
      destruct (decide (k = id)) as [->|Hne].
      * rewrite !lookup_delete_eq, lookup_alter_eq.
        destruct (decide (id ∈ id :: ids)) as [_|Hn];
          [|exfalso; apply Hn; by left].
        destruct (decide (id ∈ ids)); [|done].
        destruct (conversations w !! id); done.
      * rewrite !lookup_delete_ne, lookup_alter_ne by done.
        destruct (decide (k ∈ ids)) as [Hin|Hnin].
        -- destruct (decide (k ∈ id :: ids)) as [_|Hn]; [done|].
           exfalso. apply Hn. by right.
        -- destruct (decide (k ∈ id :: ids)) as [Hin|_]; [|done].
           apply elem_of_cons in Hin as [?|?]; done.
Qed.

Lemma elem_of_expired_conversations (max_age_seconds : Z) (w : World)
    (k : string) :
  k ∈ expired_conversations max_age_seconds w
  ↔ expired_context max_age_seconds w k.
Proof.
  unfold expired_conversations, expired_context.
  rewrite list_elem_of_fmap. split.
  - intros ([k' c] & -> & Hin). apply list_elem_of_filter in Hin as [He Hin].
    apply elem_of_map_to_list in Hin. by exists c.
  - intros (c & Hc & He). exists (k, c). split; [done|].
    apply list_elem_of_filter. split; [done|]. by apply elem_of_map_to_list.
Qed.


End Sweep.

(** ** The title of a conversation *)

Section Title.
Import AgentOrchestrator.

Lemma truthy_strip (title : string) :
  PyStr.truthy (PyStr.strip title) = true → PyStr.truthy title = true.
Proof. by destruct title. Qed.


End Title.

(** ** The pause for the user and the resumed planning *)

Section PauseAndResume.
Import AgentOrchestrator.
Variable session : Session.

(** X19.  When the planner asks the user for input, a new request that
    goes straight to the planner yields thread_started and
    plan_require_user_input with the planner's prompt, and pauses: the
    conversation gets an execution context of stage planning for this
    user and thread, stamped with the current time, the request is
    pending, and the conversation waits for the user. *)
Theorem planner_question_pauses_the_conversation (user_input : UserInput)
    (prompt : string) (w : World) :
  runs_super_agent user_input = false →
  llm session = LlmAsks prompt →
  let conversation_id := UserInput.conversation_id user_input in
  let r := _handle_new_request session user_input w in
  ∃ thread plan_id,
    result r = Returned tt
    ∧ yielded r
      = [ResponseFactory.thread_started conversation_id thread
           (UserInput.query user_input);
         ResponseFactory.plan_require_user_input conversation_id thread prompt]
    ∧ _execution_contexts (world r) !! conversation_id
      = Some {| ExecutionContext.stage := "planning";
                ExecutionContext.conversation_id := conversation_id;
                ExecutionContext.thread_id := thread;
                ExecutionContext.user_id := UserInput.user_id user_input;
                ExecutionContext.created_at := loop_time w;
                ExecutionContext.original_user_input := Some user_input;
                ExecutionContext.planning_task := Some plan_id;
                ExecutionContext.pending_response := None |}
    ∧ pending_requests (world r) !! conversation_id = Some prompt
    ∧ conversations (world r) !! conversation_id
      = ConversationService.set_status REQUIRE_USER_INPUT
        <$> conversations w !! conversation_id.
Proof.
  intros Hs Hl conversation_id r.
  eassert (steps (_handle_new_request session user_input) w _ _ _)
    as (Hy & Hr & Hw).
  { unfold _handle_new_request. rewrite Hs, Hl.
    eapply (steps_bind _ _ _ _ _ [] _); [apply steps_generate_uuid|].
    eapply (steps_bind _ _ _ _ _ [_] _); [apply steps_yield|].
    unfold PlanService.start_planning_task. cbn [PlanService.reaches_llm].
    eapply (steps_bind _ _ _ _ _ [] _).
    { eapply (steps_bind _ _ _ _ _ [] []); [apply steps_generate_uuid|].
      eapply (steps_bind _ _ _ _ _ [] []); [apply steps_modify|].
      apply steps_ret. }
    unfold _monitor_planning_task.
    eapply (steps_bind _ _ _ _ _ [] _); [apply steps_get_world|].
    eapply (steps_bind _ _ _ _ _ [] _); [apply steps_modify|].
    eapply (steps_bind _ _ _ _ _ [] _); [apply steps_modify|].
    eapply (steps_bind _ _ _ _ _ [] _).
    { eapply (steps_bind _ _ _ _ _ [] []); [apply steps_get_world|].
      apply steps_ret. }
    apply steps_yield. }
  subst r. eexists _, _. rewrite Hr, Hy, Hw. cbn.
  split; [done|]. fold conversation_id.
  rewrite !lookup_insert_eq. cbn. split; [done|]. split; [done|].
  split; [done|]. apply lookup_alter_eq.
Qed.

End PauseAndResume.

Section Resume.
Import AgentOrchestrator.
Variable session : Session.

Lemma maybe_set_title_steps (conversation_id : string) (title : option string)
    (w : World) :
  ∃ g, steps (_maybe_set_conversation_title conversation_id title) w []
         (Returned tt) (set_conversations g w).
Proof.
  unfold _maybe_set_conversation_title.
  destruct title as [title|]; [destruct (negb _ || negb _)|].
  - exists id. destruct w. apply steps_ret.
  - eexists. apply steps_modify.
  - exists id. destruct w. apply steps_ret.
Qed.

Lemma title_and_execute_frame {B} (f : World → B) (plan : ExecutionPlan)
    (conversation_id thread : string) (show_plan : bool) (w : World) :
  executor_frame f →
  f (world (title_and_execute session plan conversation_id thread show_plan w))
  = f w
  ∧ result (title_and_execute session plan conversation_id thread show_plan w)
    = Returned tt.
Proof.
  intros Hf. pose proof Hf as (_ & _ & Hc & Hu).
  unfold title_and_execute.
  assert (∃ ys w1,
            steps (match Plan.tasks plan with
                   | first :: _ =>
                       _maybe_set_conversation_title conversation_id
                         (Some (title first)) ;;
                       if show_plan && (1 <? length (Plan.tasks plan))%nat then
                         task ← generate_task_id;
                         yield (ResponseFactory.component_generator
                                  conversation_id thread task
                                  (ExecutionPlanContent (Plan.tasks plan))
                                  EXECUTION_PLAN ("plan-" +:+ thread) "Planner")
                       else mret tt
                   | [] => mret tt
                   end) w ys (Returned tt) w1
            ∧ f w1 = f w) as (ys & w1 & (Hy & Hr & Hw) & Hf1).
  { destruct (Plan.tasks plan) as [|first rest].
    - eexists _, _. split; [apply steps_ret|done].
    - destruct (maybe_set_title_steps conversation_id (Some (title first)) w)
        as [g Hg].
      destruct (show_plan && _).
      + eexists _, _. split.
        * eapply (steps_bind _ _ _ _ _ [] _); [exact Hg|].
          eapply (steps_bind _ _ _ _ _ [] _); [apply steps_generate_uuid|].
          apply steps_yield.
        * by rewrite Hu, Hc.
      + eexists _, _. split.
        * eapply (steps_bind _ _ _ _ _ [] _); [exact Hg|]. apply steps_ret.
        * by rewrite Hc. }
  rewrite world_bind_cases, result_bind, Hr, Hw. split.
  - rewrite <- Hf1. by apply execute_plan_preserves.
  - apply returns_unit. apply execute_plan_returns.
Qed.

Lemma steps_activate_if (provided : bool) (conversation_id : string)
    (w : World) :
  steps (if provided then ConversationService.activate conversation_id
         else mret tt) w [] (Returned tt)
    (if provided
     then set_conversations
            (alter (ConversationService.set_status ACTIVE) conversation_id) w
     else w).
Proof. by destruct provided. Qed.


End Resume.




(** X19, worked case: the planner asks "Which ticker?". *)
Lemma planner_question_pauses_the_conversation_witness :
  let user_input := Sample.user_input "Is it worth it?" "ResearchAgent" in
  let r := AgentOrchestrator._handle_new_request Cases.asking_session
             user_input Sample.world in
  AgentOrchestrator.runs_super_agent user_input = false
  ∧ llm Cases.asking_session = LlmAsks "Which ticker?"
  ∧ ∃ thread plan_id,
      result r = Returned tt
      ∧ yielded r
        = [ResponseFactory.thread_started "conv-0" thread "Is it worth it?";
           ResponseFactory.plan_require_user_input "conv-0" thread
             "Which ticker?"]
      ∧ _execution_contexts (world r) !! "conv-0"
        = Some {| ExecutionContext.stage := "planning";
                  ExecutionContext.conversation_id := "conv-0";
                  ExecutionContext.thread_id := thread;
                  ExecutionContext.user_id := "user-1";
                  ExecutionContext.created_at := loop_time Sample.world;
                  ExecutionContext.original_user_input := Some user_input;
                  ExecutionContext.planning_task := Some plan_id;
                  ExecutionContext.pending_response := None |}
      ∧ pending_requests (world r) !! "conv-0" = Some "Which ticker?"
      ∧ conversations (world r) !! "conv-0"
        = ConversationService.set_status REQUIRE_USER_INPUT
          <$> conversations Sample.world !! "conv-0".
Proof.
  intros user_input r. split; [reflexivity|]. split; [reflexivity|].
  apply (planner_question_pauses_the_conversation Cases.asking_session
           user_input "Which ticker?" Sample.world); reflexivity.
Defined.


(** ** The answer of the super agent *)

Section Triage.
Import AgentOrchestrator.
Variable session : Session.

Lemma steps_answer (outcome : SuperAgentOutcome)
    (conversation_id thread : string) (w : World) :
  ∃ task w',
    steps (if PyStr.truthy_opt (answer_content outcome) then
             task ← generate_task_id;
             yield (ResponseFactory.message_response_general MESSAGE_CHUNK
                      conversation_id thread task
                      (default "" (answer_content outcome))
                      super_agent_service_name)
           else mret tt) w
      (if PyStr.truthy_opt (answer_content outcome)
       then [ResponseFactory.message_response_general MESSAGE_CHUNK
               conversation_id thread task
               (default "" (answer_content outcome)) "SuperAgent"]
       else [])
      (Returned tt) w'
    ∧ ∃ n, w' = set_uuid_counter (λ _, n) w.
Proof.
  destruct (PyStr.truthy_opt _).
  - eexists _, _. split.
    + eapply (steps_bind _ _ _ _ _ [] [_]); [apply steps_generate_uuid|].
      apply steps_yield.
    + exists (S (uuid_counter w)). by destruct w.
  - exists "", w. split; [apply steps_ret|].
    exists (uuid_counter w). by destruct w.
Qed.

(** X21.  When the super agent decides to answer, the request is over
    after thread_started and the answer, which is left out when it is
    empty: nothing is planned and no task is run, so the conversations,
    the task registry, the execution contexts and the pending requests
    stay as they are. *)
Theorem super_agent_answer_ends_the_request (user_input : UserInput)
    (outcome : SuperAgentOutcome) (w : World) :
  runs_super_agent user_input = true →
  triage session = Returned outcome →
  decision outcome = ANSWER →
  let conversation_id := UserInput.conversation_id user_input in
  let r := _handle_new_request session user_input w in
  ∃ thread task,
    result r = Returned tt
    ∧ yielded r
      = ResponseFactory.thread_started conversation_id thread
          (UserInput.query user_input)
        :: (if PyStr.truthy_opt (answer_content outcome)
            then [ResponseFactory.message_response_general MESSAGE_CHUNK
                    conversation_id thread task
                    (default "" (answer_content outcome)) "SuperAgent"]
            else [])
    ∧ conversations (world r) = conversations w
    ∧ task_registry (world r) = task_registry w
    ∧ _execution_contexts (world r) = _execution_contexts w
    ∧ pending_requests (world r) = pending_requests w.
Proof.
  intros Hs Ht Hd conversation_id r.
  destruct (steps_answer outcome conversation_id
              ("thread" +:+ "-" +:+ pretty (uuid_counter w))
              (set_uuid_counter S w)) as (task & w' & Hans & n & Hw').
  assert (steps (_handle_new_request session user_input) w
            ([ResponseFactory.thread_started conversation_id
                ("thread" +:+ "-" +:+ pretty (uuid_counter w))
                (UserInput.query user_input)]
             ++ (if PyStr.truthy_opt (answer_content outcome)
                 then [ResponseFactory.message_response_general MESSAGE_CHUNK
                         conversation_id
                         ("thread" +:+ "-" +:+ pretty (uuid_counter w)) task
                         (default "" (answer_content outcome)) "SuperAgent"]
                 else []) ++ [])
            (Returned tt) w') as (Hy & Hr & Hw).
  { unfold _handle_new_request. rewrite Hs, Ht, Hd.
    eapply (steps_bind _ _ _ _ _ [] _); [apply steps_generate_uuid|].
    eapply (steps_bind _ _ _ _ _ [_] _); [apply steps_yield|].
    eapply steps_bind; [exact Hans|apply steps_ret]. }
  subst r. exists ("thread" +:+ "-" +:+ pretty (uuid_counter w)), task.
  rewrite Hr, Hy, Hw, Hw', app_nil_r. done.
Qed.

Lemma no_known_agent (agents : list string) :
  (∀ a, a ∈ agents →
     a ∉ ["ResearchAgent"; "NewsAgent"; "StrategyAgent"]) →
  filter (λ a, a ∈ ["ResearchAgent"; "NewsAgent"]) agents = []
  ∧ filter (λ a, a = "StrategyAgent") agents = [].
Proof.
  intros H. split; apply filter_none; apply Forall_forall; intros a Ha Hin;
    apply (H a Ha).
  - apply elem_of_cons in Hin as [->|Hin]; [by left|].
    apply list_elem_of_singleton in Hin as ->. right. by left.
  - subst a. right. right. by left.
Qed.


End Triage.

(** X21, worked case: the super agent answers "Hello!". *)
Lemma super_agent_answer_ends_the_request_witness :
  let user_input := Sample.user_input "hello" "SuperAgent" in
  let r := AgentOrchestrator._handle_new_request Cases.answering_session
             user_input Sample.world in
  AgentOrchestrator.runs_super_agent user_input = true
  ∧ ∃ thread task,
      result r = Returned tt
      ∧ yielded r
        = [ResponseFactory.thread_started "conv-0" thread "hello";
           ResponseFactory.message_response_general MESSAGE_CHUNK "conv-0"
             thread task "Hello!" "SuperAgent"]
      ∧ conversations (world r) = conversations Sample.world
      ∧ task_registry (world r) = task_registry Sample.world
      ∧ _execution_contexts (world r) = _execution_contexts Sample.world
      ∧ pending_requests (world r) = pending_requests Sample.world.
Proof.
  intros user_input r. split; [reflexivity|].
  apply (super_agent_answer_ends_the_request Cases.answering_session
           user_input
           {| decision := ANSWER; answer_content := Some "Hello!";
              enriched_query := None; recommended_agents := None;
              outcome_reason := None |} Sample.world); reflexivity.
Defined.


(** ** What a cancellation reports, keeps and repeats *)

Section CancelReport.
Import TaskApiService.

Lemma update_loop_result (task_id : string) (items : list (string * Item.t)) :
  ∀ updated_ids w,
    result (update_loop task_id items updated_ids w)
    = Returned (updated_ids
                ++ (filter (λ entry, is_updated task_id entry = true) items).*1)
    ∧ yielded (update_loop task_id items updated_ids w) = [].
Proof.
  induction items as [|[id row] items IH]; intros updated_ids w.
  - cbn. by rewrite app_nil_r.
  - cbn [update_loop]. rewrite filter_cons.
    destruct (references task_id row) eqn:Href.
    + destruct (cancelled_row row) as [new|] eqn:E.
      * rewrite decide_True.
        2:{ unfold is_updated. cbn [snd]. rewrite Href, E. done. }
        rewrite result_bind, yielded_bind. cbn [modify result world yielded].
        destruct (IH (updated_ids ++ [id])
                     (set_item_store (ItemService.add_item id new) w))
          as [-> ->].
        by rewrite <- app_assoc.
      * rewrite decide_False; [apply IH|].
        unfold is_updated. cbn [snd]. rewrite Href, E. cbn [andb].
        intros H. apply bool_decide_eq_true in H. by destruct H.
    + rewrite decide_False; [apply IH|].
      unfold is_updated. cbn [snd]. by rewrite Href.
Qed.

Lemma cancel_task_result (task_id : string) (w : World) :
  result (TaskService.cancel_task task_id w)
  = Returned (cancellable task_id (task_registry w))
  ∧ yielded (TaskService.cancel_task task_id w) = []
  ∧ item_store (world (TaskService.cancel_task task_id w)) = item_store w.
Proof.
  unfold TaskService.cancel_task, cancellable.
  destruct (task_registry w !! task_id) as [s|]; [|done].
  by destruct (TaskService.is_finished s).
Qed.

Lemma cancel_result (task_id : string) (w : World) :
  result (cancel_and_update_component task_id w)
  = Returned
      {| task_id := task_id;
         success := cancellable task_id (task_registry w)
                    || (0 <? length (updated_ids_of task_id (item_store w)))%nat;
         updated_component_ids := updated_ids_of task_id (item_store w) |}
  ∧ yielded (cancel_and_update_component task_id w) = [].
Proof.
  destruct (cancel_task_result task_id w) as (Hr & Hy & Hs).
  set (w1 := world (TaskService.cancel_task task_id w)) in *.
  destruct (update_loop_result task_id
              (ItemService.get_conversation_items "scheduled_task_controller"
                 (item_store w1)) [] w1) as [Hur Huy].
  eassert (steps (cancel_and_update_component task_id) w [] _ _)
    as (Hy' & Hr' & _).
  { unfold cancel_and_update_component.
    eapply (steps_bind _ _ _ w1 _ [] []); [by repeat split|].
    eapply (steps_bind _ _ _ _ _ [] []); [apply steps_get_world|].
    eapply (steps_bind _ _ _ _ _ [] []); [|apply steps_ret].
    split; [exact Huy|]. split; [exact Hur|reflexivity]. }
  rewrite Hr', Hy'. by rewrite Hs.
Qed.

(** X23.  What a cancellation reports: the ids of the controller
    components that refer to the task and can be rewritten, in the order
    of the store, and success when the task was registered and not yet
    finished or at least one component was rewritten; the route answers
    400 exactly when neither holds.  Nothing is yielded. *)
Theorem cancel_reports_the_updated_components (task_id : string) (w : World) :
  let ids := updated_ids_of task_id (item_store w) in
  let live := cancellable task_id (task_registry w) in
  result (cancel_and_update_component task_id w)
  = Returned {| task_id := task_id;
                success := live || (0 <? length ids)%nat;
                updated_component_ids := ids |}
  ∧ result (cancel_task task_id w)
    = (if live || (0 <? length ids)%nat
       then Returned {| task_id := task_id; success := true;
                        updated_component_ids := ids |}
       else Raised "400 Task is not cancellable or not found.")
  ∧ yielded (cancel_task task_id w) = [].
Proof.
  intros ids live. destruct (cancel_result task_id w) as [Hr Hy].
  split; [exact Hr|]. unfold cancel_task.
  rewrite result_bind, yielded_bind, Hr, Hy. cbn [success negb].
  fold ids live. by destruct (live || _).
Qed.

End CancelReport.

Section CancelAgain.
Import TaskApiService.

Lemma cancel_row_updated (task_id : string) (id : string) (row : Item.t) :
  is_updated task_id (id, cancel_row task_id row) = is_updated task_id (id, row).
Proof.
  unfold is_updated. cbn [snd].
  destruct (references task_id row) eqn:Href.
  - destruct (cancelled_row row) as [new|] eqn:E.
    + assert (Hc : cancel_row task_id row = new).
      { unfold cancel_row. by rewrite Href, E. }
      rewrite Hc, (references_cancelled_row task_id row new E), Href.
      by rewrite (cancelled_row_again row new E).
    + assert (Hc : cancel_row task_id row = row).
      { unfold cancel_row. by rewrite Href, E. }
      by rewrite Hc, Href, E.
  - assert (Hc : cancel_row task_id row = row).
    { unfold cancel_row. by rewrite Href. }
    by rewrite Hc, Href.
Qed.

Lemma cancel_store_items (ct task_id : string) (store : ItemStore) :
  ct = "scheduled_task_controller" →
  ItemService.get_conversation_items ct (cancel_store task_id store)
  = (λ entry, (entry.1, cancel_row task_id entry.2))
    <$> ItemService.get_conversation_items ct store.
Proof.
  intros ->. unfold ItemService.get_conversation_items.
  rewrite cancel_store_order.
  assert (Hgen : ∀ l, l ⊆ item_order store →
    filter (λ entry, ItemService.is_component "scheduled_task_controller"
                       entry.2 = true)
      (omap (λ id, (λ row, (id, row))
                   <$> item_rows (cancel_store task_id store) !! id) l)
    = (λ entry, (entry.1, cancel_row task_id entry.2))
      <$> filter (λ entry, ItemService.is_component
                             "scheduled_task_controller" entry.2 = true)
            (omap (λ id, (λ row, (id, row)) <$> item_rows store !! id) l)).
  { induction l as [|i l IH]; intros Hsub; [done|].
    assert (Hi : i ∈ item_order store) by (apply Hsub; by left).
    assert (Hl : l ⊆ item_order store).
    { intros x Hx. apply Hsub. by right. }
    cbn [omap list_omap]. rewrite cancel_store_rows.
    destruct (item_rows store !! i) as [row|] eqn:E; cbn [fmap option_fmap
      option_map]; [|by apply IH].
    rewrite (bool_decide_eq_true_2 _ Hi). cbn [andb].
    destruct (ItemService.is_component "scheduled_task_controller" row) eqn:Hc;
      cbn [fmap option_fmap option_map]; rewrite !filter_cons; cbn [snd].
    - rewrite is_component_cancel_row, Hc.
      rewrite !decide_True by done. rewrite fmap_cons. cbn [fst snd].
      f_equal. by apply IH.
    - rewrite Hc. rewrite !decide_False by done. by apply IH. }
  by apply Hgen.
Qed.

Lemma updated_ids_of_cancel_store (task_id : string) (store : ItemStore) :
  updated_ids_of task_id (cancel_store task_id store)
  = updated_ids_of task_id store.
Proof.
  unfold updated_ids_of. rewrite cancel_store_items by done.
  induction (ItemService.get_conversation_items _ store) as [|[i row] l IH];
    [done|].
  rewrite fmap_cons, !filter_cons. cbn [fst snd].
  rewrite cancel_row_updated.
  destruct (decide (is_updated task_id (i, row) = true));
    rewrite ?fmap_cons; cbn [fst]; by rewrite IH.
Qed.

Lemma cancellable_cancel_registry (task_id : string)
    (reg : gmap string TaskStatus) :
  cancellable task_id (cancel_registry task_id reg) = false.
Proof.
  unfold cancellable, cancel_registry.
  destruct (reg !! task_id) as [s|] eqn:E; [|by rewrite E].
  destruct (TaskService.is_finished s) eqn:Hs.
  - by rewrite E, Hs.
  - by rewrite lookup_insert_eq.
Qed.

Lemma cancel_route_world (task_id : string) (w : World) :
  world (cancel_task task_id w) = world (cancel_and_update_component task_id w).
Proof.
  unfold cancel_task. rewrite world_bind_cases.
  destruct (cancel_result task_id w) as [-> _]. cbn [success].
  by destruct (negb _).
Qed.

(** X24.  A cancellation that is repeated succeeds exactly when the
    first one has rewritten a component, and then reports the same
    components again; a task that was only cancelled in the registry, and
    a task that was never known, get 400 the second time. *)
Theorem repeated_cancellation (task_id : string) (w : World) :
  let ids := updated_ids_of task_id (item_store w) in
  let w1 := world (cancel_task task_id w) in
  result (cancel_task task_id w1)
  = (if (0 <? length ids)%nat
     then Returned {| task_id := task_id; success := true;
                      updated_component_ids := ids |}
     else Raised "400 Task is not cancellable or not found.")
  ∧ world (cancel_task task_id w1) = w1.
Proof.
  intros ids w1.
  assert (Hw1 : w1 = set_item_store (cancel_store task_id)
                       (set_task_registry (cancel_registry task_id) w)).
  { subst w1. by rewrite cancel_route_world, cancel_world. }
  split.
  - destruct (cancel_result task_id w1) as [Hr Hy].
    unfold cancel_task. rewrite result_bind, Hr. cbn [success negb].
    rewrite Hw1. cbn [item_store task_registry set_item_store
      set_task_registry].
    rewrite updated_ids_of_cancel_store, cancellable_cancel_registry.
    cbn [orb]. fold ids. by destruct (0 <? length ids)%nat.
  - rewrite cancel_route_world, cancel_world, Hw1.
    destruct w as [reg ? ? ? ? ? ? store ? ?]. unfold set_item_store,
      set_task_registry. cbn.
    by rewrite cancel_store_idempotent, cancel_registry_idempotent.
Qed.

End CancelAgain.

Section CancelKeeps.
Import TaskApiService.

(** X25.  A cancellation changes nothing but the registry entry of the
    task and the controller components that refer to it: no item is
    added, removed or moved, every item that is not a controller
    component, does not refer to the task or cannot be rewritten stays as
    it is, every other task keeps its state, and the rest of the world
    is untouched. *)
Theorem cancel_touches_only_its_components (task_id : string) (w : World) :
  let w1 := world (cancel_and_update_component task_id w) in
  item_order (item_store w1) = item_order (item_store w)
  ∧ dom (item_rows (item_store w1)) = dom (item_rows (item_store w))
  ∧ (∀ id row,
       item_rows (item_store w) !! id = Some row →
       ItemService.is_component "scheduled_task_controller" row = false
       ∨ references task_id row = false
       ∨ cancelled_row row = None →
       item_rows (item_store w1) !! id = Some row)
  ∧ (∀ id, id ≠ task_id → task_registry w1 !! id = task_registry w !! id)
  ∧ conversations w1 = conversations w
  ∧ _execution_contexts w1 = _execution_contexts w
  ∧ pending_requests w1 = pending_requests w.
Proof.
  intros w1. subst w1. rewrite cancel_world.
  cbn [item_store task_registry set_item_store set_task_registry
       conversations _execution_contexts pending_requests].
  split; [apply cancel_store_order|]. split.
  { apply set_eq. intros id. rewrite !elem_of_dom, cancel_store_rows.
    destruct (item_rows (item_store w) !! id) as [row|]; [|done].
    destruct (_ && _); split; intros _; by eexists. }
  split.
  { intros id row Hrow Hwhy. rewrite cancel_store_rows, Hrow.
    destruct (bool_decide _ && _) eqn:Hb; [|done].
    apply andb_prop in Hb as [_ Hc]. f_equal.
    unfold cancel_row.
    destruct Hwhy as [H|[H|H]]; [congruence|by rewrite H|].
    rewrite H. by destruct (references task_id row). }
  split; [|done].
  intros id Hne. unfold cancel_registry.
  destruct (task_registry w !! task_id) as [s|]; [|done].
  destruct (TaskService.is_finished s); [done|].
  by rewrite lookup_insert_ne.
Qed.

Lemma get_set_other (fields : list (string * json)) (key key' : string)
    (v : json) :
  key' ≠ key →
  PyDict.get key' (PyDict.set key v fields) = PyDict.get key' fields.
Proof. intros H. apply dict_get_set_ne. congruence. Qed.

(** X26.  The row written for a cancelled component keeps the role, the
    event, the conversation, the thread, the task and the agent of the
    item, every field of the payload but [content], and every field of
    the content but [task_status], which is "cancelled"; the metadata is
    kept when it is JSON and dropped when it is not. *)
Theorem cancelled_row_keeps_the_rest (item row : Item.t) :
  cancelled_row item = Some row →
  Item.role row = Item.role item
  ∧ Item.event row = Item.event item
  ∧ Item.conversation_id row = Item.conversation_id item
  ∧ Item.thread_id row = Item.thread_id item
  ∧ Item.task_id row = Item.task_id item
  ∧ Item.agent_name row = Item.agent_name item
  ∧ (∀ key, key ≠ "content" →
       PyDict.get key (payload_fields row) = PyDict.get key (payload_fields item))
  ∧ (∀ key, key ≠ "task_status" →
       PyDict.get key (content_fields row) = PyDict.get key (content_fields item))
  ∧ PyDict.get "task_status" (content_fields row) = Some (JString "cancelled")
  ∧ Item.metadata row
    = match Item.metadata item with
      | Some (Json doc) => Some (Json doc)
      | _ => None
      end.
Proof.
  intros H.
  destruct (cancelled_row_shape item row H)
    as (pf & cf & Hp & Hl & Hc & H5 & H2 & H7 & H1 & H3 & H4 & H6).
  repeat (split; [done|]).
  assert (Hpf : payload_fields item = pf).
  { unfold payload_fields. by rewrite Hl. }
  assert (Hpf' : payload_fields row
                 = PyDict.set "content"
                     (JDocument (JObject
                        (PyDict.set "task_status" (JString "cancelled") cf)))
                     pf).
  { unfold payload_fields. by rewrite Hp. }
  assert (Hcf' : content_fields row
                 = PyDict.set "task_status" (JString "cancelled") cf).
  { unfold content_fields. by rewrite Hpf', dict_get_set_eq. }
  assert (Hcf : content_fields item = cf).
  { unfold content_fields. rewrite Hpf.
    destruct Hc as [->|[-> Hns]]; [done|].
    destruct (PyDict.get "content" pf) as [[]|]; done. }
  split; [intros key Hk; by rewrite Hpf', Hpf, get_set_other|].
  split; [intros key Hk; by rewrite Hcf', Hcf, get_set_other|].
  split; [by rewrite Hcf', dict_get_set_eq|].
  rewrite H7. unfold metadata_dict.
  by destruct (Item.metadata item) as [[]|].
Qed.

End CancelKeeps.

(** X26, worked case: the live controller component of the samples. *)
Lemma cancelled_row_keeps_the_rest_witness :
  ∃ row,
    TaskApiService.cancelled_row Sample.live_controller = Some row
    ∧ Item.agent_name row = Item.agent_name Sample.live_controller
    ∧ PyDict.get "component_type" (payload_fields row)
      = Some (JString "scheduled_task_controller")
    ∧ PyDict.get "task_id" (content_fields row) = Some (JString "task-1")
    ∧ PyDict.get "task_status" (content_fields row)
      = Some (JString "cancelled").
Proof.
  eexists. split; [reflexivity|].
  match goal with |- context [Item.agent_name ?r = _] =>
    destruct (cancelled_row_keeps_the_rest Sample.live_controller r eq_refl)
      as (_ & _ & _ & _ & _ & Ha & Hp & Hc & Hs & _)
  end.
  split; [exact Ha|].
  split; [rewrite (Hp "component_type") by discriminate; reflexivity|].
  split; [rewrite (Hc "task_id") by discriminate; reflexivity|].
  exact Hs.
Defined.
